(** * dynamic-doc: page-interaction utilities over a browser-automation API

    A shallow embedding of the action layer (typing, clearing, clicking,
    scrolling), of the element resolver of [src/utils/domUtils.js], of the
    [randomNumber] helper and of the two navigation-settlement handlers.

    Conventions.
    - The browser is the environment.  Everything the code reads from it
      (query results, [Math.random()], [Date.now()], whether a primitive
      throws) comes from an oracle record [env]; everything the code does
      to it is appended to a chronological [trace].
    - JavaScript numbers are doubles.  Millisecond bounds, click counts and
      clock readings are integers ([Z]); the result of [Math.random()] and
      what is computed from it are exact rationals ([Q]).  Rounding of the
      double arithmetic is not modelled.
    - An [async] function is a computation in the monad [M]: it returns,
      throws (its promise rejects) or stays pending.  The two navigation
      handlers, whose behaviour depends on how callbacks interleave, are in
      addition given as a transition system over the events of the
      JavaScript event loop (module [Nav]). *)

From Stdlib Require Import ZArith QArith Qround Qminmax Lia Lqa String Ascii List.
From stdpp Require Import base list strings pretty.

Open Scope Z_scope.

(** ** Values, errors and page actions *)

Definition handle := nat.
Definition page_ref := nat.

Inductive error :=
| Error (msg : string)            (* [new Error(msg)] thrown by this layer *)
| TypeError (msg : string)
| ReferenceError (msg : string)
| PageError (code : nat).         (* raised by a primitive of the page object *)

(** What [getElement] hands back to its callers. *)
Inductive element :=
| Null
| Undefined
| ElementHandle (h : handle)
| HandleArray (hs : list handle)   (* the array of [page.$$] *)
| JSHandle (items : list string).  (* the handle of [page.evaluateHandle] *)

(** JavaScript truthiness, as in [if (!element)] and [element || null]. *)
Definition truthy (v : element) : bool :=
  match v with
  | Null | Undefined => false
  | _ => true
  end.

Inductive action :=
| Focus (h : handle)
| TypeChar (h : handle) (c : ascii) (delay : Z)
| Press (h : handle) (key : string)
| KeyboardPress (key : string)
| Click (h : handle) (clickCount : option Z)
| RandomWait
| LogMessage (msg : string)
| Select (selector value : string)
| PageOn
| PageOff
| WaitForNavigation (timeout : Z)
| SetTimeout (ms : Z)
| SetInterval (ms : Z)
| ClearInterval
| ScrollBy (dy : Z)
| ScrollTo (x y : Q)
| Delay (ms : Q)
| ScrollIntoView (h : handle).

(** One call of the shared error handler:
    [handleError(i, error, tag, context)]. *)
Record report := Report {
  rep_error : error;
  rep_tag : option string;
  rep_context : option (list (string * option string))
}.

Inductive outcome (A : Type) :=
| Ret (a : A)
| Throw (e : error)
| Pending.
Arguments Ret {A} a.
Arguments Throw {A} e.
Arguments Pending {A}.

(** ** The world threaded through every call *)

Record world := World {
  trace : list action;      (* actions performed, oldest first *)
  raised : list error;      (* every error thrown, oldest first *)
  handled : list report;    (* every call of [handleError] *)
  calls : nat;              (* primitives awaited so far *)
  draws : nat;              (* [Math.random()] calls so far *)
  reads : nat;              (* [Date.now()] calls so far *)
  scrollY : Q               (* [window.scrollY] *)
}.

Definition emit (a : action) (w : world) : world :=
  World (trace w ++ [a]) (raised w) (handled w) (calls w) (draws w) (reads w) (scrollY w).
Definition emits (l : list action) (w : world) : world :=
  World (trace w ++ l) (raised w) (handled w) (calls w) (draws w) (reads w) (scrollY w).
Definition note_raised (e : error) (w : world) : world :=
  World (trace w) (raised w ++ [e]) (handled w) (calls w) (draws w) (reads w) (scrollY w).
Definition note_handled (r : report) (w : world) : world :=
  World (trace w) (raised w) (handled w ++ [r]) (calls w) (draws w) (reads w) (scrollY w).
Definition next_call (w : world) : world :=
  World (trace w) (raised w) (handled w) (S (calls w)) (draws w) (reads w) (scrollY w).
Definition next_draw (w : world) : world :=
  World (trace w) (raised w) (handled w) (calls w) (S (draws w)) (reads w) (scrollY w).
Definition next_read (w : world) : world :=
  World (trace w) (raised w) (handled w) (calls w) (draws w) (S (reads w)) (scrollY w).
Definition set_scrollY (y : Q) (w : world) : world :=
  World (trace w) (raised w) (handled w) (calls w) (draws w) (reads w) y.

Definition fresh : world := World [] [] [] 0 0 0 0%Q.

(** ** The monad of asynchronous calls *)

Definition M (A : Type) : Type := world -> outcome A * world.

Definition ret {A} (a : A) : M A := fun w => (Ret a, w).

Definition bind {A B} (m : M A) (k : A -> M B) : M B := fun w =>
  match m w with
  | (Ret a, w') => k a w'
  | (Throw e, w') => (Throw e, w')
  | (Pending, w') => (Pending, w')
  end.

Definition throw {A} (e : error) : M A := fun w => (Throw e, note_raised e w).

Definition pending {A} : M A := fun w => (Pending, w).

(** [try { body } catch (error) { handler error }] *)
Definition try_catch {A} (body : M A) (handler : error -> M A) : M A := fun w =>
  match body w with
  | (Throw e, w') => handler e w'
  | r => r
  end.

Declare Scope js_scope.
Delimit Scope js_scope with js.
Notation "'let*' x := m 'in' k" := (bind m (fun x => k))
  (at level 10, x name, m at level 100, k at level 200) : js_scope.
Notation "m ;; k" := (bind m (fun _ => k))
  (at level 100, k at level 200, right associativity) : js_scope.
Open Scope js_scope.

(** Modelled from the spec: [handleError(i, error, tag, context)] is not under
    [src/].  It is the single shared error handler, to which every operation
    forwards an error with its diagnostics; it records the call and returns. *)
Definition handleError (e : error) (tag : option string)
    (context : option (list (string * option string))) : M unit :=
  fun w => (Ret tt, note_handled (Report e tag context) w).

(** ** Helpers.randomNumber *)

(** [randomNumber(min, max)] for the draw [r] of [Math.random()]. *)
Definition randomNumber_at (r : Q) (min max : Z) : Z :=
  let '(min, max) := if min >? max then (max, min) else (min, max) in
  Qfloor (r * inject_Z (max - min + 1)) + min.

(** ** Navigation settlement as a transition system

    One session is one call of [handleHotmailNavigation] or
    [handleGmailNavigation].  Its variables ([lastNavigationTime],
    [navigationResolving], [lastLoggedFrameID]) are shared by the main flow
    and by every invocation of [navigationHandler]; each of these is a
    coroutine suspended at one of its [await]s.  A transition is one
    callback of the event loop, run to its next [await]. *)

Module Nav.

Inductive mode := Hotmail | Gmail.

(** Where the main flow is suspended. *)
Inductive main_pc :=
| AwaitClick          (* await element.click() *)
| AwaitDirectWait     (* await page.waitForNavigation(...).catch(() => {}) *)
| AwaitSettle         (* await new Promise(...): the recheck timer is armed *)
| AwaitLog            (* await utilities.logMessage(`Navigation Completed.`) *)
| Completed           (* after page.off *)
| Rejected (e : error).

(** Where one invocation of [navigationHandler] is suspended. *)
Inductive handler_pc :=
| HAwaitLog (currentFrameLog : string)   (* await utilities.logMessage(...) *)
| HAwaitGrace                            (* Gmail: the 1000 ms promise *)
| HAwaitNavigation                       (* await page.waitForNavigation(...) *)
| HReturned
| HRejected (e : error).

Inductive event :=
| FrameNavigated (frame_id : string)
| ClickResolved
| ClickRejected (e : error)
| DirectWaitSettled (timed_out : bool)   (* a timeout is swallowed by [.catch] *)
| TimerFired
| LogResolved
| LogRejected (e : error)
| HandlerLogResolved (i : nat)
| HandlerLogRejected (i : nat) (e : error)
| HandlerGraceElapsed (i : nat)
| HandlerWaitSettled (i : nat) (timed_out : bool).

Record session := Session {
  mode_of : mode;
  SETTLE_TIMEOUT : Z;
  lastNavigationTime : Z;            (* Hotmail only; Gmail never reads it *)
  navigationResolving : bool;
  lastLoggedFrameID : option string;
  listening : bool;                  (* between page.on and page.off *)
  pc : main_pc;
  invocations : list handler_pc;     (* one entry per handler invocation *)
  due : option Z;                    (* when the pending timer of the main flow is due *)
  api : list action;                 (* calls issued, oldest first *)
  clock : Z                          (* Date.now() at the last callback *)
}.

Definition NAVIGATION_RECHECK_DELAY : Z := 1000.
Definition RECHECK_INTERVAL : Z := 1500.
Definition NAVIGATION_WAIT_TIMEOUT (m : mode) : Z :=
  match m with Hotmail => 10000 | Gmail => 5000 end.

Definition set_last (t : Z) (s : session) : session :=
  Session (mode_of s) (SETTLE_TIMEOUT s) t (navigationResolving s) (lastLoggedFrameID s)
    (listening s) (pc s) (invocations s) (due s) (api s) (clock s).
Definition set_resolving (b : bool) (s : session) : session :=
  Session (mode_of s) (SETTLE_TIMEOUT s) (lastNavigationTime s) b (lastLoggedFrameID s)
    (listening s) (pc s) (invocations s) (due s) (api s) (clock s).
Definition set_logged (l : option string) (s : session) : session :=
  Session (mode_of s) (SETTLE_TIMEOUT s) (lastNavigationTime s) (navigationResolving s) l
    (listening s) (pc s) (invocations s) (due s) (api s) (clock s).
Definition set_listening (b : bool) (s : session) : session :=
  Session (mode_of s) (SETTLE_TIMEOUT s) (lastNavigationTime s) (navigationResolving s)
    (lastLoggedFrameID s) b (pc s) (invocations s) (due s) (api s) (clock s).
Definition set_pc (p : main_pc) (s : session) : session :=
  Session (mode_of s) (SETTLE_TIMEOUT s) (lastNavigationTime s) (navigationResolving s)
    (lastLoggedFrameID s) (listening s) p (invocations s) (due s) (api s) (clock s).
Definition set_invocations (l : list handler_pc) (s : session) : session :=
  Session (mode_of s) (SETTLE_TIMEOUT s) (lastNavigationTime s) (navigationResolving s)
    (lastLoggedFrameID s) (listening s) (pc s) l (due s) (api s) (clock s).
Definition set_due (d : option Z) (s : session) : session :=
  Session (mode_of s) (SETTLE_TIMEOUT s) (lastNavigationTime s) (navigationResolving s)
    (lastLoggedFrameID s) (listening s) (pc s) (invocations s) d (api s) (clock s).
Definition call (a : action) (s : session) : session :=
  Session (mode_of s) (SETTLE_TIMEOUT s) (lastNavigationTime s) (navigationResolving s)
    (lastLoggedFrameID s) (listening s) (pc s) (invocations s) (due s) (api s ++ [a]) (clock s).
Definition set_clock (t : Z) (s : session) : session :=
  Session (mode_of s) (SETTLE_TIMEOUT s) (lastNavigationTime s) (navigationResolving s)
    (lastLoggedFrameID s) (listening s) (pc s) (invocations s) (due s) (api s) t.

Definition push (h : handler_pc) (s : session) : session :=
  set_invocations (invocations s ++ [h]) s.
Definition resume (i : nat) (h : handler_pc) (s : session) : session :=
  set_invocations (<[i:=h]> (invocations s)) s.

(** The synchronous prefix of the handler: the variables are initialised,
    the listener is attached, then the click is dispatched.  An [element]
    that is no element handle has no [click] method. *)
Definition start (m : mode) (settle : Z) (now : Z) (el : element) : session :=
  let s := Session m settle now false None false AwaitClick [] None [] now in
  let s := set_listening true (call PageOn s) in
  match el with
  | ElementHandle h => call (Click h None) s
  | _ => set_pc (Rejected (TypeError "element.click is not a function")) s
  end.

(** [if (!navigationResolving) { navigationResolving = true; ... await ... }] *)
Definition acquire (s : session) : session * handler_pc :=
  if navigationResolving s then (s, HReturned)
  else
    match mode_of s with
    | Hotmail =>
        (call (WaitForNavigation (NAVIGATION_WAIT_TIMEOUT Hotmail)) (set_resolving true s),
         HAwaitNavigation)
    | Gmail => (call (SetTimeout 1000) (set_resolving true s), HAwaitGrace)
    end.

(** [navigationHandler(frame)] up to its first [await]. *)
Definition navigationHandler (s : session) (now : Z) (frame_id : string) : session :=
  let s := match mode_of s with Hotmail => set_last now s | Gmail => s end in
  let currentFrameLog := ("Frame navigated: Frame ID = " ++ frame_id)%string in
  if decide (lastLoggedFrameID s = Some currentFrameLog) then
    let '(s, h) := acquire s in push h s
  else
    push (HAwaitLog currentFrameLog) (call (LogMessage currentFrameLog) s).

(** The settlement promise resolves and the main flow goes on to log. *)
Definition resolve (s : session) : session :=
  set_pc AwaitLog (set_due None (call (LogMessage "Navigation Completed.") s)).

(** Hotmail: [checkStability()]. *)
Definition checkStability (s : session) (now : Z) : session :=
  let timeSinceLastNavigation := now - lastNavigationTime s in
  if negb (navigationResolving s) && (timeSinceLastNavigation >? SETTLE_TIMEOUT s) then
    resolve s
  else
    set_pc AwaitSettle
      (set_due (Some (now + NAVIGATION_RECHECK_DELAY))
         (call (SetTimeout NAVIGATION_RECHECK_DELAY) s)).

(** Gmail: the callback of [setInterval]. *)
Definition intervalTick (s : session) (now : Z) : session :=
  if negb (navigationResolving s) then resolve (call ClearInterval s)
  else set_due (Some (now + RECHECK_INTERVAL)) s.

(** One callback of the event loop at time [now]; [None] when the event
    cannot occur in [s]. *)
Definition step (s : session) (now : Z) (ev : event) : option session :=
  let s := set_clock now s in
  match ev with
  | FrameNavigated frame_id =>
      if listening s then Some (navigationHandler s now frame_id) else None
  | ClickResolved =>
      match pc s with
      | AwaitClick =>
          let t := NAVIGATION_WAIT_TIMEOUT (mode_of s) in
          Some (set_pc AwaitDirectWait (set_due (Some (now + t)) (call (WaitForNavigation t) s)))
      | _ => None
      end
  | ClickRejected e =>
      match pc s with
      | AwaitClick => Some (set_pc (Rejected e) s)
      | _ => None
      end
  | DirectWaitSettled _ =>
      match pc s with
      | AwaitDirectWait =>
          match mode_of s with
          | Hotmail => Some (checkStability s now)
          | Gmail =>
              Some (set_pc AwaitSettle
                      (set_due (Some (now + RECHECK_INTERVAL))
                         (call (SetInterval RECHECK_INTERVAL) s)))
          end
      | _ => None
      end
  | TimerFired =>
      match pc s with
      | AwaitSettle =>
          match mode_of s with
          | Hotmail => Some (checkStability s now)
          | Gmail => Some (intervalTick s now)
          end
      | _ => None
      end
  | LogResolved =>
      match pc s with
      | AwaitLog => Some (set_pc Completed (set_listening false (call PageOff s)))
      | _ => None
      end
  | LogRejected e =>
      match pc s with
      | AwaitLog => Some (set_pc (Rejected e) s)
      | _ => None
      end
  | HandlerLogResolved i =>
      match invocations s !! i with
      | Some (HAwaitLog currentFrameLog) =>
          let '(s, h) := acquire (set_logged (Some currentFrameLog) s) in
          Some (resume i h s)
      | _ => None
      end
  | HandlerLogRejected i e =>
      match invocations s !! i with
      | Some (HAwaitLog _) => Some (resume i (HRejected e) s)
      | _ => None
      end
  | HandlerGraceElapsed i =>
      match invocations s !! i with
      | Some HAwaitGrace => Some (resume i HAwaitNavigation (call (WaitForNavigation 3000) s))
      | _ => None
      end
  | HandlerWaitSettled i _ =>
      match invocations s !! i with
      | Some HAwaitNavigation => Some (resume i HReturned (set_resolving false s))
      | _ => None
      end
  end.

(** A schedule is the list of callbacks the event loop runs, each with the
    clock reading at which it runs; an event that cannot occur is skipped. *)
Definition exec1 (s : session) (te : Z * event) : session :=
  default s (step s te.1 te.2).

Definition exec (s : session) (schedule : list (Z * event)) : session :=
  fold_left exec1 schedule s.

(** Handler invocations that hold the guard flag (a wait is in flight). *)
Definition holds (h : handler_pc) : bool :=
  match h with
  | HAwaitGrace | HAwaitNavigation => true
  | _ => false
  end.

Definition holders (l : list handler_pc) : nat := length (filter (fun h => holds h = true) l).

(** The polls of the settlement loop: a firing of the recheck timer and, in
    Hotmail mode, the first [checkStability()] call, which runs as soon as
    the direct wait is over. *)
Definition is_poll (s : session) (ev : event) : bool :=
  match ev, pc s with
  | TimerFired, AwaitSettle => true
  | DirectWaitSettled _, AwaitDirectWait =>
      match mode_of s with Hotmail => true | Gmail => false end
  | _, _ => false
  end.

Definition is_navigation (ev : event) : bool :=
  match ev with
  | FrameNavigated _ => true
  | _ => false
  end.

(** A schedule in which no navigation event fires. *)
Definition uneventful (schedule : list (Z * event)) : bool :=
  forallb (fun te => negb (is_navigation te.2)) schedule.

(** The quiet environment: no navigation event, nothing throws; every
    pending [await] of the main flow completes [latency] after the earliest
    moment it can (the direct wait at its timeout, a timer when it is due). *)
Definition quiet_next (s : session) (latency : Z) : option (Z * event) :=
  match pc s with
  | AwaitClick => Some (clock s + latency, ClickResolved)
  | AwaitDirectWait =>
      match due s with
      | Some d => Some (d + latency, DirectWaitSettled true)
      | None => None
      end
  | AwaitSettle =>
      match due s with
      | Some d => Some (d + latency, TimerFired)
      | None => None
      end
  | AwaitLog => Some (clock s + latency, LogResolved)
  | _ => None
  end.

Fixpoint quiet_run (latency : nat -> Z) (n : nat) (s : session) : session :=
  match n with
  | O => s
  | S n' =>
      match quiet_next s (latency O) with
      | Some te => quiet_run (fun k => latency (S k)) n' (exec1 s te)
      | None => s
      end
  end.

End Nav.

(** ** The environment of a call *)

Inductive value :=
| VUndefined
| VNull
| VBool (b : bool)
| VString (s : string).

(** The object [{ selector, type }] an operation is called with.  Where an
    operation may be handed [null] or [undefined] instead, its argument is
    an [option descriptor] (see the public surface below). *)
Record descriptor := Descriptor {
  selector : string;
  type : option string        (* [None]: the property is absent *)
}.

Record env := Env {
  page : page_ref;                                    (* utilities.page *)
  isp : string;                                       (* utilities.isp *)
  types_selector : string;                            (* utilities.types.selector *)
  types_xpath : string;                               (* utilities.types.xpath *)
  css_first : page_ref -> string -> option handle;    (* first match of a CSS selector *)
  css_all : page_ref -> string -> list handle;        (* all matches of a CSS selector *)
  xpath_first : page_ref -> string -> option handle;  (* singleNodeValue of the XPath *)
  xpath_all : page_ref -> string -> list string;      (* outerHTML of every XPath match *)
  rect_top : handle -> Q;                             (* getBoundingClientRect().top *)
  innerHeight : Z;
  scrollHeight : Z;
  fails : nat -> option error;     (* does the k-th awaited primitive throw? *)
  random : nat -> Q;               (* the k-th Math.random() *)
  now : nat -> Z;                  (* the k-th Date.now() *)
  focused : nat -> bool;           (* document.activeElement === el, asked at primitive k *)
  evaluated : nat -> value;        (* what an evaluate callback returns at primitive k *)
  fuel : nat;                      (* iterations of an in-page loop that are observed *)
  navigation : list (Z * Nav.event)   (* callbacks run during a navigation session *)
}.

Definition dquote : string := String (ascii_of_nat 34) EmptyString.
Definition newline : ascii := ascii_of_nat 10.

(** [s.split(sep)] for a one-character separator. *)
Fixpoint split (sep : ascii) (s : string) : list string :=
  match s with
  | EmptyString => [EmptyString]
  | String c rest =>
      if Ascii.eqb c sep then EmptyString :: split sep rest
      else
        match split sep rest with
        | line :: more => String c line :: more
        | [] => [String c EmptyString]
        end
  end.

Definition of_option (o : option handle) : element :=
  match o with
  | Some h => ElementHandle h
  | None => Null
  end.

(** [x || null] *)
Definition or_null (v : element) : element := if truthy v then v else Null.

Definition value_truthy (v : value) : bool :=
  match v with
  | VUndefined | VNull => false
  | VBool b => b
  | VString s => negb (String.eqb s "")
  end.

Section Operations.

Variable E : env.

(** *** Primitives *)

(** Awaiting a primitive of the page: it throws when the oracle says so,
    otherwise it performs [a]. *)
Definition act (a : action) : M unit := fun w =>
  match fails E (calls w) with
  | Some e => (Throw e, note_raised e (next_call w))
  | None => (Ret tt, emit a (next_call w))
  end.

(** Awaiting a primitive that only reads: it throws or yields what the
    oracle [f] holds for this call. *)
Definition ask {A} (f : nat -> A) : M A := fun w =>
  match fails E (calls w) with
  | Some e => (Throw e, note_raised e (next_call w))
  | None => (Ret (f (calls w)), next_call w)
  end.

(** Modelled from the spec: [utilities.logMessage(message, null, true)] is not
    under [src/].  It is the logging sink, awaited like any primitive. *)
Definition logMessage (message : string) : M unit := act (LogMessage message).

(** Modelled from the spec: [utilities.randomWait()] is not under [src/].  It
    waits for a randomized interval. *)
Definition randomWait : M unit := act RandomWait.

Definition Math_random : M Q := fun w => (Ret (random E (draws w)), next_draw w).
Definition Date_now : M Z := fun w => (Ret (now E (reads w)), next_read w).
Definition getPage : page_ref := page E.

Definition randomNumber (min max : Z) : M Z :=
  let* r := Math_random in ret (randomNumber_at r min max).

(** A method call on what should be an element handle. *)
Definition method (v : element) (name : string) : M handle :=
  match v with
  | ElementHandle h => ret h
  | _ => throw (TypeError ("element." ++ name ++ " is not a function"))
  end.

Definition not_found (ty sel : string) : error :=
  Error ("Element with "
         ++ (if String.eqb ty (types_selector E) then "Selector" else "XPath")
         ++ " selector '" ++ sel ++ "' not found").

(** [{ selector, type = dflt }] *)
Definition defaulting (dflt : string) (d : descriptor) : descriptor :=
  Descriptor (selector d) (Some (default dflt (type d))).

Definition kind_of (d : descriptor) : string := default "selector"%string (type d).

Definition diagnostics (d : descriptor) : list (string * option string) :=
  [("selector"%string, Some (selector d)); ("type"%string, Some (kind_of d))].

(** *** src/utils/domUtils.js *)

Definition fetchDOM : M value :=
  try_catch
    (let* result := ask (evaluated E) in
     ret (match result with VUndefined => VNull | _ => result end))
    (fun error => handleError error None None;; ret VUndefined).

Definition checkElement (d : descriptor) : M value :=
  try_catch
    (let page := getPage in
     if String.eqb (kind_of d) (types_selector E) then
       let* found := ask (fun _ => css_first E page (selector d)) in
       ret (VBool (bool_decide (found <> None)))
     else if String.eqb (kind_of d) (types_xpath E) then
       let* found := ask (fun _ => xpath_first E page (selector d)) in
       ret (VBool (bool_decide (found <> None)))
     else
       throw (Error ("Unsupported selector type: " ++ kind_of d
                     ++ ". Expected 'selector' or 'xpath'.")))
    (fun error => handleError error None (Some (diagnostics d));; ret VUndefined).

Definition getElement (d : descriptor) (frame : option page_ref) : M element :=
  try_catch
    (let page := default getPage frame in
     let* element :=
       (if String.eqb (kind_of d) "id" then
          let* h := ask (fun _ => css_first E page ("[id=" ++ dquote ++ selector d ++ dquote ++ "]")) in
          ret (of_option h)
        else if String.eqb (kind_of d) "selector" then
          let* h := ask (fun _ => css_first E page (selector d)) in
          ret (of_option h)
        else if String.eqb (kind_of d) "xpath" then
          let* elementHandle := ask (fun _ => xpath_first E page (selector d)) in
          ret (of_option elementHandle)
        else if String.eqb (kind_of d) "class" then
          let* h := ask (fun _ => css_first E page ("." ++ selector d)) in
          ret (of_option h)
        else if String.eqb (kind_of d) "allSelector" then
          let* hs := ask (fun _ => css_all E page (selector d)) in
          ret (HandleArray hs)
        else if String.eqb (kind_of d) "allXpath" then
          let* elements := ask (fun _ => xpath_all E page (selector d)) in
          let* _ := ask (fun _ => elements) in
          ret (JSHandle elements)
        else
          throw (Error ("Unsupported selector type: " ++ kind_of d ++ "."))) in
     ret (or_null element))
    (fun error => handleError error None (Some (diagnostics d));; ret Undefined).

Definition getAttribute (d : descriptor) (attribute : string) : M value :=
  try_catch
    (let* element := getElement d None in
     if negb (truthy element) then
       throw (Error ("No element found with selector: " ++ selector d))
     else
       match element with
       | ElementHandle _ | JSHandle _ => ret tt
       | _ => throw (TypeError "element.evaluate is not a function")
       end;;
       (* every case of the switch reads a property of the node in the page
          and replaces a falsy one by null *)
       let* result := ask (evaluated E) in
       ret (if value_truthy result then result else VNull))
    (fun error =>
       handleError error None
         (Some (diagnostics d ++ [("attribute"%string, Some attribute)]));;
       ret VUndefined).

Definition checkElementByXpath (xpathExpression : string) : M value :=
  try_catch
    (checkElement (Descriptor xpathExpression (Some (types_xpath E))))
    (fun error =>
       handleError error None
         (Some [("xpathExpression"%string, Some xpathExpression);
                ("type"%string, Some (types_xpath E))]);;
       ret VUndefined).

Definition checkElementBySelector (selectorExpression : string) : M value :=
  try_catch
    (checkElement (Descriptor selectorExpression (Some (types_selector E))))
    (fun error =>
       handleError error None
         (Some [("selectorExpression"%string, Some selectorExpression);
                ("type"%string, Some (types_selector E))]);;
       ret VUndefined).

(** *** The action layer *)

Definition Qltb (x y : Q) : bool := negb (Qle_bool y x).

Definition to_string (v : value) : string :=
  match v with
  | VUndefined => "undefined"
  | VNull => "null"
  | VBool true => "true"
  | VBool false => "false"
  | VString s => s
  end.

(** [if (min > max) [min, max] = [max, min]] *)
Definition normalize (min max : Z) : Z * Z :=
  if min >? max then (max, min) else (min, max).

Definition ensureFocus (element : handle) : M unit :=
  let* isFocused := ask (focused E) in
  if negb isFocused then act (Focus element) else ret tt.

(** [for (let char of line)] *)
Fixpoint type_line (element : handle) (line : string) : M unit :=
  match line with
  | EmptyString => ret tt
  | String char rest =>
      ensureFocus element;;
      let* delay := randomNumber 1 2 in
      act (TypeChar element char delay);;
      type_line element rest
  end.

(** [for (let line of lines)], with [final] for [lines[lines.length - 1]] *)
Fixpoint type_lines (element : handle) (final : string) (lines : list string) : M unit :=
  match lines with
  | [] => ret tt
  | line :: more =>
      type_line element line;;
      (if negb (String.eqb line final) then act (Press element "Enter") else ret tt);;
      type_lines element final more
  end.

(** The parameter [text] is reassigned inside the [try]; the [catch] block
    reports the value it holds when the error is thrown.  The body is
    therefore cut at the assignment, with the same handler on each part. *)
Definition typeText (d : descriptor) (text : option string) (frame : option page_ref) : M unit :=
  let d := defaulting "selector" d in
  let context (t : option string) := Some (diagnostics d ++ [("text"%string, t)]) in
  let* focused_element :=
    try_catch
      (let page := default getPage frame in
       let* element := getElement d (Some page) in
       if negb (truthy element) then throw (not_found (kind_of d) (selector d))
       else
         let* h := method element "focus" in
         act (Focus h);;
         ret (Some h))
      (fun error => handleError error None (context text);; ret None) in
  match focused_element with
  | None => ret tt
  | Some element =>
      let text := default ""%string text in
      try_catch
        (let lines := split newline text in
         type_lines element (default ""%string (last lines)) lines)
        (fun error => handleError error None (context (Some text)))
  end.

Definition typeTextByXpath (xpathExpression : string) (text : option string) : M unit :=
  try_catch
    (typeText (Descriptor xpathExpression (Some (types_xpath E))) text None)
    (fun error =>
       handleError error None
         (Some [("xpathExpression"%string, Some xpathExpression);
                ("type"%string, Some (types_xpath E)); ("text"%string, text)])).

Definition typeTextBySelector (selectorExpression : string) (text : option string) : M unit :=
  try_catch
    (typeText (Descriptor selectorExpression (Some (types_selector E))) text None)
    (fun error =>
       handleError error None
         (Some [("selectorExpression"%string, Some selectorExpression);
                ("type"%string, Some (types_selector E)); ("text"%string, text)])).

Definition keyPress (d : descriptor) (keyButton : string) : M unit :=
  let d := defaulting "selector" d in
  try_catch
    (let* element := getElement d None in
     if negb (truthy element) then throw (not_found (kind_of d) (selector d))
     else
       let* h := method element "focus" in
       act (Focus h);;
       act (KeyboardPress keyButton))
    (fun error => handleError error (Some "keyPress"%string) None).

Definition clearInput (d : descriptor) (frame : option page_ref) : M unit :=
  let d := defaulting (types_selector E) d in
  try_catch
    (let* element := getElement d frame in
     if negb (truthy element) then throw (not_found (kind_of d) (selector d))
     else
       let* random := randomNumber 3 6 in
       let* h := method element "click" in
       act (Click h (Some random));;
       randomWait;;
       act (Press h "Backspace"))
    (fun error => handleError error None (Some (diagnostics d))).

Definition clearInputBySelector (selectorExpression : string) : M unit :=
  try_catch
    (clearInput (Descriptor selectorExpression (Some (types_selector E))) None)
    (fun error =>
       handleError error None
         (Some [("selectorExpression"%string, Some selectorExpression);
                ("type"%string, Some (types_selector E))])).

(** The [catch] block names [selectorExpression], which is not bound in this
    function: building the context object throws before [handleError] is
    called. *)
Definition clearInputByXpath (xpathExpression : string) : M unit :=
  try_catch
    (clearInput (Descriptor xpathExpression (Some (types_xpath E))) None)
    (fun error => throw (ReferenceError "selectorExpression is not defined")).

Definition selectOption (d : descriptor) (optionValue : string) : M unit :=
  let d := defaulting "selector" d in
  try_catch
    (let page := getPage in
     (if String.eqb (kind_of d) "selector" then
        act (Select (selector d) optionValue)
      else if String.eqb (kind_of d) "xpath" then
        let* elementHandle := ask (fun _ => xpath_first E page (selector d)) in
        match elementHandle with
        | None => throw (Error ("Dropdown with XPath '" ++ selector d ++ "' not found."))
        | Some _ =>
            let* dropdownSelector := ask (evaluated E) in
            act (Select ("[name=" ++ dquote ++ to_string dropdownSelector ++ dquote ++ "]")
                        optionValue)
        end
      else
        throw (Error ("Unsupported selector type: " ++ kind_of d
                      ++ ". Expected 'selector' or 'xpath'.")));;
     logMessage ("Successfully selected option with value '" ++ optionValue
                 ++ "' from dropdown."))
    (fun error =>
       handleError error None
         (Some (diagnostics d ++ [("optionValue"%string, Some optionValue)]))).

(** *** Scrolling

    The callback of [page.evaluate] runs in the page.  The call is awaited
    as a whole and rejects when the page fails at any point of the callback;
    its [while] loops are observed for [fuel E] iterations. *)

Definition page_evaluate {A} (callback : M A) : M A := ask (fun _ => tt);; callback.

Definition get_scrollY : M Q := fun w => (Ret (scrollY w), w).

(** [window.scrollTo(x, y)]; the browser keeps the position non-negative
    (the clamp at the end of the document is not modelled). *)
Definition scrollTo (x y : Q) : M unit :=
  act (ScrollTo x y);; (fun w => (Ret tt, set_scrollY (Qmax 0 y) w)).

Definition scrollBy (dy : Z) : M unit :=
  act (ScrollBy dy);; (fun w => (Ret tt, set_scrollY (Qmax 0 (scrollY w + inject_Z dy)) w)).

Fixpoint scrollToBottomPage_loop (n : nat) : M unit :=
  match n with
  | O => pending
  | S n' =>
      let distance := 100 in
      let delay := 100 in
      let* scrollTop := get_scrollY in
      if Qltb (scrollTop + inject_Z (innerHeight E)) (inject_Z (scrollHeight E)) then
        scrollBy distance;;
        act (Delay (inject_Z delay));;
        scrollToBottomPage_loop n'
      else ret tt
  end.

Definition scrollToBottomPage : M unit :=
  try_catch
    (page_evaluate (scrollToBottomPage_loop (fuel E)))
    (fun error => handleError error None None).

Fixpoint randomScroll_loop (n : nat) (maxScrollingSpeed minScrollingSpeed : Z) (endTime : Q)
    : M unit :=
  match n with
  | O => pending
  | S n' =>
      let* t := Date_now in
      if Qltb (inject_Z t) endTime then
        let scrollDownProbability := 75 # 100 in
        let* r := Math_random in
        let isScrollDown := Qltb r scrollDownProbability in
        let* r := Math_random in
        let randomScrollAmount := Qfloor (r * inject_Z (550 - 300 + 1)) + 300 in
        let scrollAmount := if isScrollDown then randomScrollAmount else - randomScrollAmount in
        let* y := get_scrollY in
        let newScrollPosition := (y + inject_Z scrollAmount)%Q in
        scrollTo 0 (Qmax 0 newScrollPosition);;
        let* r := Math_random in
        let randomDelay :=
          (r * inject_Z (maxScrollingSpeed - minScrollingSpeed) + inject_Z minScrollingSpeed)%Q in
        act (Delay randomDelay);;
        randomScroll_loop n' maxScrollingSpeed minScrollingSpeed endTime
      else ret tt
  end.

(** [Date.now() + Math.random() * (max - min) + min] *)
Definition end_time (t : Z) (r : Q) (minScrollingTime maxScrollingTime : Z) : Q :=
  (inject_Z t + r * inject_Z (maxScrollingTime - minScrollingTime)
   + inject_Z minScrollingTime)%Q.

Definition randomScroll
    (maxScrollingTime minScrollingTime maxScrollingSpeed minScrollingSpeed : option Z)
    : M unit :=
  let maxScrollingTime := default 60000 maxScrollingTime in
  let minScrollingTime := default 30000 minScrollingTime in
  let maxScrollingSpeed := default 3000 maxScrollingSpeed in
  let minScrollingSpeed := default 500 minScrollingSpeed in
  try_catch
    (let '(minScrollingTime, maxScrollingTime) := normalize minScrollingTime maxScrollingTime in
     let '(minScrollingSpeed, maxScrollingSpeed) := normalize minScrollingSpeed maxScrollingSpeed in
     let* t := Date_now in
     let* r := Math_random in
     let endTime := end_time t r minScrollingTime maxScrollingTime in
     page_evaluate (randomScroll_loop (fuel E) maxScrollingSpeed minScrollingSpeed endTime);;
     randomWait)
    (fun error => handleError error None None).

(** The [while] loop of the callback of [scrollToElement]. *)
Fixpoint dwell (n : nat) (initialScrollOffset : Q) (maxScrollingSpeed minScrollingSpeed : Z)
    (endTime : Q) : M unit :=
  match n with
  | O => pending
  | S n' =>
      let* t := Date_now in
      if Qltb (inject_Z t) endTime then
        let* r := Math_random in
        let randomScrollAmount := Qfloor (r * inject_Z (550 - 400 + 1)) + 400 in
        let newScrollPosition := (initialScrollOffset + inject_Z randomScrollAmount)%Q in
        scrollTo 0 newScrollPosition;;
        let* r := Math_random in
        let randomDelay :=
          (r * inject_Z (maxScrollingSpeed - minScrollingSpeed) + inject_Z minScrollingSpeed)%Q in
        act (Delay randomDelay);;
        dwell n' initialScrollOffset maxScrollingSpeed minScrollingSpeed endTime
      else ret tt
  end.

(** The callback that [scrollToElement] evaluates in the page, with its
    parameters in the order of its own parameter list:
    [(selector, type, maxScrollingSpeed, minScrollingSpeed, offset, endTime)]. *)
Definition scrollToElement_callback (selector : string) (type : option string)
    (maxScrollingSpeed minScrollingSpeed offset : Z) (endTime : Q) : M unit :=
  let* el :=
    ask (fun _ =>
           if bool_decide (type = Some "xpath"%string)
           then xpath_first E getPage selector
           else css_first E getPage selector) in
  match el with
  | Some el =>
      let targetPosition := rect_top E el in
      let initialScrollOffset := (targetPosition - inject_Z offset)%Q in
      scrollTo 0 initialScrollOffset;;
      act (Delay 1500);;
      dwell (fuel E) initialScrollOffset maxScrollingSpeed minScrollingSpeed endTime;;
      act (ScrollIntoView el)
  | None => ret tt
  end.

(** The arguments of [page.evaluate] are passed by position, in the order of
    the call: [(element.selector, element.type, offset, maxScrollingSpeed,
    minScrollingSpeed, endTime)].  In the fallback call of [randomScroll] the
    last argument is [null], which is not replaced by the default and counts
    as 0 in the comparison and in the arithmetic. *)
Definition scrollToElement (element : descriptor)
    (maxScrollingTime minScrollingTime maxScrollingSpeed minScrollingSpeed offset : option Z)
    : M unit :=
  let maxScrollingTime := default 5000 maxScrollingTime in
  let minScrollingTime := default 3000 minScrollingTime in
  let maxScrollingSpeed := default 900 maxScrollingSpeed in
  let minScrollingSpeed := default 500 minScrollingSpeed in
  let offset := default 500 offset in
  try_catch
    (let '(minScrollingTime, maxScrollingTime) := normalize minScrollingTime maxScrollingTime in
     let '(minScrollingSpeed, maxScrollingSpeed) := normalize minScrollingSpeed maxScrollingSpeed in
     let* t := Date_now in
     let* r := Math_random in
     let endTime := end_time t r minScrollingTime maxScrollingTime in
     let* targetElement := checkElement element in
     if value_truthy targetElement then
       page_evaluate
         (scrollToElement_callback (selector element) (type element)
            offset maxScrollingSpeed minScrollingSpeed endTime)
     else
       logMessage "Failed to locate element";;
       randomScroll (Some 10000) (Some 6000) (Some 2000) (Some 0))
    (fun error => handleError error None None).

(** *** Click and navigation settlement *)

(** A navigation handler as a call: the session runs on the callbacks the
    environment schedules; the call returns when the session has completed,
    rejects when its main flow has, and is pending otherwise.  A rejection
    of a [navigationHandler] invocation is awaited by no one and stays in
    the session. *)
Definition session_call (s : Nav.session) : M unit := fun w =>
  let s := Nav.exec s (navigation E) in
  let w := emits (Nav.api s) w in
  match Nav.pc s with
  | Nav.Completed => (Ret tt, w)
  | Nav.Rejected e => (Throw e, note_raised e w)
  | _ => (Pending, w)
  end.

Definition handleHotmailNavigation (page : page_ref) (element : element)
    (SETTLE_TIMEOUT : option Z) : M unit :=
  let SETTLE_TIMEOUT := default 10000 SETTLE_TIMEOUT in
  let* lastNavigationTime := Date_now in
  session_call (Nav.start Nav.Hotmail SETTLE_TIMEOUT lastNavigationTime element).

Definition handleGmailNavigation (page : page_ref) (element : element) : M unit :=
  fun w => session_call (Nav.start Nav.Gmail 0 (now E (reads w)) element) w.

Definition clickElement (d : descriptor) (frame : option page_ref) (SETTLE_TIMEOUT : option Z)
    : M unit :=
  let d := defaulting "selector" d in
  let SETTLE_TIMEOUT := default 10000 SETTLE_TIMEOUT in
  try_catch
    (let page := default getPage frame in
     let* element := getElement d (Some page) in
     if negb (truthy element) then throw (not_found (kind_of d) (selector d))
     else if String.eqb (isp E) "hotmail" then
       handleHotmailNavigation page element (Some SETTLE_TIMEOUT)
     else if String.eqb (isp E) "gmail" then
       handleGmailNavigation page element
     else ret tt)
    (fun error => handleError error None (Some (diagnostics d))).

Definition clickElementByXpath (xpathExpression : string) : M unit :=
  try_catch
    (clickElement (Descriptor xpathExpression (Some (types_xpath E))) None None)
    (fun error =>
       handleError error None
         (Some [("xpathExpression"%string, Some xpathExpression);
                ("type"%string, Some (types_xpath E))])).

Definition clickElementBySelector (selectorExpression : string) : M unit :=
  try_catch
    (clickElement (Descriptor selectorExpression (Some (types_selector E))) None None)
    (fun error =>
       handleError error None
         (Some [("selectorExpression"%string, Some selectorExpression);
                ("type"%string, Some (types_selector E))])).

(** *** The public surface *)

(** A parameter written [{ selector, type = ... }] is destructured when the
    function is called, before its [try] is entered.  [null] and
    [undefined] ([None]) have no properties: destructuring them throws a
    [TypeError] (whose text is the engine's), which rejects the call. *)
Definition destructuring_error : error :=
  TypeError "Cannot destructure property 'selector' of null or undefined".

Definition destructured {A} (d : option descriptor) (body : descriptor -> M A) : M A :=
  match d with
  | Some d => body d
  | None => throw destructuring_error
  end.

(** [scrollToElement] takes its [element] as it is ([Object|null]) and
    passes it to [checkElement] inside its [try], after the end time has
    been computed; for [null] that call rejects while destructuring, and
    the [catch] block of [scrollToElement] receives the error. *)
Definition scrollToElement_of (element : option descriptor)
    (maxScrollingTime minScrollingTime maxScrollingSpeed minScrollingSpeed offset : option Z)
    : M unit :=
  match element with
  | Some element =>
      scrollToElement element maxScrollingTime minScrollingTime maxScrollingSpeed
        minScrollingSpeed offset
  | None =>
      try_catch
        (let* t := Date_now in
         let* r := Math_random in
         let* targetElement := destructured None checkElement in
         ret tt)
        (fun error => handleError error None None)
  end.

Inductive operation :=
| TypeTextByXpath (xpathExpression : string) (text : option string)
| KeyPress (d : option descriptor) (keyButton : string)
| TypeTextBySelector (selectorExpression : string) (text : option string)
| TypeText (d : option descriptor) (text : option string) (frame : option page_ref)
| ClickElementByXpath (xpathExpression : string)
| ClickElementBySelector (selectorExpression : string)
| HandleHotmailNavigation (page : page_ref) (element : element) (SETTLE_TIMEOUT : option Z)
| HandleGmailNavigation (page : page_ref) (element : element)
| ClickElement (d : option descriptor) (frame : option page_ref) (SETTLE_TIMEOUT : option Z)
| ClearInputBySelector (selectorExpression : string)
| ClearInputByXpath (xpathExpression : string)
| ClearInput (d : option descriptor) (frame : option page_ref)
| SelectOption (d : option descriptor) (optionValue : string)
| ScrollToBottomPage
| RandomScroll (maxScrollingTime minScrollingTime maxScrollingSpeed minScrollingSpeed : option Z)
| ScrollToElement (element : option descriptor)
    (maxScrollingTime minScrollingTime maxScrollingSpeed minScrollingSpeed offset : option Z)
| FetchDOM
| CheckElementByXpath (xpathExpression : string)
| CheckElementBySelector (selectorExpression : string)
| CheckElement (d : option descriptor)
| GetElement (d : option descriptor) (frame : option page_ref)
| GetAttribute (d : option descriptor) (attribute : string).

(** What the caller of an operation observes: whether the promise is
    fulfilled, rejected or pending, and whether it is fulfilled with
    [undefined] or [null]. *)
Definition settle {A} (empty : A -> bool) (m : M A) : M bool :=
  let* a := m in ret (empty a).

Definition empty_value (v : value) : bool :=
  match v with VUndefined | VNull => true | _ => false end.

Definition invoke (op : operation) : M bool :=
  match op with
  | TypeTextByXpath x t => settle (fun _ => true) (typeTextByXpath x t)
  | KeyPress d k => settle (fun _ => true) (destructured d (fun d => keyPress d k))
  | TypeTextBySelector x t => settle (fun _ => true) (typeTextBySelector x t)
  | TypeText d t f => settle (fun _ => true) (destructured d (fun d => typeText d t f))
  | ClickElementByXpath x => settle (fun _ => true) (clickElementByXpath x)
  | ClickElementBySelector x => settle (fun _ => true) (clickElementBySelector x)
  | HandleHotmailNavigation p el t => settle (fun _ => true) (handleHotmailNavigation p el t)
  | HandleGmailNavigation p el => settle (fun _ => true) (handleGmailNavigation p el)
  | ClickElement d f t => settle (fun _ => true) (destructured d (fun d => clickElement d f t))
  | ClearInputBySelector x => settle (fun _ => true) (clearInputBySelector x)
  | ClearInputByXpath x => settle (fun _ => true) (clearInputByXpath x)
  | ClearInput d f => settle (fun _ => true) (destructured d (fun d => clearInput d f))
  | SelectOption d v => settle (fun _ => true) (destructured d (fun d => selectOption d v))
  | ScrollToBottomPage => settle (fun _ => true) scrollToBottomPage
  | RandomScroll a b c d => settle (fun _ => true) (randomScroll a b c d)
  | ScrollToElement el a b c d o => settle (fun _ => true) (scrollToElement_of el a b c d o)
  | FetchDOM => settle empty_value fetchDOM
  | CheckElementByXpath x => settle empty_value (checkElementByXpath x)
  | CheckElementBySelector x => settle empty_value (checkElementBySelector x)
  | CheckElement d => settle empty_value (destructured d checkElement)
  | GetElement d f => settle (fun v => negb (truthy v)) (destructured d (fun d => getElement d f))
  | GetAttribute d a => settle empty_value (destructured d (fun d => getAttribute d a))
  end.

Definition is_navigation_handler (op : operation) : bool :=
  match op with
  | HandleHotmailNavigation _ _ _ | HandleGmailNavigation _ _ => true
  | _ => false
  end.

(** The operation destructures its first parameter and is called with
    [null] or [undefined] for it. *)
Definition lacks_descriptor (op : operation) : bool :=
  match op with
  | KeyPress None _ | TypeText None _ _ | ClickElement None _ _ | ClearInput None _
  | SelectOption None _ | CheckElement None | GetElement None _ | GetAttribute None _ => true
  | _ => false
  end.

End Operations.

(** ** Vocabulary of the statements *)

Import Nav.

(** The guard flag is up exactly when one wait is in flight, and no more
    than one ever is. *)
Definition guarded (s : session) : Prop :=
  (holders (invocations s) <= 1)%nat
  /\ (navigationResolving s = true <-> holders (invocations s) = 1%nat).

(** The calls that arm a session: attaching the listener and clicking. *)
Definition arming (a : action) : bool :=
  match a with
  | PageOn | Click _ _ => true
  | _ => false
  end.

(** The listener was attached first, the click came second, neither is
    repeated, and the listener stays until the session completes. *)
Definition armed (h : handle) (s : session) : Prop :=
  (exists rest, api s = PageOn :: Click h None :: rest
                /\ forallb (fun a => negb (arming a)) rest = true)
  /\ (listening s = true <-> pc s <> Completed).

(** A session that has completed undisturbed. *)
Definition rested (m : mode) (settle last : Z) (s : session) : Prop :=
  pc s = Completed /\ listening s = false /\ invocations s = []
  /\ navigationResolving s = false /\ lastNavigationTime s = last
  /\ (m = Hotmail -> clock s - last > settle).

(** Every error thrown so far has been passed to [handleError], in order. *)
Definition balanced (w : world) : Prop := map rep_error (handled w) = raised w.

(** A computation is tidy when the only error it leaves unreported is the
    one it throws, and total when it throws none. *)
Definition tidy {A} (m : M A) : Prop :=
  forall w, balanced w ->
    match m w with
    | (Throw e, w') => raised w' = map rep_error (handled w') ++ [e]
    | (_, w') => balanced w'
    end.

Definition total {A} (m : M A) : Prop :=
  forall w, balanced w ->
    match m w with
    | (Throw _, _) => False
    | (_, w') => balanced w'
    end.

(** The tag and the context object of one [handleError] call. *)
Definition diagnostic := (option string * option (list (string * option string)))%type.

Definition context_of (rep : report) : diagnostic := (rep_tag rep, rep_context rep).

(** A computation passes to [handleError] only tags and contexts of [C]. *)
Definition forwards (C : list diagnostic) {A} (m : M A) : Prop :=
  forall w, exists l,
    handled (m w).2 = handled w ++ l /\ Forall (fun rep => In (context_of rep) C) l.

(** What the [catch] blocks that can receive an error of an operation pass
    to [handleError] beside the error: the tag and context of its own
    [catch] block and those of the operations of this layer it calls. *)
Definition getElement_context (d : descriptor) : list diagnostic :=
  [(None, Some (diagnostics d))].

Definition checkElement_context (d : descriptor) : list diagnostic :=
  [(None, Some (diagnostics d))].

Definition typeText_context (d : descriptor) (text : option string) : list diagnostic :=
  let d := defaulting "selector" d in
  [(None, Some (diagnostics d ++ [("text"%string, text)]));
   (None, Some (diagnostics d ++ [("text"%string, Some (default ""%string text))]))]
  ++ getElement_context d.

Definition clickElement_context (d : descriptor) : list diagnostic :=
  let d := defaulting "selector" d in
  (None, Some (diagnostics d)) :: getElement_context d.

Definition clearInput_context (E : env) (d : descriptor) : list diagnostic :=
  let d := defaulting (types_selector E) d in
  (None, Some (diagnostics d)) :: getElement_context d.

Definition catch_contexts (E : env) (op : operation) : list diagnostic :=
  match op with
  | TypeTextByXpath x t =>
      (None, Some [("xpathExpression"%string, Some x);
                   ("type"%string, Some (types_xpath E)); ("text"%string, t)])
      :: typeText_context (Descriptor x (Some (types_xpath E))) t
  | TypeTextBySelector x t =>
      (None, Some [("selectorExpression"%string, Some x);
                   ("type"%string, Some (types_selector E)); ("text"%string, t)])
      :: typeText_context (Descriptor x (Some (types_selector E))) t
  | TypeText (Some d) t _ => typeText_context d t
  | KeyPress (Some d) _ =>
      (Some "keyPress"%string, None) :: getElement_context (defaulting "selector" d)
  | ClickElementByXpath x =>
      (None, Some [("xpathExpression"%string, Some x); ("type"%string, Some (types_xpath E))])
      :: clickElement_context (Descriptor x (Some (types_xpath E)))
  | ClickElementBySelector x =>
      (None, Some [("selectorExpression"%string, Some x);
                   ("type"%string, Some (types_selector E))])
      :: clickElement_context (Descriptor x (Some (types_selector E)))
  | ClickElement (Some d) _ _ => clickElement_context d
  | ClearInputBySelector x =>
      (None, Some [("selectorExpression"%string, Some x);
                   ("type"%string, Some (types_selector E))])
      :: clearInput_context E (Descriptor x (Some (types_selector E)))
  | ClearInputByXpath x => clearInput_context E (Descriptor x (Some (types_xpath E)))
  | ClearInput (Some d) _ => clearInput_context E d
  | SelectOption (Some d) v =>
      [(None, Some (diagnostics (defaulting "selector" d)
                    ++ [("optionValue"%string, Some v)]))]
  | ScrollToBottomPage | RandomScroll _ _ _ _ | FetchDOM | ScrollToElement None _ _ _ _ _ =>
      [(None, None)]
  | ScrollToElement (Some el) _ _ _ _ _ => (None, None) :: checkElement_context el
  | CheckElementByXpath x =>
      (None, Some [("xpathExpression"%string, Some x); ("type"%string, Some (types_xpath E))])
      :: checkElement_context (Descriptor x (Some (types_xpath E)))
  | CheckElementBySelector x =>
      (None, Some [("selectorExpression"%string, Some x);
                   ("type"%string, Some (types_selector E))])
      :: checkElement_context (Descriptor x (Some (types_selector E)))
  | CheckElement (Some d) => checkElement_context d
  | GetElement (Some d) _ => getElement_context d
  | GetAttribute (Some d) a =>
      (None, Some (diagnostics d ++ [("attribute"%string, Some a)])) :: getElement_context d
  | _ => []
  end.

Definition supported : list string :=
  ["id"; "selector"; "xpath"; "class"; "allSelector"; "allXpath"]%string.

(** What [getElement] returns for a selector without a match. *)
Definition no_match_result (kind : string) : element :=
  if String.eqb kind "allSelector" then HandleArray []
  else if String.eqb kind "allXpath" then JSHandle []
  else Null.

(** The selector matches no node of the page [pg] under the reading of
    its kind: the query [getElement] makes for this kind finds nothing. *)
Definition matches_nothing (E : env) (pg : page_ref) (kind sel : string) : Prop :=
  if String.eqb kind "id" then css_first E pg ("[id=" ++ dquote ++ sel ++ dquote ++ "]") = None
  else if String.eqb kind "selector" then css_first E pg sel = None
  else if String.eqb kind "xpath" then xpath_first E pg sel = None
  else if String.eqb kind "class" then css_first E pg ("." ++ sel) = None
  else if String.eqb kind "allSelector" then css_all E pg sel = []
  else if String.eqb kind "allXpath" then xpath_all E pg sel = []
  else False.

(** The primitives of the page [getElement] awaits for a kind: the query
    and, for [allXpath], the [evaluateHandle] call that wraps its result. *)
Definition awaited (kind : string) : nat := if String.eqb kind "allXpath" then 2 else 1.

(** The commit-line key action of [typeText]. *)
Definition is_commit (a : action) : bool :=
  match a with
  | Press _ key => String.eqb key "Enter"
  | _ => false
  end.

Definition commits (t : list action) : nat :=
  length (filter (fun a => is_commit a = true) t).

(** The end time both scroll functions compute from their time bounds. *)
Definition endTime_of (E : env) (w : world) (maxScrollingTime minScrollingTime : Z) : Q :=
  let '(lo, hi) := normalize minScrollingTime maxScrollingTime in
  end_time (now E (reads w)) (random E (draws w)) lo hi.

(** ** Sample environments

    A page with one input, matched by the CSS selector [#box] and by the
    XPath [//input]; nothing throws, every draw of [Math.random()] is 1/2,
    and one second passes between two readings of the clock. *)

Definition demo_with (schedule : list (Z * event)) : env :=
  Env 0%nat "hotmail" "selector" "xpath"
    (fun _ s => if String.eqb s "#box" then Some 7%nat else None)
    (fun _ _ => [])
    (fun _ s => if String.eqb s "//input" then Some 7%nat else None)
    (fun _ _ => [])
    (fun _ => 1000%Q) 800 2000
    (fun _ => None) (fun _ => (1 # 2)%Q) (fun k => 1000 * Z.of_nat k)
    (fun _ => true) (fun _ => VUndefined) 20%nat schedule.

Definition demo : env := demo_with [].

(** The same page when the click fails five milliseconds into the session. *)
Definition demo_click_fails : env := demo_with [(5, ClickRejected (PageError 1))].

(** A Hotmail session in which frame A navigates, its handler logs and
    starts to wait. *)
Definition waiting_session : session :=
  exec (start Hotmail 10000 0 (ElementHandle 7%nat))
    [(5, ClickResolved); (10, FrameNavigated "A"); (20, HandlerLogResolved 0)].

(** A Hotmail session whose direct wait has timed out at 10000 ms. *)
Definition polling_session : session :=
  exec (start Hotmail 10000 0 (ElementHandle 7%nat))
    [(0, ClickResolved); (10000, DirectWaitSettled true)].

(** ** globalHelpers: the other helpers of the file of [randomNumber] *)

Definition alphanumeric : string := "abcdefghijklmnopqrstuvwxyz0123456789".

Definition password_chars : string :=
  "abcdefghijklmnopqrstuvwxyzABCDEFGHIJKLMNOPQRSTUVWXYZ0123456789!@#$%^&*()".

(** [s.charAt(i)]: the empty string when [i] is out of range. *)
Definition charAt (s : string) (i : Z) : string :=
  if i <? 0 then EmptyString
  else
    match String.get (Z.to_nat i) s with
    | Some c => String c EmptyString
    | None => EmptyString
    end.

(** [Math.floor(r * n)] *)
Definition scaled (r : Q) (n : Z) : Z := Qfloor (r * inject_Z n).

(** [array[j]] on a JavaScript array whose slots may hold [undefined]
    ([None]); out of range and for a negative [j] the read is [undefined]. *)
Definition js_get {A} (array : list (option A)) (j : Z) : option A :=
  if j <? 0 then None else mjoin (array !! Z.to_nat j).

(** [array[j] = v]: beyond the end the array grows and the slots in between
    read as [undefined]; a negative [j] names a property, not a slot. *)
Definition js_set {A} (array : list (option A)) (j : Z) (v : option A) : list (option A) :=
  if j <? 0 then array
  else if (Z.to_nat j <? length array)%nat then <[Z.to_nat j := v]> array
  else array ++ replicate (Z.to_nat j - length array) None ++ [v].

(** [[array[i], array[j]] = [array[j], array[i]]] *)
Definition js_swap {A} (array : list (option A)) (i j : Z) : list (option A) :=
  let x := js_get array j in
  let y := js_get array i in
  js_set (js_set array i x) j y.

(** [s.padStart(targetLength, pad)] *)
Fixpoint filler (pad : string) (n : nat) (rest : string) : string :=
  match n with
  | O => EmptyString
  | S n' =>
      match rest with
      | String c rest' => String c (filler pad n' rest')
      | EmptyString =>
          match pad with
          | String c rest' => String c (filler pad n' rest')
          | EmptyString => EmptyString
          end
      end
  end.

Definition padStart (targetLength : nat) (pad : string) (s : string) : string :=
  (filler pad (targetLength - String.length s) pad ++ s)%string.

(** [formatBirthday({ day, month, year })] *)
Definition formatBirthday (day month year : string) : string :=
  (padStart 2 "0" day ++ "-" ++ padStart 2 "0" month ++ "-" ++ year)%string.

(** The characters of [s] from position [n] on. *)
Fixpoint string_drop (n : nat) (s : string) : string :=
  match n, s with
  | S n', String _ rest => string_drop n' rest
  | _, _ => s
  end.

(** The replacement text of one match: in a replacement string [$$] stands
    for a dollar, [$&] for the match, [$`] for what precedes it in the whole
    string and [$'] for what follows it; a pattern that is a string has no
    groups, so any other dollar is literal. *)
Fixpoint expand (value matched before after : string) : string :=
  match value with
  | EmptyString => EmptyString
  | String c tail =>
      if Ascii.eqb c "$" then
        match tail with
        | EmptyString => String c EmptyString
        | String d rest =>
            if Ascii.eqb d "$" then String "$" (expand rest matched before after)
            else if Ascii.eqb d "&" then (matched ++ expand rest matched before after)%string
            else if Ascii.eqb d "`" then (before ++ expand rest matched before after)%string
            else if Ascii.eqb d "'" then (after ++ expand rest matched before after)%string
            else String c (expand tail matched before after)
        end
      else String c (expand tail matched before after)
  end.

(** [s.replaceAll(key, value)] for a non-empty [key]: the occurrences are
    found from left to right and do not overlap.  [skip] counts the
    characters of a match that are still to be passed over, [before] is
    the part of the string already passed. *)
Fixpoint replaceAll_from (key value : string) (skip : nat) (before s : string) : string :=
  match s with
  | EmptyString => EmptyString
  | String c rest =>
      let passed := (before ++ String c EmptyString)%string in
      match skip with
      | S k => replaceAll_from key value k passed rest
      | O =>
          if String.prefix key s
          then (expand value key before (string_drop (String.length key) s)
                ++ replaceAll_from key value (String.length key - 1) passed rest)%string
          else String c (replaceAll_from key value O passed rest)
      end
  end.

Definition replaceAll (key value : string) (s : string) : string :=
  replaceAll_from key value O EmptyString s.

(** Does [key] occur in [s]? *)
Fixpoint occursb (key s : string) : bool :=
  match s with
  | EmptyString => String.prefix key s
  | String _ rest => String.prefix key s || occursb key rest
  end.

Record message_data := MessageData {
  firstName : option string;
  lastName : option string;
  recipientName : option string
}.

(** [x || ''] and the truthiness of a string that may be absent. *)
Definition or_empty (x : option string) : string := default EmptyString x.

Definition present (x : option string) : bool :=
  match x with
  | Some s => negb (String.eqb s EmptyString)
  | None => false
  end.

(** The keys and values of [replacements], in the order of the literal. *)
Definition replacements (data : message_data) : list (string * string) :=
  [ (String "\" "n", String newline EmptyString);
    ("${Recipient_Name}", or_empty (recipientName data));
    ("[Include the exciting news here]", EmptyString);
    ("${Your_Name}",
     if present (firstName data) && present (lastName data)
     then (or_empty (firstName data) ++ " " ++ or_empty (lastName data))
     else EmptyString) ]%string.

(** [refactorTextAreaMessage(body, data)]; [None] is [null]. *)
Definition refactorTextAreaMessage (body : option string) (data : message_data)
    : option string :=
  if negb (present body) then None
  else
    Some (fold_left (fun acc kv => replaceAll kv.1 kv.2 acc) (replacements data)
            (or_empty body)).

(** What the methods of a [Date] return: the UTC fields and the offset of
    the local time zone in minutes. *)
Record date := Date {
  getUTCFullYear : Z;
  getUTCMonth : Z;
  getUTCDate : Z;
  getUTCHours : Z;
  getUTCMinutes : Z;
  getUTCSeconds : Z;
  getUTCMilliseconds : Z;
  getTimezoneOffset : Z
}.

(** [String(n)] for an integer. *)
Definition String_of (n : Z) : string := pretty n.

Definition trackingRequestDate (d : date) : string :=
  let year := String_of (getUTCFullYear d) in
  let month := padStart 2 "0" (String_of (getUTCMonth d + 1)) in
  let day := padStart 2 "0" (String_of (getUTCDate d)) in
  let hours := padStart 2 "0" (String_of (getUTCHours d)) in
  let minutes := padStart 2 "0" (String_of (getUTCMinutes d)) in
  let seconds := padStart 2 "0" (String_of (getUTCSeconds d)) in
  let milliseconds := padStart 3 "0" (String_of (getUTCMilliseconds d)) in
  let millisecondsWithPrecision := (milliseconds ++ "3851")%string in
  let offset := getTimezoneOffset d in
  let sign := if offset <? 0 then "+"%string else "-"%string in
  let absOffset := Z.abs offset in
  let offsetHours := padStart 2 "0" (String_of (absOffset / 60)) in
  let offsetMinutes := padStart 2 "0" (String_of (absOffset mod 60)) in
  (year ++ "-" ++ month ++ "-" ++ day ++ "T" ++ hours ++ ":" ++ minutes ++ ":" ++ seconds
   ++ "." ++ millisecondsWithPrecision ++ sign ++ offsetHours ++ ":" ++ offsetMinutes)%string.

Section Helpers.

Variable E : env.

(** The body of the loop [for (let i = 0; i < length; i++)], run for the
    iterations that remain. *)
Fixpoint randomString_loop (chars : string) (remaining : nat) (result : string) : M string :=
  match remaining with
  | O => ret result
  | S remaining' =>
      let* r := Math_random E in
      randomString_loop chars remaining'
        (result ++ charAt chars (scaled r (Z.of_nat (String.length chars))))%string
  end.

Definition randomString (length : Z) : M string :=
  randomString_loop alphanumeric (Z.to_nat length) EmptyString.

Definition generateStrongPassword (minLength maxLength : option Z) : M string :=
  let minLength := default 12 minLength in
  let maxLength := default 18 maxLength in
  let* length := randomNumber E minLength maxLength in
  randomString_loop password_chars (Z.to_nat length) EmptyString.

(** [getRandomFromArray(array)]; the result is [array[randomIndex]]. *)
Definition getRandomFromArray {A} (array : list A) : M (option A) :=
  if bool_decide (array = []) then throw (Error "Input must be a non-empty array")
  else
    let* r := Math_random E in
    let randomIndex := scaled r (Z.of_nat (length array)) in
    ret (js_get (Some <$> array) randomIndex).

(** The loop [for (let i = shuffled.length - 1; i > 0; i--)], entered with
    [i] when [i > 0]. *)
Fixpoint shuffle_loop {A} (i : nat) (shuffled : list (option A)) : M (list (option A)) :=
  match i with
  | O => ret shuffled
  | S i' =>
      let* r := Math_random E in
      let randomIndex := scaled r (Z.of_nat i + 1) in
      shuffle_loop i' (js_swap shuffled (Z.of_nat i) randomIndex)
  end.

Definition shuffleArrayHelper {A} (array : list A) : M (list (option A)) :=
  let shuffled := Some <$> array in
  shuffle_loop (length shuffled - 1) shuffled.

End Helpers.

(** ** Vocabulary of the further properties *)

(** Every draw of [Math.random()] lies in [0, 1). *)
Definition unit_draws (E : env) : Prop :=
  forall k, (0 <= random E k)%Q /\ (random E k < 1)%Q.

Definition chars_of (s : string) : list ascii := list_ascii_of_string s.

(** The ranges of the fields of a [Date]; the offset of a time zone lies
    between UTC+14 and UTC-12. *)
Definition calendar (d : date) : Prop :=
  0 <= getUTCMonth d <= 11 /\ 1 <= getUTCDate d <= 31 /\ 0 <= getUTCHours d <= 23
  /\ 0 <= getUTCMinutes d <= 59 /\ 0 <= getUTCSeconds d <= 59
  /\ 0 <= getUTCMilliseconds d <= 999 /\ -840 <= getTimezoneOffset d <= 720.

(** The characters typed into the page, in order. *)
Definition typed_char (a : action) : option ascii :=
  match a with
  | TypeChar _ c _ => Some c
  | _ => None
  end.

Definition typed (t : list action) : list ascii := omap typed_char t.

(** What [typeText] does to the page once it has focused its element: it
    focuses, types into and presses keys on the element [h] only, with a
    delay of 1 or 2 ms per character. *)
Definition typing_on (h : handle) (a : action) : Prop :=
  match a with
  | Focus h' | Press h' _ => h' = h
  | TypeChar h' _ delay => h' = h /\ 1 <= delay <= 2
  | _ => False
  end.

(** The error an operation raises when what [getElement] returned is not an
    element handle: the not-found error for a falsy result, and for a
    collection the type error of calling the method [name] on it. *)
Definition unusable (E : env) (d : descriptor) (name : string) (v : element) : error :=
  if truthy v then TypeError ("element." ++ name ++ " is not a function")
  else not_found E (kind_of d) (selector d).

Definition is_handle (v : element) : bool :=
  match v with
  | ElementHandle _ => true
  | _ => false
  end.

(** The page of [demo] for another provider. *)
Definition demo_for (provider : string) : env :=
  Env (page demo) provider (types_selector demo) (types_xpath demo) (css_first demo)
    (css_all demo) (xpath_first demo) (xpath_all demo) (rect_top demo) (innerHeight demo)
    (scrollHeight demo) (fails demo) (random demo) (now demo) (focused demo) (evaluated demo)
    (fuel demo) (navigation demo).

(** The same page when the primitive awaited as number [k] throws. *)
Definition demo_failing (k : nat) : env :=
  Env (page demo) (isp demo) (types_selector demo) (types_xpath demo) (css_first demo)
    (css_all demo) (xpath_first demo) (xpath_all demo) (rect_top demo) (innerHeight demo)
    (scrollHeight demo)
    (fun i => if Nat.eqb i k then Some (PageError 1) else None)
    (random demo) (now demo) (focused demo) (evaluated demo) (fuel demo) (navigation demo).

(** A computation appends to the trace only actions that satisfy [P],
    however it ends. *)
Definition appends (P : action -> Prop) {A} (m : M A) : Prop :=
  forall w, exists l, trace (m w).2 = trace w ++ l /\ Forall P l.

(** Every value a computation returns satisfies [Q]. *)
Definition yields {A} (Q : A -> Prop) (m : M A) : Prop :=
  forall w a w', m w = (Ret a, w') -> Q a.

(** One step of [randomScroll] for the speed bounds [lo <= hi]: a jump to
    a position that is not negative, or a pause within the bounds; the
    randomized wait ends the call. *)
Definition scroll_step (lo hi : Z) (a : action) : Prop :=
  match a with
  | ScrollTo x y => (x == 0)%Q /\ (0 <= y)%Q
  | Delay ms => (inject_Z lo <= ms)%Q /\ (ms <= inject_Z hi)%Q
  | RandomWait => True
  | _ => False
  end.

(** One step of the loop of [scrollToElement] around the position [base]:
    a jump to between 400 and 550 below it, or a pause between [lo] and
    [hi]. *)
Definition dwell_step (base : Q) (lo hi : Z) (a : action) : Prop :=
  match a with
  | ScrollTo x y => (x == 0)%Q /\ (base + 400 <= y)%Q /\ (y <= base + 550)%Q
  | Delay ms => (inject_Z lo <= ms)%Q /\ (ms <= inject_Z hi)%Q
  | _ => False
  end.

(** One step of [scrollToBottomPage]. *)
Definition bottom_step (a : action) : Prop := a = ScrollBy 100 \/ a = Delay 100.

(** Counting the calls of one kind in a call log. *)
Definition count (f : action -> bool) (t : list action) : nat :=
  length (filter (fun a => f a = true) t).

Definition detaches (a : action) : bool :=
  match a with
  | PageOff => true
  | _ => false
  end.

Definition sets_interval (a : action) : bool :=
  match a with
  | SetInterval _ => true
  | _ => false
  end.

Definition clears_interval (a : action) : bool :=
  match a with
  | ClearInterval => true
  | _ => false
  end.

(** While a session has not completed its listener is attached and
    [page.off] has not been called. *)
Definition attached (s : session) : Prop :=
  pc s <> Completed -> listening s = true /\ count detaches (api s) = 0%nat.

(** The intervals of a Gmail session: none before the settlement loop, one
    that is live while the loop waits, the same one cleared afterwards. *)
Definition interval_kept (s : session) : Prop :=
  mode_of s = Gmail
  /\ match pc s with
     | AwaitClick | AwaitDirectWait =>
         count sets_interval (api s) = 0%nat /\ count clears_interval (api s) = 0%nat
     | AwaitSettle =>
         count sets_interval (api s) = 1%nat /\ count clears_interval (api s) = 0%nat
     | AwaitLog | Completed =>
         count sets_interval (api s) = 1%nat /\ count clears_interval (api s) = 1%nat
     | Rejected _ =>
         count sets_interval (api s) = count clears_interval (api s)
         /\ (count sets_interval (api s) <= 1)%nat
     end.

(** The main flow waits in the settlement loop. *)
Definition in_settle_loop (s : session) : bool :=
  match pc s with
  | AwaitSettle => true
  | _ => false
  end.

(** What [scrollToElement] does when it cannot locate its element: it logs
    the failure and scrolls at random, with pauses of up to 2 s. *)
Definition fallback_step (a : action) : Prop :=
  a = LogMessage "Failed to locate element" \/ scroll_step 0 2000 a.

(** * Properties *)

(** ** Navigation settlement *)

Ltac unfold_session :=
  unfold navigationHandler, checkStability, intervalTick, acquire, resume, push, resolve, call,
    set_last, set_resolving, set_logged, set_listening,
    set_pc, set_invocations, set_due, set_clock in *; simpl in *.

Ltac split_step H :=
  repeat match type of H with
         | context [match ?x with _ => _ end] => destruct x eqn:?; simpl in H
         | (let '(_, _) := ?x in _) = _ => destruct x eqn:?; simpl in H
         end; try discriminate H.

Lemma holders_snoc l h :
  holders (l ++ [h]) = (holders l + (if holds h then 1 else 0))%nat.
Proof.
  unfold holders. rewrite filter_app, length_app. f_equal.
  destruct h; reflexivity.
Qed.

Lemma holders_insert l i h h' :
  l !! i = Some h ->
  (holders (<[i:=h']> l) + (if holds h then 1 else 0)
   = holders l + (if holds h' then 1 else 0))%nat.
Proof.
  revert i. induction l as [|x l IH]; intros [|i] Hi; try discriminate.
  - injection Hi as ->. unfold holders. simpl. rewrite !filter_cons.
    destruct (holds h), (holds h'); simpl; repeat case_decide; simpl; try congruence; lia.
  - simpl in Hi. specialize (IH _ Hi). unfold holders in *. simpl.
    rewrite !filter_cons. case_decide; simpl; lia.
Qed.

(** One callback keeps the guard discipline, and starts no wait when the
    flag is up. *)
Lemma step_guarded s now ev s' :
  step s now ev = Some s' -> guarded s ->
  guarded s'
  /\ (navigationResolving s = true ->
      (holders (invocations s') <= holders (invocations s))%nat).
Proof.
  unfold guarded. destruct s as [m st lst flag logged lis p inv d a c].
  intros Hs [Hle Hiff]. simpl in Hle, Hiff.
  destruct m, flag, ev; unfold step in Hs; unfold_session; split_step Hs;
    injection Hs as <-; simpl.
  all: try (split; [split; [assumption|assumption]|intros; lia]).
  all: rewrite ?holders_snoc; simpl.
  all: try match goal with
       | H : ?l !! ?i = Some ?h |- context [<[?i:=?h']> ?l] =>
           pose proof (holders_insert l i h h' H) as Hins; simpl in Hins
       end.
  all: try (split; [split; [lia|split; intros; (congruence || lia)]|intros; lia]).
Qed.

Lemma exec_snoc s evs te : exec s (evs ++ [te]) = exec1 (exec s evs) te.
Proof. unfold exec. apply fold_left_app. Qed.

Lemma start_guarded m settle t0 el : guarded (start m settle t0 el).
Proof.
  unfold guarded, start. destruct el; simpl; (split; [cbv; lia | split; intros; discriminate]).
Qed.

Lemma exec_guarded s evs : guarded s -> guarded (exec s evs).
Proof.
  induction evs as [|te evs IH] using rev_ind; intros G; [exact G|].
  rewrite exec_snoc. unfold exec1.
  destruct (step (exec s evs) te.1 te.2) eqn:Hs; simpl; [|auto].
  apply (step_guarded _ _ _ _ Hs (IH G)).
Qed.

Lemma forallb_snoc {A} (f : A -> bool) l x : forallb f (l ++ [x]) = forallb f l && f x.
Proof. rewrite forallb_app. simpl. rewrite andb_true_r. reflexivity. Qed.

Lemma step_armed h s now ev s' : step s now ev = Some s' -> armed h s -> armed h s'.
Proof.
  unfold armed. destruct s as [m st lst flag logged lis p inv d a c].
  intros Hs [(rest & Ha & Hr) Hl]. simpl in Ha, Hl. subst a.
  destruct m, flag, ev; unfold step in Hs; unfold_session; split_step Hs;
    injection Hs as <-; simpl.
  all: split;
    [| try tauto; split; intros X; try discriminate;
       try (apply Hl; discriminate); try (exfalso; apply X; reflexivity)].
  all: try (eexists; split; [reflexivity | rewrite ?forallb_snoc, ?Hr; reflexivity]).
  all: try (exists rest; split; [reflexivity | assumption]).
Qed.

Lemma start_armed m settle t0 h : armed h (start m settle t0 (ElementHandle h)).
Proof.
  split; simpl.
  - exists []. split; reflexivity.
  - split; [discriminate | reflexivity].
Qed.

Lemma exec_armed h s evs : armed h s -> armed h (exec s evs).
Proof.
  induction evs as [|te evs IH] using rev_ind; intros G; [exact G|].
  rewrite exec_snoc. unfold exec1.
  destruct (step (exec s evs) te.1 te.2) eqn:Hs; simpl; [|auto].
  eapply step_armed; eauto.
Qed.

(** C1. In a callback that starts outside the final log, the settlement
    promise resolves only in a poll (a firing of the recheck timer, or in
    Hotmail mode the first [checkStability()] call) that finds the flag
    down and, in Hotmail mode, more than [SETTLE_TIMEOUT] elapsed since
    [lastNavigationTime]; and a poll resolves exactly under that condition,
    which in Gmail mode is the flag alone: the first tick that finds it
    down resolves, whatever time has elapsed. *)
Theorem settlement_resolves_at_poll (s s' : session) (now : Z) (ev : event) :
  step s now ev = Some s' ->
  pc s <> AwaitLog ->
  (pc s' = AwaitLog ->
     is_poll s ev = true /\ navigationResolving s = false
     /\ (mode_of s = Hotmail -> now - lastNavigationTime s > SETTLE_TIMEOUT s))
  /\ (is_poll s ev = true ->
      (pc s' = AwaitLog <->
       navigationResolving s = false
       /\ (mode_of s = Hotmail -> now - lastNavigationTime s > SETTLE_TIMEOUT s))).
Proof.
  destruct s as [m st lst flag logged lis p inv d a c].
  intros Hs Hp. simpl in Hp.
  destruct m, flag, ev; unfold step, is_poll in *; unfold_session; split_step Hs;
    injection Hs as <-; simpl.
  all: try congruence.
  all: repeat match goal with
       | H : (_ >? _) = true |- _ => apply Z.gtb_gt in H
       | H : (_ >? _) = false |- _ => rewrite Z.gtb_ltb in H; apply Z.ltb_ge in H
       end.
  all: split; intros; repeat split; intros; try discriminate; try congruence; try lia.
  all: try match goal with
       | H : _ /\ _ |- _ =>
           destruct H as [? H]; try discriminate; try (specialize (H eq_refl); lia)
       end.
Qed.

Lemma settlement_resolves_at_poll_witness :
  step polling_session 11000 TimerFired = Some (resolve (set_clock 11000 polling_session))
  /\ pc polling_session <> AwaitLog
  /\ (is_poll polling_session TimerFired = true
      /\ navigationResolving polling_session = false
      /\ (mode_of polling_session = Hotmail ->
          11000 - lastNavigationTime polling_session > SETTLE_TIMEOUT polling_session)).
Proof.
  split; [reflexivity|]. split; [discriminate|].
  refine (proj1 (settlement_resolves_at_poll polling_session
                   (resolve (set_clock 11000 polling_session)) 11000 TimerFired _ _) _);
    [reflexivity | discriminate | reflexivity].
Defined.

(** C2, as amended.  In every session, after any schedule: at most one
    handler invocation holds the guard flag (one wait in flight), the flag
    is up exactly when one does, and a callback that runs while the flag is
    up starts no wait. *)
Theorem single_guarded_wait (m : mode) (settle t0 : Z) (el : element)
    (schedule : list (Z * event)) :
  let s := exec (start m settle t0 el) schedule in
  (holders (invocations s) <= 1)%nat
  /\ (navigationResolving s = true <-> holders (invocations s) = 1%nat)
  /\ forall now ev s',
       step s now ev = Some s' -> navigationResolving s = true ->
       (holders (invocations s') <= holders (invocations s))%nat
       /\ (holders (invocations s') <= 1)%nat.
Proof.
  intros s.
  assert (G : guarded s) by apply exec_guarded, start_guarded.
  split; [apply G|]. split; [apply G|].
  intros now ev s' Hs Hr. destruct (step_guarded _ _ _ _ Hs G) as [G' Hn].
  split; [auto | apply G'].
Qed.

Lemma single_guarded_wait_witness :
  let s := exec (start Hotmail 10000 0 (ElementHandle 7%nat))
             [(5, ClickResolved); (10, FrameNavigated "A"); (20, HandlerLogResolved 0)] in
  let s' := navigationHandler (set_clock 30 s) 30 "A" in
  step s 30 (FrameNavigated "A") = Some s'
  /\ navigationResolving s = true
  /\ (holders (invocations s') <= holders (invocations s))%nat.
Proof.
  intros s s'.
  assert (H1 : step s 30 (FrameNavigated "A") = Some s') by (vm_compute; reflexivity).
  assert (H2 : navigationResolving s = true) by (vm_compute; reflexivity).
  split; [exact H1|]. split; [exact H2|].
  exact (proj1 (proj2 (proj2 (single_guarded_wait Hotmail 10000 0 (ElementHandle 7%nat)
                                [(5, ClickResolved); (10, FrameNavigated "A");
                                 (20, HandlerLogResolved 0)]))
                  30 (FrameNavigated "A") s' H1 H2)).
Defined.

(** C2, as stated, fails: frame B navigates while the flag is up; its
    handler is suspended at its log call when the wait in flight settles,
    and when it resumes it finds the flag down and starts a wait of its
    own. *)
Lemma navigation_during_wait_starts_wait :
  let arrived := exec waiting_session [(30, FrameNavigated "B")] in
  let resumed := exec arrived [(40, HandlerWaitSettled 0 false); (50, HandlerLogResolved 1)] in
  navigationResolving waiting_session = true
  /\ invocations waiting_session = [HAwaitNavigation]
  /\ invocations arrived = [HAwaitNavigation; HAwaitLog "Frame navigated: Frame ID = B"]
  /\ invocations resumed = [HReturned; HAwaitNavigation]
  /\ api resumed
     = [PageOn; Click 7%nat None; WaitForNavigation 10000;
        LogMessage "Frame navigated: Frame ID = A"; WaitForNavigation 10000;
        LogMessage "Frame navigated: Frame ID = B"; WaitForNavigation 10000].
Proof. vm_compute. repeat split. Qed.

(** C3. In both modes and after any schedule, the first call of the session
    is [page.on], the click is the second, neither is issued again, and the
    listener is attached in every state short of completion, so that every
    navigation event before completion invokes the handler. *)
Theorem listener_attached_before_click (m : mode) (settle t0 : Z) (h : handle)
    (schedule : list (Z * event)) :
  let s := exec (start m settle t0 (ElementHandle h)) schedule in
  (exists rest, api s = PageOn :: Click h None :: rest
                /\ forallb (fun a => negb (arming a)) rest = true)
  /\ (listening s = true <-> pc s <> Completed)
  /\ (pc s <> Completed ->
      forall now frame_id,
        step s now (FrameNavigated frame_id)
        = Some (navigationHandler (set_clock now s) now frame_id)
        /\ length (invocations (navigationHandler (set_clock now s) now frame_id))
           = S (length (invocations s))).
Proof.
  intros s. destruct (exec_armed h _ schedule (start_armed m settle t0 h)) as [Ha Hl].
  fold s in Ha, Hl. split; [exact Ha|]. split; [exact Hl|].
  intros Hp now frame_id. apply Hl in Hp.
  unfold step. simpl. rewrite Hp. split; [reflexivity|].
  destruct s as [m' st lst flag logged lis p inv d a c].
  unfold_session. destruct m', flag; repeat case_decide; simpl; rewrite length_app; simpl; lia.
Qed.

Lemma listener_attached_before_click_witness :
  pc waiting_session <> Completed
  /\ step waiting_session 30 (FrameNavigated "B")
     = Some (navigationHandler (set_clock 30 waiting_session) 30 "B").
Proof.
  split; [discriminate|].
  refine (proj1 (proj2 (proj2 (listener_attached_before_click Hotmail 10000 0 7%nat
                                 [(5, ClickResolved); (10, FrameNavigated "A");
                                  (20, HandlerLogResolved 0)])) _ 30 "B")).
  discriminate.
Defined.

(** Without a navigation event no handler runs and the flag stays down. *)
Lemma step_uneventful s now ev s' :
  step s now ev = Some s' -> is_navigation ev = false ->
  navigationResolving s = false /\ invocations s = [] ->
  navigationResolving s' = false /\ invocations s' = [].
Proof.
  destruct s as [m st lst flag logged lis p inv d a c].
  intros Hs Hn [Hf Hi]. simpl in Hf, Hi. subst flag inv.
  destruct m, ev; try discriminate Hn; unfold step in Hs; unfold_session; split_step Hs;
    injection Hs as <-; simpl; split; reflexivity.
Qed.

Lemma exec_uneventful s schedule :
  uneventful schedule = true ->
  navigationResolving s = false /\ invocations s = [] ->
  navigationResolving (exec s schedule) = false /\ invocations (exec s schedule) = [].
Proof.
  induction schedule as [|te evs IH] using rev_ind; intros Hu H0; [exact H0|].
  unfold uneventful in Hu. rewrite forallb_app in Hu. apply andb_true_iff in Hu.
  destruct Hu as [Hu Hte]. simpl in Hte. rewrite andb_true_r in Hte.
  apply negb_true_iff in Hte. specialize (IH Hu H0).
  rewrite exec_snoc. unfold exec1.
  destruct (step (exec s evs) te.1 te.2) eqn:Hs; simpl; [|exact IH].
  exact (step_uneventful _ _ _ _ Hs Hte IH).
Qed.

Lemma quiet_next_stuck s l l' : quiet_next s l = None -> quiet_next s l' = None.
Proof. unfold quiet_next. destruct (pc s), (due s); congruence. Qed.

Lemma quiet_run_stuck s : quiet_next s 0 = None -> forall n lat, quiet_run lat n s = s.
Proof.
  intros H [|n] lat; simpl; [reflexivity|].
  rewrite (quiet_next_stuck _ _ (lat O) H). reflexivity.
Qed.

Lemma quiet_run_plus a : forall b lat s,
  quiet_run lat (a + b) s = quiet_run (fun k => lat (a + k)%nat) b (quiet_run lat a s).
Proof.
  induction a as [|a IH]; intros b lat s; simpl; [reflexivity|].
  destruct (quiet_next s (lat O)) eqn:Hq.
  - rewrite IH. reflexivity.
  - rewrite quiet_run_stuck; [reflexivity|]. eapply quiet_next_stuck; eauto.
Qed.

Ltac run_session :=
  cbv beta iota zeta delta
    [quiet_next exec1 step from_option id fst snd negb andb
     navigationHandler checkStability intervalTick acquire resume push resolve call
     set_last set_resolving set_logged set_listening set_pc set_invocations set_due set_clock
     mode_of SETTLE_TIMEOUT lastNavigationTime navigationResolving lastLoggedFrameID
     listening pc invocations due api clock start
     NAVIGATION_WAIT_TIMEOUT NAVIGATION_RECHECK_DELAY RECHECK_INTERVAL rested].

Lemma quiet_run_S lat n s te :
  quiet_next s (lat O) = Some te ->
  quiet_run lat (S n) s = quiet_run (fun k => lat (S k)) n (exec1 s te).
Proof. intros H. simpl. rewrite H. reflexivity. Qed.

Lemma quiet_run_completed lat n m st lst flag logged lis inv d a c :
  quiet_run lat n (Session m st lst flag logged lis Completed inv d a c)
  = Session m st lst flag logged lis Completed inv d a c.
Proof. destruct n; reflexivity. Qed.

(** The Hotmail recheck loop: every timer fires at or after its due time,
    so each failed check moves the next one at least a second on, and the
    quiet window is exceeded after finitely many. *)
Lemma hotmail_loop n : forall lat st lst logged a c d,
  (forall k, 0 <= lat k) ->
  st - (d - lst) < 1000 * Z.of_nat n ->
  rested Hotmail st lst
    (quiet_run lat (S (S n))
       (Session Hotmail st lst false logged true AwaitSettle [] (Some d) a c)).
Proof.
  induction n as [|n IH]; intros lat st lst logged a c d Hlat Hm;
    pose proof (Hlat O); pose proof (Hlat 1%nat);
    rewrite (quiet_run_S _ _ _ (d + lat O, TimerFired)) by reflexivity; run_session;
    destruct (d + lat O - lst >? st) eqn:Hc.
  - rewrite (quiet_run_S _ _ _ (d + lat O + lat 1%nat, LogResolved)) by reflexivity.
    run_session. rewrite quiet_run_completed. run_session.
    apply Z.gtb_gt in Hc. repeat split; try reflexivity. intros _. lia.
  - rewrite Z.gtb_ltb in Hc; apply Z.ltb_ge in Hc; lia.
  - rewrite (quiet_run_S _ _ _ (d + lat O + lat 1%nat, LogResolved)) by reflexivity.
    run_session. rewrite quiet_run_completed.
    run_session. apply Z.gtb_gt in Hc. repeat split; try reflexivity. intros _. lia.
  - rewrite Z.gtb_ltb in Hc; apply Z.ltb_ge in Hc.
    apply (IH (fun k => lat (S k))); [intros k; apply Hlat | lia].
Qed.

Lemma quiet_session_rests (m : mode) (settle t0 : Z) (h : handle) (latency : nat -> Z) :
  (forall k, 0 <= latency k) ->
  rested m settle t0
    (quiet_run latency (4 + Z.to_nat (settle / 1000)) (start m settle t0 (ElementHandle h))).
Proof.
  intros Hlat. pose proof (Hlat O). pose proof (Hlat 1%nat). pose proof (Hlat 2%nat).
  pose proof (Hlat 3%nat).
  change (4 + Z.to_nat (settle / 1000))%nat with (S (S (S (S (Z.to_nat (settle / 1000)))))).
  destruct m.
  - rewrite (quiet_run_S _ _ _ (t0 + latency O, ClickResolved)) by reflexivity. run_session.
    rewrite (quiet_run_S _ _ _ (t0 + latency O + 10000 + latency 1%nat, DirectWaitSettled true))
      by reflexivity.
    run_session.
    destruct (t0 + latency O + 10000 + latency 1%nat - t0 >? settle) eqn:Hc.
    + rewrite (quiet_run_S _ _ _ (t0 + latency O + 10000 + latency 1%nat + latency 2%nat,
                                 LogResolved)) by reflexivity.
      run_session. rewrite quiet_run_completed. run_session.
      apply Z.gtb_gt in Hc. repeat split; try reflexivity. intros _. lia.
    + rewrite Z.gtb_ltb in Hc. apply Z.ltb_ge in Hc.
      apply (hotmail_loop (Z.to_nat (settle / 1000)) (fun k => latency (S (S k))));
        [intros k; apply Hlat|].
      assert (0 <= settle) by lia.
      rewrite Z2Nat.id by (apply Z.div_pos; lia).
      pose proof (Z.mul_succ_div_gt settle 1000 ltac:(lia)). lia.
  - rewrite (quiet_run_S _ _ _ (t0 + latency O, ClickResolved)) by reflexivity. run_session.
    rewrite (quiet_run_S _ _ _ (t0 + latency O + 5000 + latency 1%nat, DirectWaitSettled true))
      by reflexivity.
    run_session.
    rewrite (quiet_run_S _ _ _ (t0 + latency O + 5000 + latency 1%nat + 1500 + latency 2%nat,
                               TimerFired)) by reflexivity.
    run_session.
    rewrite (quiet_run_S _ _ _ (t0 + latency O + 5000 + latency 1%nat + 1500 + latency 2%nat
                               + latency 3%nat, LogResolved)) by reflexivity.
    run_session. rewrite quiet_run_completed. run_session.
    repeat split; try reflexivity. discriminate.
Qed.

(** C4. When no navigation event fires and every pending await of the main
    flow completes (the direct wait at its timeout, which is swallowed,
    each timer at or after its due time), both mechanisms complete within
    [4 + SETTLE_TIMEOUT / 1000] callbacks: the listener is detached, no
    handler ever ran, the flag is down and stays down, in Hotmail mode the
    quiet window is exceeded from then on, and nothing further happens.
    In whatever order the callbacks of a schedule without navigation event
    run, the flag is down and no handler runs. *)
Theorem quiet_click_settles (m : mode) (settle t0 : Z) (h : handle) (latency : nat -> Z) :
  (forall k, 0 <= latency k) ->
  let fuel := (4 + Z.to_nat (settle / 1000))%nat in
  let s := quiet_run latency fuel (start m settle t0 (ElementHandle h)) in
  pc s = Completed /\ listening s = false /\ invocations s = []
  /\ (forall t, clock s <= t ->
        navigationResolving s = false
        /\ (m = Hotmail -> t - lastNavigationTime s > settle))
  /\ (forall n, quiet_run latency (fuel + n) (start m settle t0 (ElementHandle h)) = s)
  /\ (forall schedule, uneventful schedule = true ->
        let s' := exec (start m settle t0 (ElementHandle h)) schedule in
        navigationResolving s' = false /\ invocations s' = []).
Proof.
  intros Hlat fuel s.
  pose proof (quiet_session_rests m settle t0 h latency Hlat) as R.
  change (rested m settle t0 s) in R.
  assert (Hs : forall n, quiet_run latency (fuel + n) (start m settle t0 (ElementHandle h)) = s).
  { intros n. rewrite quiet_run_plus. fold s. apply quiet_run_stuck.
    unfold quiet_next. rewrite (proj1 R). reflexivity. }
  clearbody s fuel.
  destruct R as (Hp & Hl & Hi & Hr & Hlast & Hq).
  split; [exact Hp|]. split; [exact Hl|]. split; [exact Hi|].
  split; [|split; [exact Hs|]].
  - intros t Ht. split; [exact Hr|]. intros Hm. specialize (Hq Hm). lia.
  - intros schedule Hu. apply exec_uneventful; [exact Hu|]. split; reflexivity.
Qed.

Lemma quiet_click_settles_witness :
  (forall k : nat, 0 <= (fun _ : nat => 0) k)
  /\ pc (quiet_run (fun _ => 0) (4 + Z.to_nat (10000 / 1000))
           (start Hotmail 10000 0 (ElementHandle 7%nat))) = Completed.
Proof.
  assert (H : forall k : nat, 0 <= (fun _ : nat => 0) k) by (intros k; simpl; lia).
  split; [exact H|].
  exact (proj1 (quiet_click_settles Hotmail 10000 0 7%nat (fun _ => 0) H)).
Defined.

(** ** The action layer *)

Ltac run_io Hf :=
  repeat (progress (cbv beta delta [bind ensureFocus ask act randomNumber Math_random Date_now
                                      ret try_catch throw handleError];
                    simpl; rewrite ?Hf; simpl)).

Lemma randomNumber_at_range (r : Q) (a b : Z) :
  (0 <= r)%Q -> (r < 1)%Q ->
  Z.min a b <= randomNumber_at r a b <= Z.max a b.
Proof.
  intros H0 H1. unfold randomNumber_at.
  assert (G : forall lo hi, lo <= hi -> lo <= Qfloor (r * inject_Z (hi - lo + 1)) + lo <= hi).
  { intros lo hi Hle.
    assert (Hk : (1 <= inject_Z (hi - lo + 1))%Q).
    { change 1%Q with (inject_Z 1). rewrite <- Zle_Qle. lia. }
    split.
    - assert (0 <= Qfloor (r * inject_Z (hi - lo + 1))); [|lia].
      change 0 with (Qfloor 0). apply Qfloor_resp_le. nra.
    - assert (Qfloor (r * inject_Z (hi - lo + 1)) < hi - lo + 1); [|lia].
      rewrite Zlt_Qlt. eapply Qle_lt_trans; [apply Qfloor_le|]. nra. }
  destruct (a >? b) eqn:Hc.
  - apply Z.gtb_gt in Hc. rewrite Z.min_r, Z.max_l by lia. apply G. lia.
  - rewrite Z.gtb_ltb in Hc. apply Z.ltb_ge in Hc. rewrite Z.min_l, Z.max_r by lia.
    apply G. lia.
Qed.

Lemma randomNumber_at_swap (r : Q) (a b : Z) : randomNumber_at r a b = randomNumber_at r b a.
Proof.
  unfold randomNumber_at.
  destruct (a >? b) eqn:H1, (b >? a) eqn:H2; try reflexivity.
  - apply Z.gtb_gt in H1, H2. lia.
  - rewrite Z.gtb_ltb in H1, H2. apply Z.ltb_ge in H1, H2. replace b with a by lia.
    reflexivity.
Qed.

Lemma normalize_swap (a b : Z) : normalize a b = normalize b a.
Proof.
  unfold normalize. destruct (a >? b) eqn:H1, (b >? a) eqn:H2; try reflexivity.
  - apply Z.gtb_gt in H1, H2. lia.
  - rewrite Z.gtb_ltb in H1, H2. apply Z.ltb_ge in H1, H2. replace b with a by lia.
    reflexivity.
Qed.

Lemma normalize_min_max (a b : Z) : normalize a b = (Z.min a b, Z.max a b).
Proof.
  unfold normalize. destruct (a >? b) eqn:H1.
  - apply Z.gtb_gt in H1. rewrite Z.min_r, Z.max_l by lia. reflexivity.
  - rewrite Z.gtb_ltb in H1. apply Z.ltb_ge in H1. rewrite Z.min_l, Z.max_r by lia.
    reflexivity.
Qed.

Lemma end_time_within (t : Z) (r : Q) (lo hi : Z) :
  (0 <= r)%Q -> (r < 1)%Q -> lo <= hi ->
  (inject_Z (t + lo) <= end_time t r lo hi)%Q /\ (end_time t r lo hi <= inject_Z (t + hi))%Q.
Proof.
  intros H0 H1 Hle. unfold end_time.
  assert (Hd : (0 <= inject_Z (hi - lo))%Q).
  { change 0%Q with (inject_Z 0). rewrite <- Zle_Qle. lia. }
  assert (Hhi : (inject_Z hi == inject_Z (hi - lo) + inject_Z lo)%Q).
  { rewrite <- inject_Z_plus. replace (hi - lo + lo) with hi by lia. reflexivity. }
  rewrite !inject_Z_plus. rewrite Hhi. split; nra.
Qed.

Lemma commits_snoc t a : commits (t ++ [a]) = (commits t + (if is_commit a then 1 else 0))%nat.
Proof.
  unfold commits. rewrite filter_app, length_app. f_equal.
  rewrite filter_cons. destruct (is_commit a); case_decide; simpl; congruence.
Qed.

Section Actions.

Variable E : env.

(** The resolver touches neither the trace nor the random source. *)
Lemma getElement_keeps d frame w :
  trace (getElement E d frame w).2 = trace w /\ draws (getElement E d frame w).2 = draws w.
Proof.
  unfold getElement, try_catch, bind, ret, throw, ask, handleError.
  repeat (match goal with
          | |- context [fails E ?k] => destruct (fails E k) eqn:?
          | |- context [String.eqb ?a ?b] => destruct (String.eqb a b) eqn:?
          end; simpl); split; reflexivity.
Qed.

(** C8. When the element is found and no primitive throws, [clearInput]
    performs exactly a click with a count in [3, 6], the randomized wait and
    one Backspace press, in this order; the count is what [randomNumber]
    yields for the bounds in either order. *)
Theorem clearInput_click_wait_delete (d : descriptor) (frame : option page_ref) (w : world)
    (h : handle) :
  (0 <= random E (draws w))%Q -> (random E (draws w) < 1)%Q ->
  (forall k, fails E k = None) ->
  (getElement E (defaulting (types_selector E) d) frame w).1 = Ret (ElementHandle h) ->
  exists n w',
    clearInput E d frame w = (Ret tt, w')
    /\ trace w' = trace w ++ [Click h (Some n); RandomWait; Press h "Backspace"]
    /\ 3 <= n <= 6
    /\ n = randomNumber_at (random E (draws w)) 3 6
    /\ n = randomNumber_at (random E (draws w)) 6 3.
Proof.
  intros H0 H1 Hf Hg.
  exists (randomNumber_at (random E (draws w)) 3 6).
  destruct (getElement_keeps (defaulting (types_selector E) d) frame w) as (Ht & Hd).
  unfold clearInput, try_catch, bind.
  destruct (getElement E (defaulting (types_selector E) d) frame w) as [o w1].
  simpl in Hg, Ht, Hd. subst o. simpl.
  unfold randomNumber, Math_random, randomWait, bind, ret, act. simpl. rewrite !Hf. simpl.
  rewrite Hd.
  eexists. split; [reflexivity|]. simpl. rewrite Ht, <- !app_assoc. simpl.
  split; [reflexivity|]. split; [apply (randomNumber_at_range _ 3 6 H0 H1)|].
  split; [reflexivity | apply randomNumber_at_swap].
Qed.

(** Typing a line presses no Enter. *)
Lemma type_line_commits (h : handle) (line : string) :
  (forall k, fails E k = None) ->
  forall w, exists w',
    type_line E h line w = (Ret tt, w') /\ commits (trace w') = commits (trace w).
Proof.
  intros Hf. induction line as [|c line IH]; intros w; simpl.
  - exists w. split; reflexivity.
  - run_io Hf.
    destruct (focused E (calls w)); run_io Hf.
    + match goal with
      | |- context [type_line E h line ?x] => destruct (IH x) as (w' & -> & Hc)
      end.
      exists w'. split; [reflexivity|]. rewrite Hc. simpl. rewrite commits_snoc. simpl. lia.
    + match goal with
      | |- context [type_line E h line ?x] => destruct (IH x) as (w' & -> & Hc)
      end.
      exists w'. split; [reflexivity|]. rewrite Hc. simpl. rewrite !commits_snoc. simpl. lia.
Qed.

(** What [typeText] does about line breaks: Enter is pressed after each
    line whose text differs from the text of the last line. *)
Lemma type_lines_commits (h : handle) (final : string) (lines : list string) :
  (forall k, fails E k = None) ->
  forall w, exists w',
    type_lines E h final lines w = (Ret tt, w')
    /\ commits (trace w')
       = (commits (trace w) + length (filter (fun line => line <> final) lines))%nat.
Proof.
  intros Hf. induction lines as [|line lines IH]; intros w; simpl.
  - exists w. split; [reflexivity|]. simpl. lia.
  - unfold bind. destruct (type_line_commits h line Hf w) as (w1 & -> & H1).
    rewrite filter_cons.
    destruct (String.eqb_spec line final) as [->|Hne]; simpl.
    + destruct (IH w1) as (w' & -> & Hc). exists w'. split; [reflexivity|].
      rewrite Hc, H1. case_decide; [congruence|]. reflexivity.
    + run_io Hf.
      match goal with
      | |- context [type_lines E h final lines ?x] => destruct (IH x) as (w' & -> & Hc)
      end.
      exists w'. split; [reflexivity|]. rewrite Hc. simpl. rewrite commits_snoc, H1. simpl.
      case_decide; [|congruence]. simpl. lia.
Qed.

End Actions.

Lemma clearInput_click_wait_delete_witness :
  ((0 <= random demo (draws fresh))%Q /\ (random demo (draws fresh) < 1)%Q)
  /\ (forall k, fails demo k = None)
  /\ (getElement demo (defaulting (types_selector demo) (Descriptor "#box" None)) None fresh).1
     = Ret (ElementHandle 7%nat)
  /\ exists n w',
       clearInput demo (Descriptor "#box" None) None fresh = (Ret tt, w')
       /\ trace w' = trace fresh ++ [Click 7%nat (Some n); RandomWait; Press 7%nat "Backspace"]
       /\ 3 <= n <= 6
       /\ n = randomNumber_at (random demo (draws fresh)) 3 6
       /\ n = randomNumber_at (random demo (draws fresh)) 6 3.
Proof.
  assert (H0 : (0 <= random demo (draws fresh))%Q) by (vm_compute; discriminate).
  assert (H1 : (random demo (draws fresh) < 1)%Q) by (vm_compute; reflexivity).
  assert (Hf : forall k, fails demo k = None) by (intros k; reflexivity).
  assert (Hg : (getElement demo (defaulting (types_selector demo) (Descriptor "#box" None))
                  None fresh).1 = Ret (ElementHandle 7%nat)) by (vm_compute; reflexivity).
  split; [split; assumption|]. split; [exact Hf|]. split; [exact Hg|].
  exact (clearInput_click_wait_delete demo (Descriptor "#box" None) None fresh 7%nat
           H0 H1 Hf Hg).
Defined.

(** Two lines with different texts: the characters of the first, one Enter,
    the characters of the second. *)
Example typeText_two_lines :
  trace (typeText demo (Descriptor "#box" None) (Some ("a" +:+ String newline "b")%string)
           None fresh).2
  = [Focus 7%nat; TypeChar 7%nat "a" 2; Press 7%nat "Enter"; TypeChar 7%nat "b" 2].
Proof. vm_compute. reflexivity. Qed.

(** C5, at the failing input.  The text [a], line break, [a] has two lines
    with the same text: [typeText] types the two characters and presses no
    Enter between them, where the claim asks for one. *)
Theorem typeText_repeated_line_not_committed :
  let text := ("a" +:+ String newline "a")%string in
  split newline text = ["a"; "a"]%string
  /\ let r := typeText demo (Descriptor "#box" None) (Some text) None fresh in
     r.1 = Ret tt
     /\ trace r.2 = [Focus 7%nat; TypeChar 7%nat "a" 2; TypeChar 7%nat "a" 2]
     /\ commits (trace r.2) = 0%nat.
Proof. vm_compute. repeat split. Qed.

(** C6, as stated, fails: for the kind [allSelector] a selector without a
    match yields the empty array, which is truthy; [clearInput] then passes
    its not-found test and fails on the missing [click] method. *)
Lemma getElement_allSelector_no_match_is_truthy :
  css_all demo (page demo) "#none" = []
  /\ (getElement demo (Descriptor "#none" (Some "allSelector"%string)) None fresh).1
     = Ret (HandleArray [])
  /\ truthy (HandleArray []) = true
  /\ raised (clearInput demo (Descriptor "#none" (Some "allSelector"%string)) None fresh).2
     = [TypeError "element.click is not a function"].
Proof. vm_compute. repeat split. Qed.

(** C6, as amended.  For each of the six supported kinds and a selector
    that matches no node under the reading of that kind, [getElement]
    returns and does not throw.  When no primitive of the page throws it
    returns the no-match result of the kind and reports nothing: [null] for
    the kinds [id], [selector], [xpath] and [class], the empty array for
    [allSelector], a handle of the empty list for [allXpath].  When a
    primitive throws, it returns [undefined] after passing that error to
    [handleError] with the selector and the type. *)
Theorem getElement_no_match (E : env) (sel kind : string) (frame : option page_ref)
    (w : world) :
  let pg := default (page E) frame in
  let d := Descriptor sel (Some kind) in
  In kind supported ->
  matches_nothing E pg kind sel ->
  (exists v w', getElement E d frame w = (Ret v, w'))
  /\ ((forall k, (k < awaited kind)%nat -> fails E (calls w + k) = None) ->
      exists w',
        getElement E d frame w = (Ret (no_match_result kind), w')
        /\ raised w' = raised w /\ handled w' = handled w /\ trace w' = trace w)
  /\ (forall k e,
        (k < awaited kind)%nat -> fails E (calls w + k) = Some e ->
        (forall j, (j < k)%nat -> fails E (calls w + j) = None) ->
        exists w',
          getElement E d frame w = (Ret Undefined, w')
          /\ raised w' = raised w ++ [e]
          /\ handled w' = handled w ++ [Report e None (Some (diagnostics d))]
          /\ trace w' = trace w).
Proof.
  intros pg d Hk Hm. unfold supported in Hk. simpl in Hk. subst d.
  repeat (destruct Hk as [<-|Hk]); [..|contradiction].
  all: unfold matches_nothing in Hm; simpl in Hm.
  all: unfold getElement, try_catch, bind, ret, ask, handleError, getPage, kind_of; simpl;
    fold pg; rewrite ?Hm; simpl.
  all: split; [|split].
  all: match goal with
       | |- exists v w', _ =>
           repeat (match goal with
                   | |- context [fails ?e ?k] => destruct (fails e k) eqn:?
                   end; simpl);
           eexists; eexists; reflexivity
       | |- (forall k, _ -> _ = None) -> _ =>
           intros Hf;
           assert (H0 : fails E (calls w) = None)
             by (rewrite <- (Nat.add_0_r (calls w)); apply Hf; unfold awaited; simpl; lia);
           rewrite H0; simpl;
           try (assert (H1 : fails E (S (calls w)) = None)
                  by (rewrite <- Nat.add_1_r; apply Hf; unfold awaited; simpl; lia);
                rewrite H1; simpl);
           eexists; repeat split; reflexivity
       | |- forall k e, _ =>
           intros k e Hlt He Hbefore; unfold awaited in Hlt; simpl in Hlt;
           destruct k as [|[|k]]; [| |lia];
           [ rewrite Nat.add_0_r in He; rewrite He; simpl
           | first [ lia
                   | pose proof (Hbefore 0%nat ltac:(lia)) as H0;
                     rewrite Nat.add_0_r in H0; rewrite H0; simpl;
                     rewrite Nat.add_1_r in He; rewrite He; simpl ] ];
           eexists; repeat split; reflexivity
       end.
Qed.

Lemma getElement_no_match_witness :
  In "class"%string supported
  /\ matches_nothing demo (default (page demo) None) "class" "none"
  /\ (forall k, (k < awaited "class")%nat -> fails demo (calls fresh + k) = None)
  /\ exists w',
       getElement demo (Descriptor "none" (Some "class"%string)) None fresh = (Ret Null, w')
       /\ raised w' = raised fresh /\ handled w' = handled fresh /\ trace w' = trace fresh.
Proof.
  assert (Hk : In "class"%string supported) by (simpl; tauto).
  assert (Hm : matches_nothing demo (default (page demo) None) "class" "none") by reflexivity.
  assert (Hf : forall k, (k < awaited "class")%nat -> fails demo (calls fresh + k) = None)
    by (intros k _; reflexivity).
  split; [exact Hk|]. split; [exact Hm|]. split; [exact Hf|].
  exact (proj1 (proj2 (getElement_no_match demo "none" "class" None fresh Hk Hm)) Hf).
Defined.

(** C9. Passing the time bounds or the speed bounds in the other order
    changes nothing in what [randomScroll] and [scrollToElement] do; both
    run their loop up to the same end time, which lies between the clock
    reading plus the smaller time bound and the clock reading plus the
    larger one. *)
Theorem scroll_bounds_normalized (E : env) (element : descriptor) (t1 t2 s1 s2 : Z)
    (offset : option Z) (w : world) :
  (0 <= random E (draws w))%Q -> (random E (draws w) < 1)%Q ->
  (randomScroll E (Some t1) (Some t2) (Some s1) (Some s2) w
   = randomScroll E (Some t2) (Some t1) (Some s1) (Some s2) w
   /\ randomScroll E (Some t1) (Some t2) (Some s1) (Some s2) w
      = randomScroll E (Some t1) (Some t2) (Some s2) (Some s1) w
   /\ randomScroll E (Some t1) (Some t2) (Some s1) (Some s2) w
      = try_catch
          (page_evaluate E
             (randomScroll_loop E (fuel E) (Z.max s1 s2) (Z.min s1 s2) (endTime_of E w t1 t2));;
           randomWait E)
          (fun error => handleError error None None)
          (next_draw (next_read w)))
  /\ (scrollToElement E element (Some t1) (Some t2) (Some s1) (Some s2) offset w
      = scrollToElement E element (Some t2) (Some t1) (Some s1) (Some s2) offset w
      /\ scrollToElement E element (Some t1) (Some t2) (Some s1) (Some s2) offset w
         = scrollToElement E element (Some t1) (Some t2) (Some s2) (Some s1) offset w
      /\ scrollToElement E element (Some t1) (Some t2) (Some s1) (Some s2) offset w
         = try_catch
             (let* targetElement := checkElement E element in
              if value_truthy targetElement then
                page_evaluate E
                  (scrollToElement_callback E (selector element) (type element)
                     (default 500 offset) (Z.max s1 s2) (Z.min s1 s2) (endTime_of E w t1 t2))
              else
                logMessage E "Failed to locate element";;
                randomScroll E (Some 10000) (Some 6000) (Some 2000) (Some 0))
             (fun error => handleError error None None)
             (next_draw (next_read w)))
  /\ (inject_Z (now E (reads w) + Z.min t1 t2) <= endTime_of E w t1 t2)%Q
  /\ (endTime_of E w t1 t2 <= inject_Z (now E (reads w) + Z.max t1 t2))%Q.
Proof.
  intros H0 H1.
  assert (Hend : endTime_of E w t1 t2
                 = end_time (now E (reads w)) (random E (draws w)) (Z.min t1 t2) (Z.max t1 t2)).
  { unfold endTime_of. rewrite normalize_min_max, Z.min_comm, Z.max_comm. reflexivity. }
  split; [|split].
  - unfold randomScroll. simpl.
    rewrite (normalize_swap t1 t2), (normalize_swap s1 s2). repeat split.
    rewrite Hend, !normalize_min_max.
    rewrite (Z.min_comm t2 t1), (Z.max_comm t2 t1), (Z.min_comm s2 s1), (Z.max_comm s2 s1).
    reflexivity.
  - unfold scrollToElement. simpl.
    rewrite (normalize_swap t1 t2), (normalize_swap s1 s2). repeat split.
    rewrite Hend, !normalize_min_max.
    rewrite (Z.min_comm t2 t1), (Z.max_comm t2 t1), (Z.min_comm s2 s1), (Z.max_comm s2 s1).
    reflexivity.
  - rewrite Hend. apply end_time_within; [assumption..|lia].
Qed.

Lemma scroll_bounds_normalized_witness :
  ((0 <= random demo (draws fresh))%Q /\ (random demo (draws fresh) < 1)%Q)
  /\ randomScroll demo (Some 3000) (Some 5000) (Some 500) (Some 900) fresh
     = randomScroll demo (Some 5000) (Some 3000) (Some 500) (Some 900) fresh
  /\ (inject_Z (now demo (reads fresh) + Z.min 3000 5000) <= endTime_of demo fresh 3000 5000)%Q
  /\ (endTime_of demo fresh 3000 5000 <= inject_Z (now demo (reads fresh) + Z.max 3000 5000))%Q.
Proof.
  assert (H0 : (0 <= random demo (draws fresh))%Q) by (vm_compute; discriminate).
  assert (H1 : (random demo (draws fresh) < 1)%Q) by (vm_compute; reflexivity).
  split; [split; assumption|].
  pose proof (scroll_bounds_normalized demo (Descriptor "#box" None) 3000 5000 500 900 None
                fresh H0 H1) as (Hr & _ & Hlo & Hhi).
  split; [exact (proj1 Hr)|]. split; [exact Hlo | exact Hhi].
Defined.

(** C10, at the failing input.  With [offset] 500 and a minimal speed of
    400, the first scroll goes to the top of the element minus 400: the
    callback receives its arguments in another order than it names them,
    so that the minimal speed arrives as its [offset]. *)
Theorem scrollToElement_jump_uses_min_speed :
  let offset := 500 in
  let minScrollingSpeed := 400 in
  let r := scrollToElement demo (Descriptor "#box" None)
             (Some 5000) (Some 3000) (Some 900) (Some minScrollingSpeed) (Some offset) fresh in
  r.1 = Ret tt
  /\ css_first demo (page demo) "#box" = Some 7%nat
  /\ head (trace r.2) = Some (ScrollTo 0 (rect_top demo 7%nat - inject_Z minScrollingSpeed))
  /\ ~ (rect_top demo 7%nat - inject_Z minScrollingSpeed
        == rect_top demo 7%nat - inject_Z offset)%Q
  /\ last (trace r.2) = Some (ScrollIntoView 7%nat).
Proof. vm_compute. repeat split; discriminate. Qed.

(** ** Error handling *)

Create HintDb js discriminated.

Section Discipline.

Variable E : env.

Lemma total_tidy {A} (m : M A) : total m -> tidy m.
Proof. intros H w B. specialize (H w B). destruct (m w) as [[a|e|] w']; tauto. Qed.

Lemma tidy_ret {A} (a : A) : tidy (ret a).
Proof. intros w B. exact B. Qed.

Lemma total_ret {A} (a : A) : total (ret a).
Proof. intros w B. exact B. Qed.

Lemma tidy_pending {A} : tidy (@pending A).
Proof. intros w B. exact B. Qed.

Lemma tidy_throw {A} (e : error) : tidy (@throw A e).
Proof. intros w B. unfold throw, balanced in *. simpl. rewrite B. reflexivity. Qed.

Lemma tidy_act (a : action) : tidy (act E a).
Proof.
  intros w B. unfold act, balanced in *. destruct (fails E (calls w)); simpl; [|exact B].
  rewrite B. reflexivity.
Qed.

Lemma tidy_ask {A} (f : nat -> A) : tidy (ask E f).
Proof.
  intros w B. unfold ask, balanced in *. destruct (fails E (calls w)); simpl; [|exact B].
  rewrite B. reflexivity.
Qed.

Lemma tidy_logMessage (message : string) : tidy (logMessage E message).
Proof. apply tidy_act. Qed.

Lemma tidy_randomWait : tidy (randomWait E).
Proof. apply tidy_act. Qed.

Lemma total_Math_random : total (Math_random E).
Proof. intros w B. exact B. Qed.

Lemma total_Date_now : total (Date_now E).
Proof. intros w B. exact B. Qed.

Lemma total_get_scrollY : total get_scrollY.
Proof. intros w B. exact B. Qed.

Lemma tidy_bind {A B} (m : M A) (k : A -> M B) :
  tidy m -> (forall a, tidy (k a)) -> tidy (bind m k).
Proof.
  intros Hm Hk w Bw. unfold bind. specialize (Hm w Bw).
  destruct (m w) as [[a|e|] w']; try assumption. apply Hk, Hm.
Qed.

Lemma total_bind {A B} (m : M A) (k : A -> M B) :
  total m -> (forall a, total (k a)) -> total (bind m k).
Proof.
  intros Hm Hk w Bw. unfold bind. specialize (Hm w Bw).
  destruct (m w) as [[a|e|] w']; try assumption. apply Hk, Hm.
Qed.

(** A [catch] block that reports the error and goes on without throwing. *)
Lemma total_catch {A} (body : M A) tag context (k : M A) :
  tidy body -> total k ->
  total (try_catch body (fun error => handleError error tag (context error);; k)).
Proof.
  intros Hb Hk w Bw. unfold try_catch. specialize (Hb w Bw).
  destruct (body w) as [[a|e|] w']; try assumption.
  unfold bind, handleError. apply Hk. unfold balanced, note_handled. simpl.
  rewrite map_app. simpl. symmetry. exact Hb.
Qed.

Lemma total_catch_unit (body : M unit) tag context :
  tidy body ->
  total (try_catch body (fun error => handleError error tag (context error))).
Proof.
  intros Hb w Bw. unfold try_catch. specialize (Hb w Bw).
  destruct (body w) as [[a|e|] w']; try assumption.
  unfold handleError, balanced, note_handled. simpl.
  rewrite map_app. simpl. symmetry. exact Hb.
Qed.

(** A [catch] block around a body that never throws is never entered. *)
Lemma total_guarded {A} (body : M A) handler : total body -> total (try_catch body handler).
Proof.
  intros Hb w Bw. unfold try_catch. specialize (Hb w Bw).
  destruct (body w) as [[a|e|] w']; tauto.
Qed.

End Discipline.

#[export] Hint Resolve tidy_ret tidy_pending tidy_throw tidy_act tidy_ask total_ret
  tidy_logMessage tidy_randomWait total_Math_random total_Date_now total_get_scrollY : js.

Ltac discipline :=
  repeat first
    [ progress intros
    | apply total_catch
    | apply total_catch_unit
    | apply tidy_bind
    | solve [eauto with js]
    | solve [apply total_tidy; eauto with js]
    | match goal with
      | |- tidy (if ?b then _ else _) => destruct b
      | |- tidy (match ?x with _ => _ end) => destruct x
      | |- total (if ?b then _ else _) => destruct b
      | |- total (match ?x with _ => _ end) => destruct x
      | |- tidy (let '(_, _) := ?x in _) => destruct x
      end ].

Ltac run_out E H :=
  unfold settle, fetchDOM, checkElementByXpath, checkElementBySelector, checkElement,
    getAttribute, getElement, try_catch, bind, ret, throw, ask, handleError, or_null,
    of_option, kind_of in H;
  simpl in H;
  repeat (match type of H with
          | context [fails E ?k] => destruct (fails E k) eqn:?
          | context [String.eqb ?a ?b] => destruct (String.eqb a b) eqn:?
          | context [css_first E ?p ?x] => destruct (css_first E p x) eqn:?
          | context [xpath_first E ?p ?x] => destruct (xpath_first E p x) eqn:?
          | context [evaluated E ?k] => destruct (evaluated E k) eqn:?
          | context [if ?b then _ else _] => destruct b eqn:?
          end; simpl in H).

Section Surface.

Variable E : env.

Lemma total_randomNumber a b : total (randomNumber E a b).
Proof.
  unfold randomNumber. apply total_bind; [apply total_Math_random | intros; apply total_ret].
Qed.

Lemma tidy_method v name : tidy (method v name).
Proof. unfold method. discipline. Qed.

#[local] Hint Resolve total_randomNumber tidy_method : js.

Lemma total_getElement d frame : total (getElement E d frame).
Proof. unfold getElement. discipline. Qed.

Lemma total_checkElement d : total (checkElement E d).
Proof. unfold checkElement. discipline. Qed.

Lemma total_fetchDOM : total (fetchDOM E).
Proof. unfold fetchDOM. discipline. Qed.

#[local] Hint Resolve total_getElement total_checkElement total_fetchDOM : js.

Lemma total_getAttribute d a : total (getAttribute E d a).
Proof. unfold getAttribute. discipline. Qed.

Lemma total_checkElementByXpath x : total (checkElementByXpath E x).
Proof. unfold checkElementByXpath. discipline. Qed.

Lemma total_checkElementBySelector x : total (checkElementBySelector E x).
Proof. unfold checkElementBySelector. discipline. Qed.

Lemma tidy_ensureFocus h : tidy (ensureFocus E h).
Proof. unfold ensureFocus. discipline. Qed.

#[local] Hint Resolve tidy_ensureFocus : js.

Lemma tidy_type_line h line : tidy (type_line E h line).
Proof. induction line; simpl; discipline. Qed.

#[local] Hint Resolve tidy_type_line : js.

Lemma tidy_type_lines h final lines : tidy (type_lines E h final lines).
Proof. induction lines; simpl; discipline. Qed.

#[local] Hint Resolve tidy_type_lines : js.

Lemma total_typeText d text frame : total (typeText E d text frame).
Proof.
  unfold typeText. apply total_bind.
  - discipline.
  - intros [h|]; discipline.
Qed.

Lemma total_keyPress d k : total (keyPress E d k).
Proof. unfold keyPress. discipline. Qed.

Lemma total_clearInput d frame : total (clearInput E d frame).
Proof. unfold clearInput. discipline. Qed.

Lemma total_selectOption d v : total (selectOption E d v).
Proof. unfold selectOption. discipline. Qed.

Lemma tidy_scrollTo x y : tidy (scrollTo E x y).
Proof. unfold scrollTo. apply tidy_bind; [apply tidy_act|]. intros _ w B. exact B. Qed.

Lemma tidy_scrollBy dy : tidy (scrollBy E dy).
Proof. unfold scrollBy. apply tidy_bind; [apply tidy_act|]. intros _ w B. exact B. Qed.

#[local] Hint Resolve tidy_scrollTo tidy_scrollBy : js.

Lemma tidy_scrollToBottomPage_loop n : tidy (scrollToBottomPage_loop E n).
Proof. induction n; simpl; discipline. Qed.

Lemma tidy_randomScroll_loop n a b t : tidy (randomScroll_loop E n a b t).
Proof. induction n; simpl; discipline. Qed.

Lemma tidy_dwell n i a b t : tidy (dwell E n i a b t).
Proof. induction n; simpl; discipline. Qed.

#[local] Hint Resolve tidy_scrollToBottomPage_loop tidy_randomScroll_loop tidy_dwell : js.

Lemma tidy_page_evaluate {A} (m : M A) : tidy m -> tidy (page_evaluate E m).
Proof. intros H. unfold page_evaluate. discipline. Qed.

Lemma total_scrollToBottomPage : total (scrollToBottomPage E).
Proof.
  unfold scrollToBottomPage. apply total_catch_unit. apply tidy_page_evaluate. discipline.
Qed.

Lemma total_randomScroll a b c d : total (randomScroll E a b c d).
Proof. unfold randomScroll. apply total_catch_unit. discipline. Qed.

#[local] Hint Resolve total_randomScroll : js.

Lemma tidy_scrollToElement_callback s t a b c d :
  tidy (scrollToElement_callback E s t a b c d).
Proof. unfold scrollToElement_callback. discipline. Qed.

Lemma total_scrollToElement el a b c d o : total (scrollToElement E el a b c d o).
Proof.
  unfold scrollToElement. apply total_catch_unit. discipline.
  all: apply tidy_page_evaluate, tidy_scrollToElement_callback.
Qed.

(** A navigation handler has no [try]: when its main flow rejects, the
    error goes to its caller unreported. *)
Lemma tidy_session_call s : tidy (session_call E s).
Proof.
  intros w B. unfold session_call, balanced in *.
  destruct (pc (exec s (navigation E))); simpl; try exact B.
  rewrite B. reflexivity.
Qed.

#[local] Hint Resolve tidy_session_call : js.

Lemma tidy_handleHotmailNavigation p el t : tidy (handleHotmailNavigation E p el t).
Proof. unfold handleHotmailNavigation. discipline. Qed.

Lemma tidy_handleGmailNavigation p el : tidy (handleGmailNavigation E p el).
Proof. intros w B. unfold handleGmailNavigation. apply tidy_session_call, B. Qed.

#[local] Hint Resolve tidy_handleHotmailNavigation tidy_handleGmailNavigation : js.

Lemma total_clickElement d frame t : total (clickElement E d frame t).
Proof. unfold clickElement. discipline. Qed.

#[local] Hint Resolve total_typeText total_clearInput total_clickElement : js.

Lemma total_settle {A} (empty : A -> bool) (m : M A) : total m -> total (settle empty m).
Proof. intros H. unfold settle. apply total_bind; [exact H | intros; apply total_ret]. Qed.

Lemma tidy_settle {A} (empty : A -> bool) (m : M A) : tidy m -> tidy (settle empty m).
Proof. intros H. unfold settle. apply tidy_bind; [exact H | intros; apply tidy_ret]. Qed.

Lemma total_scrollToElement_of el a b c d o : total (scrollToElement_of E el a b c d o).
Proof.
  destruct el as [el|]; simpl; [apply total_scrollToElement|].
  apply total_catch_unit. discipline.
Qed.

Lemma total_invoke op :
  is_navigation_handler op = false -> lacks_descriptor op = false -> total (invoke E op).
Proof.
  destruct op; simpl; try discriminate; intros _ Hd;
    try (destruct d as [d|]; [|discriminate Hd]); simpl; apply total_settle.
  all: try solve [ unfold typeTextByXpath, typeTextBySelector, clickElementByXpath,
                     clickElementBySelector, clearInputBySelector, clearInputByXpath;
                   apply total_guarded; eauto with js ].
  all: eauto using total_keyPress, total_selectOption, total_scrollToBottomPage,
         total_scrollToElement_of, total_getAttribute, total_checkElementByXpath,
         total_checkElementBySelector with js.
Qed.

Lemma tidy_invoke op : tidy (invoke E op).
Proof.
  destruct (lacks_descriptor op) eqn:Hd.
  - destruct op; try discriminate; destruct d; try discriminate; simpl;
      apply tidy_settle, tidy_throw.
  - destruct (is_navigation_handler op) eqn:Hn; [|apply total_tidy, total_invoke; assumption].
    destruct op; try discriminate; simpl; apply tidy_settle; eauto with js.
Qed.

(** An operation that returns after an error was thrown returns
    [undefined] or [null]. *)
Lemma empty_on_error op w b w' :
  is_navigation_handler op = false ->
  invoke E op w = (Ret b, w') -> raised w' <> raised w -> b = true.
Proof.
  destruct op; simpl; try discriminate; intros _ H Hr;
    try (destruct d as [d|]; [|discriminate H]); simpl in H.
  all: try solve [ unfold settle, bind in H;
                   match type of H with context [match ?m with _ => _ end] =>
                     destruct m as [[[]|?|] ?] end; try discriminate;
                   unfold ret in H; congruence ].
  all: run_out E H; try discriminate H; injection H as <- <-; simpl in *;
       try reflexivity; try (exfalso; apply Hr; reflexivity).
Qed.

End Surface.

(** *** The diagnostics that go with an error *)

Section Forwarding.

Variable E : env.
Variable C : list diagnostic.

Lemma forwards_silent {A} (m : M A) : (forall w, handled (m w).2 = handled w) -> forwards C m.
Proof. intros H w. exists []. rewrite app_nil_r. split; [apply H | constructor]. Qed.

Lemma forwards_ret {A} (a : A) : forwards C (ret a).
Proof. apply forwards_silent. reflexivity. Qed.

Lemma forwards_pending {A} : forwards C (@pending A).
Proof. apply forwards_silent. reflexivity. Qed.

Lemma forwards_throw {A} (e : error) : forwards C (@throw A e).
Proof. apply forwards_silent. reflexivity. Qed.

Lemma forwards_act (a : action) : forwards C (act E a).
Proof. apply forwards_silent. intros w. unfold act. destruct (fails E (calls w)); reflexivity. Qed.

Lemma forwards_ask {A} (f : nat -> A) : forwards C (ask E f).
Proof. apply forwards_silent. intros w. unfold ask. destruct (fails E (calls w)); reflexivity. Qed.

Lemma forwards_logMessage (message : string) : forwards C (logMessage E message).
Proof. apply forwards_act. Qed.

Lemma forwards_randomWait : forwards C (randomWait E).
Proof. apply forwards_act. Qed.

Lemma forwards_Math_random : forwards C (Math_random E).
Proof. apply forwards_silent. reflexivity. Qed.

Lemma forwards_Date_now : forwards C (Date_now E).
Proof. apply forwards_silent. reflexivity. Qed.

Lemma forwards_get_scrollY : forwards C get_scrollY.
Proof. apply forwards_silent. reflexivity. Qed.

Lemma forwards_session_call (s : session) : forwards C (session_call E s).
Proof.
  apply forwards_silent. intros w. unfold session_call.
  destruct (pc (exec s (navigation E))); reflexivity.
Qed.

(** [handleError] is called with a tag and a context of [C]. *)
Lemma forwards_handleError (e : error) tag context :
  In (tag, context) C -> forwards C (handleError e tag context).
Proof.
  intros Hin w. exists [Report e tag context]. split; [reflexivity|].
  constructor; [exact Hin | constructor].
Qed.

Lemma forwards_bind {A B} (m : M A) (k : A -> M B) :
  forwards C m -> (forall a, forwards C (k a)) -> forwards C (bind m k).
Proof.
  intros Hm Hk w. unfold bind. destruct (Hm w) as (l1 & Ht1 & Hf1).
  destruct (m w) as [[a|e|] w1]; simpl in Ht1.
  - destruct (Hk a w1) as (l2 & Ht2 & Hf2).
    exists (l1 ++ l2). rewrite Ht2, Ht1, app_assoc. split; [reflexivity|].
    apply Forall_app. split; assumption.
  - exists l1. split; assumption.
  - exists l1. split; assumption.
Qed.

Lemma forwards_catch {A} (body : M A) (handler : error -> M A) :
  forwards C body -> (forall e, forwards C (handler e)) -> forwards C (try_catch body handler).
Proof.
  intros Hb Hh w. unfold try_catch. destruct (Hb w) as (l1 & Ht1 & Hf1).
  destruct (body w) as [[a|e|] w1]; simpl in Ht1.
  - exists l1. split; assumption.
  - destruct (Hh e w1) as (l2 & Ht2 & Hf2).
    exists (l1 ++ l2). rewrite Ht2, Ht1, app_assoc. split; [reflexivity|].
    apply Forall_app. split; assumption.
  - exists l1. split; assumption.
Qed.

End Forwarding.

#[export] Hint Resolve forwards_ret forwards_pending forwards_throw forwards_act forwards_ask
  forwards_logMessage forwards_randomWait forwards_Math_random forwards_Date_now
  forwards_get_scrollY forwards_session_call : js.

Ltac forwarding :=
  repeat first
    [ progress intros
    | apply forwards_catch
    | apply forwards_bind
    | solve [apply forwards_handleError; simpl; tauto]
    | solve [eauto with js]
    | match goal with
      | |- forwards _ (if ?b then _ else _) => destruct b
      | |- forwards _ (match ?x with _ => _ end) => destruct x
      | |- forwards _ (let '(_, _) := ?x in _) => destruct x
      end ].

Section Contexts.

Variable E : env.
Variable C : list diagnostic.

Lemma forwards_randomNumber a b : forwards C (randomNumber E a b).
Proof. unfold randomNumber. forwarding. Qed.

Lemma forwards_method v name : forwards C (method v name).
Proof. unfold method. forwarding. Qed.

#[local] Hint Resolve forwards_randomNumber forwards_method : js.

Lemma forwards_getElement d frame :
  incl (getElement_context d) C -> forwards C (getElement E d frame).
Proof.
  intros Hin. assert (In (None, Some (diagnostics d)) C) by (apply Hin; simpl; tauto).
  unfold getElement. forwarding.
Qed.

Lemma forwards_checkElement d :
  incl (checkElement_context d) C -> forwards C (checkElement E d).
Proof.
  intros Hin. assert (In (None, Some (diagnostics d)) C) by (apply Hin; simpl; tauto).
  unfold checkElement. forwarding.
Qed.

Lemma forwards_ensureFocus h : forwards C (ensureFocus E h).
Proof. unfold ensureFocus. forwarding. Qed.

#[local] Hint Resolve forwards_ensureFocus : js.

Lemma forwards_type_line h line : forwards C (type_line E h line).
Proof. induction line; simpl; forwarding. Qed.

#[local] Hint Resolve forwards_type_line : js.

Lemma forwards_type_lines h final lines : forwards C (type_lines E h final lines).
Proof. induction lines; simpl; forwarding. Qed.

#[local] Hint Resolve forwards_type_lines : js.

Lemma forwards_typeText d text frame :
  incl (typeText_context d text) C -> forwards C (typeText E d text frame).
Proof.
  intros Hin. unfold typeText_context in Hin. cbv zeta in Hin.
  apply incl_app_inv in Hin as [Hown Hget].
  assert (H1 := Hown _ (or_introl eq_refl)).
  assert (H2 := Hown _ (or_intror (or_introl eq_refl))).
  unfold typeText. apply forwards_bind.
  - apply forwards_catch.
    + apply forwards_bind; [apply forwards_getElement, Hget|]. forwarding.
    + intros e. apply forwards_bind; [apply forwards_handleError, H1 | forwarding].
  - intros [h|]; [|forwarding].
    apply forwards_catch; [forwarding|]. intros e. apply forwards_handleError, H2.
Qed.

Lemma forwards_keyPress d k :
  incl ((Some "keyPress"%string, None) :: getElement_context (defaulting "selector" d)) C ->
  forwards C (keyPress E d k).
Proof.
  intros Hin. apply incl_cons_inv in Hin as [Hown Hget].
  unfold keyPress. apply forwards_catch.
  - apply forwards_bind; [apply forwards_getElement, Hget|]. forwarding.
  - intros e. apply forwards_handleError, Hown.
Qed.

Lemma forwards_clearInput d frame :
  incl (clearInput_context E d) C -> forwards C (clearInput E d frame).
Proof.
  intros Hin. apply incl_cons_inv in Hin as [Hown Hget].
  unfold clearInput. apply forwards_catch.
  - apply forwards_bind; [apply forwards_getElement, Hget|]. forwarding.
  - intros e. apply forwards_handleError, Hown.
Qed.

Lemma forwards_handleHotmailNavigation p el t : forwards C (handleHotmailNavigation E p el t).
Proof. unfold handleHotmailNavigation. forwarding. Qed.

Lemma forwards_handleGmailNavigation p el : forwards C (handleGmailNavigation E p el).
Proof. intros w. unfold handleGmailNavigation. apply forwards_session_call. Qed.

#[local] Hint Resolve forwards_handleHotmailNavigation forwards_handleGmailNavigation : js.

Lemma forwards_clickElement d frame t :
  incl (clickElement_context d) C -> forwards C (clickElement E d frame t).
Proof.
  intros Hin. apply incl_cons_inv in Hin as [Hown Hget].
  unfold clickElement. apply forwards_catch.
  - apply forwards_bind; [apply forwards_getElement, Hget|]. forwarding.
  - intros e. apply forwards_handleError, Hown.
Qed.

Lemma forwards_selectOption d v :
  In (None, Some (diagnostics (defaulting "selector" d) ++ [("optionValue"%string, Some v)])) C ->
  forwards C (selectOption E d v).
Proof. intros Hin. unfold selectOption. forwarding. Qed.

Lemma forwards_scrollTo x y : forwards C (scrollTo E x y).
Proof.
  unfold scrollTo. apply forwards_bind; [apply forwards_act|].
  intros _. apply forwards_silent. reflexivity.
Qed.

Lemma forwards_scrollBy dy : forwards C (scrollBy E dy).
Proof.
  unfold scrollBy. apply forwards_bind; [apply forwards_act|].
  intros _. apply forwards_silent. reflexivity.
Qed.

#[local] Hint Resolve forwards_scrollTo forwards_scrollBy : js.

Lemma forwards_scrollToBottomPage_loop n : forwards C (scrollToBottomPage_loop E n).
Proof. induction n; simpl; forwarding. Qed.

Lemma forwards_randomScroll_loop n a b t : forwards C (randomScroll_loop E n a b t).
Proof. induction n; simpl; forwarding. Qed.

Lemma forwards_dwell n i a b t : forwards C (dwell E n i a b t).
Proof. induction n; simpl; forwarding. Qed.

#[local] Hint Resolve forwards_scrollToBottomPage_loop forwards_randomScroll_loop
  forwards_dwell : js.

Lemma forwards_page_evaluate {A} (m : M A) : forwards C m -> forwards C (page_evaluate E m).
Proof. intros H. unfold page_evaluate. forwarding. Qed.

Lemma forwards_scrollToBottomPage : In (None, None) C -> forwards C (scrollToBottomPage E).
Proof.
  intros Hin. unfold scrollToBottomPage. apply forwards_catch; [|forwarding].
  apply forwards_page_evaluate. forwarding.
Qed.

Lemma forwards_randomScroll a b c d : In (None, None) C -> forwards C (randomScroll E a b c d).
Proof.
  intros Hin. unfold randomScroll. apply forwards_catch; forwarding.
Qed.

Lemma forwards_scrollToElement_callback s t a b c d :
  forwards C (scrollToElement_callback E s t a b c d).
Proof. unfold scrollToElement_callback. forwarding. Qed.

Lemma forwards_scrollToElement_of el a b c d o :
  incl ((None, None) :: match el with Some el => checkElement_context el | None => [] end) C ->
  forwards C (scrollToElement_of E el a b c d o).
Proof.
  intros Hin. apply incl_cons_inv in Hin as [Hown Hcheck].
  destruct el as [el|]; simpl.
  - unfold scrollToElement. apply forwards_catch; [|forwarding].
    destruct (normalize _ _), (normalize _ _).
    apply forwards_bind; [forwarding|]. intros t.
    apply forwards_bind; [forwarding|]. intros r.
    apply forwards_bind; [apply forwards_checkElement, Hcheck|]. intros v.
    destruct (value_truthy v).
    + apply forwards_page_evaluate, forwards_scrollToElement_callback.
    + apply forwards_bind; [forwarding|]. intros _. apply forwards_randomScroll, Hown.
  - apply forwards_catch; forwarding.
Qed.

Lemma forwards_fetchDOM : In (None, None) C -> forwards C (fetchDOM E).
Proof. intros Hin. unfold fetchDOM. forwarding. Qed.

Lemma forwards_getAttribute d a :
  incl ((None, Some (diagnostics d ++ [("attribute"%string, Some a)])) :: getElement_context d) C ->
  forwards C (getAttribute E d a).
Proof.
  intros Hin. apply incl_cons_inv in Hin as [Hown Hget].
  unfold getAttribute. apply forwards_catch; [|forwarding].
  apply forwards_bind; [apply forwards_getElement, Hget|]. forwarding.
Qed.

Lemma forwards_settle {A} (empty : A -> bool) (m : M A) :
  forwards C m -> forwards C (settle empty m).
Proof. intros H. unfold settle. forwarding. Qed.

End Contexts.

(** Every report an operation makes carries a tag and a context of its
    [catch] blocks. *)
Lemma forwards_invoke (E : env) (op : operation) :
  lacks_descriptor op = false -> forwards (catch_contexts E op) (invoke E op).
Proof.
  destruct op; simpl; intros Hd;
    repeat match goal with
           | d : option descriptor |- _ => destruct d
           end;
    try discriminate Hd; simpl; apply forwards_settle.
  - unfold typeTextByXpath. apply forwards_catch; [|forwarding].
    apply forwards_typeText. apply incl_tl, incl_refl.
  - apply forwards_keyPress, incl_refl.
  - unfold typeTextBySelector. apply forwards_catch; [|forwarding].
    apply forwards_typeText. apply incl_tl, incl_refl.
  - apply forwards_typeText, incl_refl.
  - unfold clickElementByXpath. apply forwards_catch; [|forwarding].
    apply forwards_clickElement. apply incl_tl, incl_refl.
  - unfold clickElementBySelector. apply forwards_catch; [|forwarding].
    apply forwards_clickElement. apply incl_tl, incl_refl.
  - apply forwards_handleHotmailNavigation.
  - apply forwards_handleGmailNavigation.
  - apply forwards_clickElement, incl_refl.
  - unfold clearInputBySelector. apply forwards_catch; [|forwarding].
    apply forwards_clearInput. apply incl_tl, incl_refl.
  - unfold clearInputByXpath. apply forwards_catch; [|forwarding].
    apply forwards_clearInput, incl_refl.
  - apply forwards_clearInput, incl_refl.
  - apply forwards_selectOption. simpl. tauto.
  - apply forwards_scrollToBottomPage. simpl. tauto.
  - apply forwards_randomScroll. simpl. tauto.
  - match goal with
    | |- forwards _ (scrollToElement E ?el ?a ?b ?c ?d ?o) =>
        apply (forwards_scrollToElement_of E _ (Some el) a b c d o), incl_refl
    end.
  - apply (forwards_scrollToElement_of E _ None maxScrollingTime minScrollingTime
             maxScrollingSpeed minScrollingSpeed offset), incl_refl.
  - apply forwards_fetchDOM. simpl. tauto.
  - unfold checkElementByXpath. apply forwards_catch; [|forwarding].
    apply forwards_checkElement. apply incl_tl, incl_refl.
  - unfold checkElementBySelector. apply forwards_catch; [|forwarding].
    apply forwards_checkElement. apply incl_tl, incl_refl.
  - apply forwards_checkElement, incl_refl.
  - apply forwards_getElement, incl_refl.
  - apply forwards_getAttribute, incl_refl.
Qed.





(** * Further properties *)

(** ** globalHelpers *)

Lemma scaled_range (r : Q) (n : Z) :
  (0 <= r)%Q -> (r < 1)%Q -> 0 < n -> 0 <= scaled r n < n.
Proof.
  intros H0 H1 Hn. unfold scaled.
  assert (Hq : (0 < inject_Z n)%Q) by (change 0%Q with (inject_Z 0); rewrite <- Zlt_Qlt; lia).
  split.
  - change 0 with (Qfloor 0). apply Qfloor_resp_le. nra.
  - rewrite Zlt_Qlt. eapply Qle_lt_trans; [apply Qfloor_le|]. nra.
Qed.

Lemma string_app_cons (c : ascii) (a b : string) :
  (String c a ++ b)%string = String c (a ++ b)%string.
Proof. reflexivity. Qed.

Lemma string_app_nil_l (b : string) : ("" ++ b)%string = b.
Proof. reflexivity. Qed.

Ltac str_simpl := rewrite ?string_app_cons, ?string_app_nil_l; simpl.

Lemma string_length_app (a b : string) :
  String.length (a ++ b)%string = (String.length a + String.length b)%nat.
Proof. induction a as [|c a IH]; str_simpl; [reflexivity | rewrite IH; reflexivity]. Qed.

Lemma string_app_nil_r (a : string) : (a ++ "")%string = a.
Proof. induction a as [|c a IH]; str_simpl; [reflexivity | rewrite IH; reflexivity]. Qed.

Lemma string_app_assoc (a b c : string) : ((a ++ b) ++ c)%string = (a ++ (b ++ c))%string.
Proof. induction a as [|x a IH]; str_simpl; [reflexivity | rewrite IH; reflexivity]. Qed.

Lemma chars_of_app (a b : string) : chars_of (a ++ b)%string = chars_of a ++ chars_of b.
Proof.
  unfold chars_of. induction a as [|c a IH]; str_simpl; [reflexivity | rewrite IH; reflexivity].
Qed.

Lemma chars_of_length (s : string) : length (chars_of s) = String.length s.
Proof. unfold chars_of. induction s as [|c s IH]; simpl; [reflexivity | rewrite IH; reflexivity]. Qed.

Lemma get_chars_of (s : string) (i : nat) : String.get i s = chars_of s !! i.
Proof. revert i. induction s as [|c s IH]; intros [|i]; simpl; auto. Qed.

Lemma charAt_in_range (chars : string) (i : Z) :
  0 <= i < Z.of_nat (String.length chars) ->
  exists c, charAt chars i = String c EmptyString /\ c ∈ chars_of chars.
Proof.
  intros Hi. unfold charAt. destruct (i <? 0) eqn:Hneg; [apply Z.ltb_lt in Hneg; lia|].
  rewrite get_chars_of.
  destruct (chars_of chars !! Z.to_nat i) as [c|] eqn:Hc.
  - exists c. split; [reflexivity|]. eapply list_elem_of_lookup_2; eauto.
  - apply lookup_ge_None in Hc. rewrite chars_of_length in Hc. lia.
Qed.

Lemma js_swap_in_range {A} (l : list A) (i j : nat) :
  (i < length l)%nat -> (j < length l)%nat ->
  exists l', js_swap (Some <$> l) (Z.of_nat i) (Z.of_nat j) = Some <$> l' /\ l' ≡ₚ l.
Proof.
  intros Hi Hj.
  destruct (lookup_lt_is_Some_2 l i Hi) as [x Hx].
  destruct (lookup_lt_is_Some_2 l j Hj) as [y Hy].
  exists (<[j:=x]> (<[i:=y]> l)). split.
  - unfold js_swap, js_get, js_set.
    destruct (Z.of_nat i <? 0) eqn:Hni; [apply Z.ltb_lt in Hni; lia|].
    destruct (Z.of_nat j <? 0) eqn:Hnj; [apply Z.ltb_lt in Hnj; lia|].
    rewrite !Nat2Z.id, !list_lookup_fmap, Hx, Hy. simpl.
    rewrite length_fmap. destruct (Nat.ltb_spec i (length l)); [|lia].
    rewrite length_insert, length_fmap. destruct (Nat.ltb_spec j (length l)); [|lia].
    rewrite !list_fmap_insert. reflexivity.
  - apply Permutation_insert_swap; assumption.
Qed.

Section HelperFacts.

Variable E : env.
Hypothesis draws_in_unit : unit_draws E.

Lemma randomString_loop_spec (chars : string) (n : nat) :
  chars <> EmptyString ->
  forall result w,
  exists s,
    randomString_loop E chars n result w
    = (Ret (result ++ s)%string,
       World (trace w) (raised w) (handled w) (calls w) (draws w + n) (reads w) (scrollY w))
    /\ String.length s = n
    /\ Forall (fun c => c ∈ chars_of chars) (chars_of s).
Proof.
  intros Hne. induction n as [|n IH]; intros result w.
  - exists EmptyString. simpl. unfold ret. rewrite Nat.add_0_r.
    rewrite string_app_nil_r.
    destruct w; repeat split; constructor.
  - simpl. unfold bind, Math_random.
    destruct (draws_in_unit (draws w)) as [H0 H1].
    destruct (charAt_in_range chars (scaled (random E (draws w)) (Z.of_nat (String.length chars))))
      as (c & Hc & Hin).
    { apply scaled_range; auto. destruct chars; [congruence|simpl; lia]. }
    rewrite Hc.
    destruct (IH (result ++ String c "")%string (next_draw w)) as (s & Hs & Hl & Hf).
    exists (String c s). rewrite Hs. simpl. split; [|split].
    + f_equal; [|f_equal; lia].
      f_equal. apply string_app_assoc.
    + congruence.
    + constructor; assumption.
Qed.

Lemma randomNumber_draw (a b : Z) (w : world) :
  exists n, randomNumber E a b w = (Ret n, next_draw w) /\ Z.min a b <= n <= Z.max a b.
Proof.
  destruct (draws_in_unit (draws w)) as [H0 H1].
  exists (randomNumber_at (random E (draws w)) a b).
  split; [reflexivity | apply randomNumber_at_range; assumption].
Qed.

(** X1. [randomNumber(min, max)] consumes one draw of [Math.random()] and
    returns an integer between the smaller and the larger of its two
    arguments, the same one for the arguments in either order. *)
Theorem randomNumber_between (a b : Z) (w : world) :
  exists n,
    randomNumber E a b w = (Ret n, next_draw w)
    /\ randomNumber E b a w = (Ret n, next_draw w)
    /\ Z.min a b <= n <= Z.max a b.
Proof.
  destruct (draws_in_unit (draws w)) as [H0 H1].
  exists (randomNumber_at (random E (draws w)) a b).
  unfold randomNumber, bind, Math_random, ret. simpl.
  split; [reflexivity|]. split; [rewrite (randomNumber_at_swap _ b a); reflexivity|].
  apply randomNumber_at_range; assumption.
Qed.

(** X2. [randomString(length)] returns a string of exactly [length]
    characters (none for a negative length), each of them a lower-case
    letter or a digit; it consumes one draw per character and neither acts
    on the page nor throws. *)
Theorem randomString_length_alphabet (length : Z) (w : world) :
  exists s w',
    randomString E length w = (Ret s, w')
    /\ String.length s = Z.to_nat length
    /\ Forall (fun c => c ∈ chars_of alphanumeric) (chars_of s)
    /\ draws w' = (draws w + Z.to_nat length)%nat
    /\ trace w' = trace w /\ raised w' = raised w.
Proof.
  unfold randomString.
  destruct (randomString_loop_spec alphanumeric (Z.to_nat length) ltac:(discriminate) "" w)
    as (s & Hs & Hl & Hf).
  exists s. eexists. rewrite Hs. simpl. repeat split; assumption.
Qed.

(** X3. For bounds that are not negative (12 and 18 when they are left out),
    [generateStrongPassword] returns a password whose length lies between
    the smaller and the larger bound, in either order, made of characters
    of its alphabet only.  Nothing makes it contain a character of each
    class. *)
Theorem generateStrongPassword_length (minLength maxLength : option Z) (w : world) :
  let lo := Z.min (default 12 minLength) (default 18 maxLength) in
  let hi := Z.max (default 12 minLength) (default 18 maxLength) in
  0 <= lo ->
  exists s w',
    generateStrongPassword E minLength maxLength w = (Ret s, w')
    /\ lo <= Z.of_nat (String.length s) <= hi
    /\ Forall (fun c => c ∈ chars_of password_chars) (chars_of s)
    /\ draws w' = (draws w + 1 + String.length s)%nat.
Proof.
  intros lo hi Hpos. unfold generateStrongPassword.
  destruct (randomNumber_draw (default 12 minLength) (default 18 maxLength) w) as (n & Hn & Hr).
  unfold bind. rewrite Hn.
  destruct (randomString_loop_spec password_chars (Z.to_nat n) ltac:(discriminate) ""
              (next_draw w)) as (s & Hs & Hl & Hf).
  exists s. eexists. rewrite Hs.
  split; [reflexivity|]. split; [subst lo hi; rewrite Hl; lia|].
  split; [assumption | simpl; lia].
Qed.

Lemma getRandomFromArray_pick {A} (array : list A) (w : world) :
  array <> [] ->
  exists x, getRandomFromArray E array w = (Ret (Some x), next_draw w) /\ x ∈ array.
Proof.
  intros Hne. unfold getRandomFromArray. rewrite bool_decide_eq_false_2 by assumption.
  destruct (draws_in_unit (draws w)) as [H0 H1].
  unfold bind, Math_random, ret. simpl.
  pose proof (scaled_range (random E (draws w)) (Z.of_nat (length array)) H0 H1) as Hr.
  assert (0 < Z.of_nat (length array)) by (destruct array; [congruence | simpl; lia]).
  specialize (Hr ltac:(assumption)).
  unfold js_get. destruct (_ <? 0) eqn:Hneg; [apply Z.ltb_lt in Hneg; lia|].
  rewrite list_lookup_fmap.
  destruct (array !! Z.to_nat (scaled (random E (draws w)) (Z.of_nat (length array))))
    as [x|] eqn:Hx.
  - exists x. split; [reflexivity|]. eapply list_elem_of_lookup_2; eauto.
  - apply lookup_ge_None in Hx. lia.
Qed.

(** X4. [getRandomFromArray] throws [Input must be a non-empty array] for
    the empty array and otherwise returns, for one draw, an element of the
    array (never [undefined]). *)
Theorem getRandomFromArray_member {A} (w : world) :
  getRandomFromArray E (@nil A) w
  = (Throw (Error "Input must be a non-empty array"),
     note_raised (Error "Input must be a non-empty array") w)
  /\ forall (first : A) (others : list A),
       exists x,
         getRandomFromArray E (first :: others) w = (Ret (Some x), next_draw w)
         /\ x ∈ first :: others.
Proof.
  split; [reflexivity|].
  intros first others. apply getRandomFromArray_pick. discriminate.
Qed.

Lemma shuffle_loop_spec {A} (i : nat) :
  forall (l : list A) w,
    (i < length l)%nat \/ i = O ->
    exists l' w',
      shuffle_loop E i (Some <$> l) w = (Ret (Some <$> l'), w')
      /\ l' ≡ₚ l /\ draws w' = (draws w + i)%nat.
Proof.
  induction i as [|i IH]; intros l w Hi.
  - exists l, w. split; [reflexivity|]. split; [reflexivity | lia].
  - destruct Hi as [Hi|]; [|discriminate]. simpl. unfold bind, Math_random.
    destruct (draws_in_unit (draws w)) as [H0 H1].
    set (j := scaled (random E (draws w)) (Z.of_nat (S i) + 1)).
    assert (Hj : 0 <= j < Z.of_nat (S i) + 1) by (apply scaled_range; auto; lia).
    destruct (js_swap_in_range l (S i) (Z.to_nat j) Hi ltac:(lia)) as (l1 & Hs & Hp).
    rewrite Z2Nat.id in Hs by lia. rewrite Hs.
    destruct (IH l1 (next_draw w)) as (l' & w' & Hl & Hp' & Hd).
    { left. rewrite Hp. lia. }
    exists l', w'. split; [exact Hl|]. split; [rewrite Hp'; exact Hp|].
    rewrite Hd. simpl. lia.
Qed.

(** X5. [shuffleArrayHelper] returns a permutation of its argument: the
    same elements with the same multiplicities, no slot left [undefined],
    for [length - 1] draws (none for the empty array). *)
Theorem shuffleArrayHelper_permutes {A} (array : list A) (w : world) :
  exists shuffled w',
    shuffleArrayHelper E array w = (Ret (Some <$> shuffled), w')
    /\ shuffled ≡ₚ array
    /\ length shuffled = length array
    /\ draws w' = (draws w + (length array - 1))%nat.
Proof.
  unfold shuffleArrayHelper.
  destruct (shuffle_loop_spec (length (Some <$> array) - 1) array w) as (l & w' & Hl & Hp & Hd).
  { rewrite length_fmap. destruct array; simpl; [right; reflexivity | left; lia]. }
  exists l, w'. split; [exact Hl|]. split; [exact Hp|]. split; [rewrite Hp; reflexivity|].
  rewrite Hd, length_fmap. reflexivity.
Qed.

End HelperFacts.

Lemma randomNumber_between_witness :
  unit_draws demo
  /\ exists n,
       randomNumber demo 6 3 fresh = (Ret n, next_draw fresh)
       /\ randomNumber demo 3 6 fresh = (Ret n, next_draw fresh)
       /\ Z.min 6 3 <= n <= Z.max 6 3.
Proof.
  assert (H : unit_draws demo) by (intros k; split; vm_compute; [discriminate | reflexivity]).
  split; [exact H | exact (randomNumber_between demo H 6 3 fresh)].
Defined.

Lemma randomString_length_alphabet_witness :
  unit_draws demo
  /\ exists s w',
       randomString demo 8 fresh = (Ret s, w')
       /\ String.length s = Z.to_nat 8
       /\ Forall (fun c => c ∈ chars_of alphanumeric) (chars_of s)
       /\ draws w' = (draws fresh + Z.to_nat 8)%nat
       /\ trace w' = trace fresh /\ raised w' = raised fresh.
Proof.
  assert (H : unit_draws demo) by (intros k; split; vm_compute; [discriminate | reflexivity]).
  split; [exact H | exact (randomString_length_alphabet demo H 8 fresh)].
Defined.

Lemma generateStrongPassword_length_witness :
  unit_draws demo /\ 0 <= Z.min 12 18
  /\ exists s w',
       generateStrongPassword demo None None fresh = (Ret s, w')
       /\ Z.min 12 18 <= Z.of_nat (String.length s) <= Z.max 12 18
       /\ Forall (fun c => c ∈ chars_of password_chars) (chars_of s)
       /\ draws w' = (draws fresh + 1 + String.length s)%nat.
Proof.
  assert (H : unit_draws demo) by (intros k; split; vm_compute; [discriminate | reflexivity]).
  assert (H0 : 0 <= Z.min 12 18) by lia.
  split; [exact H|]. split; [exact H0|].
  exact (generateStrongPassword_length demo H None None fresh H0).
Defined.

Lemma getRandomFromArray_member_witness :
  unit_draws demo
  /\ exists x,
       getRandomFromArray demo [10; 20; 30] fresh = (Ret (Some x), next_draw fresh)
       /\ x ∈ [10; 20; 30].
Proof.
  assert (H : unit_draws demo) by (intros k; split; vm_compute; [discriminate | reflexivity]).
  split; [exact H|].
  exact (proj2 (getRandomFromArray_member demo H fresh) 10 [20; 30]).
Defined.

Lemma shuffleArrayHelper_permutes_witness :
  unit_draws demo
  /\ exists shuffled w',
       shuffleArrayHelper demo [1; 2; 3] fresh = (Ret (Some <$> shuffled), w')
       /\ shuffled ≡ₚ [1; 2; 3]
       /\ length shuffled = length [1; 2; 3]
       /\ draws w' = (draws fresh + (length [1; 2; 3] - 1))%nat.
Proof.
  assert (H : unit_draws demo) by (intros k; split; vm_compute; [discriminate | reflexivity]).
  split; [exact H | exact (shuffleArrayHelper_permutes demo H [1; 2; 3] fresh)].
Defined.

Lemma split_whole (sep : ascii) (s : string) : sep ∉ chars_of s -> split sep s = [s].
Proof.
  induction s as [|c s IH]; intros Hs; simpl; [reflexivity|].
  unfold chars_of in Hs. simpl in Hs. apply not_elem_of_cons in Hs as [Hc Hs].
  destruct (Ascii.eqb_spec c sep) as [->|_]; [congruence|].
  rewrite (IH Hs). reflexivity.
Qed.

Lemma split_at (sep : ascii) (a b : string) :
  sep ∉ chars_of a -> split sep (a ++ String sep b) = a :: split sep b.
Proof.
  induction a as [|c a IH]; intros Ha; str_simpl.
  - rewrite Ascii.eqb_refl. reflexivity.
  - unfold chars_of in Ha. simpl in Ha. apply not_elem_of_cons in Ha as [Hc Ha].
    destruct (Ascii.eqb_spec c sep) as [->|_]; [congruence|].
    rewrite (IH Ha). reflexivity.
Qed.

Lemma filler_length (c : ascii) (n : nat) (rest : string) :
  String.length (filler (String c "") n rest) = n.
Proof.
  revert rest. induction n as [|n IH]; intros rest; simpl; [reflexivity|].
  destruct rest; simpl; rewrite IH; reflexivity.
Qed.

Lemma filler_chars (c : ascii) (n : nat) (rest : string) :
  Forall (fun x => x = c) (chars_of rest) ->
  Forall (fun x => x = c) (chars_of (filler (String c "") n rest)).
Proof.
  revert rest. induction n as [|n IH]; intros rest Hr; simpl; [constructor|].
  destruct rest as [|x rest]; simpl.
  - constructor; [reflexivity|]. apply IH. constructor.
  - unfold chars_of in Hr. simpl in Hr. inversion Hr; subst.
    constructor; [reflexivity|]. apply IH. assumption.
Qed.

Lemma padStart_length (n : nat) (c : ascii) (s : string) :
  String.length (padStart n (String c "") s) = Nat.max n (String.length s).
Proof. unfold padStart. rewrite string_length_app, filler_length. lia. Qed.

Lemma padStart_chars (n : nat) (c : ascii) (s : string) :
  chars_of (padStart n (String c "") s) = replicate (n - String.length s) c ++ chars_of s.
Proof.
  unfold padStart. rewrite chars_of_app. f_equal.
  pose proof (filler_chars c (n - String.length s) (String c "")
                ltac:(repeat constructor)) as Hf.
  pose proof (filler_length c (n - String.length s) (String c "")) as Hl.
  revert Hf Hl. generalize (filler (String c "") (n - String.length s) (String c "")).
  generalize (n - String.length s)%nat. clear.
  intros k f. revert k. induction f as [|x f IH]; intros k Hf Hl; simpl in *.
  - subst k. reflexivity.
  - destruct k; [discriminate|]. unfold chars_of in *. simpl in *. inversion Hf; subst.
    simpl. f_equal. apply IH; [assumption | congruence].
Qed.

(** X6. When none of the three fields contains a dash, the result of
    [formatBirthday] splits at its dashes into exactly the day and the month,
    each padded on the left with zeros to two characters (longer fields are
    kept whole), and the year as it was given. *)
Theorem formatBirthday_fields (day month year : string) :
  let dash := "-"%char in
  dash ∉ chars_of day -> dash ∉ chars_of month -> dash ∉ chars_of year ->
  split dash (formatBirthday day month year)
  = [padStart 2 "0" day; padStart 2 "0" month; year]
  /\ chars_of (padStart 2 "0" day) = replicate (2 - String.length day) "0"%char ++ chars_of day
  /\ chars_of (padStart 2 "0" month)
     = replicate (2 - String.length month) "0"%char ++ chars_of month.
Proof.
  intros dash Hd Hm Hy.
  assert (Hpad : forall s, dash ∉ chars_of s -> dash ∉ chars_of (padStart 2 "0" s)).
  { intros s Hs. rewrite (padStart_chars 2 "0" s).
    rewrite elem_of_app. intros [Hin|Hin]; [|contradiction].
    apply elem_of_replicate in Hin as [Hin _]. discriminate. }
  split; [|split; apply padStart_chars].
  unfold formatBirthday. rewrite !string_app_cons, !string_app_nil_l.
  rewrite (split_at dash _ _ (Hpad day Hd)), (split_at dash _ _ (Hpad month Hm)),
    (split_whole dash year Hy).
  reflexivity.
Qed.

Lemma formatBirthday_fields_witness :
  split "-" (formatBirthday "7" "11" "1990") = ["07"; "11"; "1990"]%string.
Proof.
  assert (H1 : "-"%char ∉ chars_of "7") by (unfold chars_of; simpl;
        repeat (apply not_elem_of_cons; split; [discriminate|]); apply not_elem_of_nil).
  assert (H2 : "-"%char ∉ chars_of "11") by (unfold chars_of; simpl;
        repeat (apply not_elem_of_cons; split; [discriminate|]); apply not_elem_of_nil).
  assert (H3 : "-"%char ∉ chars_of "1990") by (unfold chars_of; simpl;
        repeat (apply not_elem_of_cons; split; [discriminate|]); apply not_elem_of_nil).
  exact (proj1 (formatBirthday_fields "7" "11" "1990" H1 H2 H3)).
Defined.

Lemma occursb_cons (key : string) (c : ascii) (s : string) :
  occursb key (String c s) = false ->
  String.prefix key (String c s) = false /\ occursb key s = false.
Proof. simpl occursb. intros H. apply orb_false_iff in H. exact H. Qed.

Lemma replaceAll_from_absent (key value : string) (s : string) :
  occursb key s = false ->
  forall before, replaceAll_from key value O before s = s.
Proof.
  induction s as [|c s IH]; intros Ho before; [reflexivity|].
  apply occursb_cons in Ho as [Hp Ho].
  cbn [replaceAll_from]. rewrite Hp. rewrite (IH Ho). reflexivity.
Qed.



Lemma padded_width (w : nat) (bound : nat) :
  forallb (fun n => (String.length (pretty (Z.of_nat n)) <=? w)%nat) (seq 0 bound) = true ->
  forall n, 0 <= n < Z.of_nat bound ->
    String.length (padStart w "0" (String_of n)) = w.
Proof.
  intros Hall n Hn.
  rewrite forallb_forall in Hall. specialize (Hall (Z.to_nat n)).
  rewrite Z2Nat.id in Hall by lia.
  assert (Hin : In (Z.to_nat n) (seq 0 bound)) by (apply in_seq; lia).
  apply Hall, Nat.leb_le in Hin.
  rewrite padStart_length. unfold String_of. lia.
Qed.



(** ** The action layer: typing *)

Lemma typed_app (a b : list action) : typed (a ++ b) = typed a ++ typed b.
Proof. apply omap_app. Qed.

Lemma split_nonempty (sep : ascii) (s : string) : split sep s <> [].
Proof.
  induction s as [|c s IH]; simpl; [discriminate|].
  destruct (Ascii.eqb c sep); [discriminate|].
  destruct (split sep s); [contradiction | discriminate].
Qed.

(** The lines of a text, put end to end, are its characters without the
    separators. *)
Lemma split_chars (sep : ascii) (s : string) :
  concat (chars_of <$> split sep s) = filter (fun c => c <> sep) (chars_of s).
Proof.
  induction s as [|c s IH]; simpl; [reflexivity|].
  unfold chars_of at 2. simpl. fold (chars_of s). rewrite filter_cons.
  destruct (Ascii.eqb_spec c sep) as [->|Hne].
  - rewrite decide_False by (intros H; apply H; reflexivity). simpl. exact IH.
  - rewrite decide_True by assumption.
    pose proof (split_nonempty sep s) as Hn.
    destruct (split sep s) as [|line more]; [contradiction|].
    simpl in *. unfold chars_of at 1. simpl. fold (chars_of line). f_equal. exact IH.
Qed.

(** A text has one line more than it has separators. *)
Lemma split_length (sep : ascii) (s : string) :
  length (split sep s) = S (length (filter (fun c => c = sep) (chars_of s))).
Proof.
  induction s as [|c s IH]; simpl; [reflexivity|].
  unfold chars_of. simpl. fold (chars_of s). rewrite filter_cons.
  destruct (Ascii.eqb_spec c sep) as [->|Hne].
  - rewrite decide_True by reflexivity. simpl. rewrite IH. reflexivity.
  - rewrite decide_False by assumption.
    pose proof (split_nonempty sep s) as Hn.
    destruct (split sep s) as [|line more]; [contradiction|].
    simpl in *. exact IH.
Qed.

Lemma last_snoc_inv {A} (l : list A) (x : A) :
  last l = Some x -> exists init, l = init ++ [x].
Proof.
  intros H. destruct l as [|a l] using rev_ind; [discriminate|].
  rewrite last_snoc in H. injection H as ->. eauto.
Qed.

Lemma filter_all_length {A} (P : A -> Prop) `{forall x, Decision (P x)} (l : list A) :
  length (filter P l) = length l <-> Forall P l.
Proof.
  induction l as [|a l IH]; simpl; [split; [constructor | reflexivity]|].
  rewrite filter_cons. pose proof (length_filter P l) as Hle. case_decide; simpl.
  - rewrite Forall_cons. split.
    + intros Hl. split; [assumption|]. apply IH. lia.
    + intros [_ Hl]. f_equal. apply IH, Hl.
  - split; [lia|]. intros Hl. inversion Hl. contradiction.
Qed.

Section Typing.

Variable E : env.
Hypothesis draws_in_unit : unit_draws E.
Hypothesis no_failure : forall k, fails E k = None.

Lemma type_line_spec (h : handle) (line : string) :
  forall w, exists l w',
    type_line E h line w = (Ret tt, w')
    /\ trace w' = trace w ++ l
    /\ typed l = chars_of line
    /\ Forall (typing_on h) l
    /\ handled w' = handled w.
Proof.
  induction line as [|c line IH]; intros w; simpl.
  - exists [], w. rewrite app_nil_r. repeat split; constructor.
  - run_io no_failure.
    destruct (draws_in_unit (draws w)) as [H0 H1].
    pose proof (randomNumber_at_range _ 1 2 H0 H1) as Hr.
    destruct (focused E (calls w)); run_io no_failure.
    + match goal with
      | |- context [type_line E h line ?x] =>
          destruct (IH x) as (l & w' & -> & Ht & Hty & Hf & Hh)
      end.
      eexists (_ :: l), w'. split; [reflexivity|]. rewrite Ht. simpl. rewrite <- app_assoc. simpl.
      split; [reflexivity|]. split; [unfold chars_of; simpl; f_equal; exact Hty|].
      split; [|assumption].
      constructor; [|exact Hf]. split; [reflexivity|]. simpl in Hr. lia.
    + match goal with
      | |- context [type_line E h line ?x] =>
          destruct (IH x) as (l & w' & -> & Ht & Hty & Hf & Hh)
      end.
      eexists (_ :: _ :: l), w'. split; [reflexivity|]. rewrite Ht. simpl.
      rewrite <- !app_assoc. simpl.
      split; [reflexivity|]. split; [unfold chars_of; simpl; f_equal; exact Hty|].
      split; [|assumption].
      constructor; [reflexivity|]. constructor; [|exact Hf]. split; [reflexivity|].
      simpl in Hr. lia.
Qed.

Lemma type_lines_spec (h : handle) (final : string) (lines : list string) :
  forall w, exists l w',
    type_lines E h final lines w = (Ret tt, w')
    /\ trace w' = trace w ++ l
    /\ typed l = concat (chars_of <$> lines)
    /\ Forall (typing_on h) l
    /\ handled w' = handled w.
Proof.
  induction lines as [|line lines IH]; intros w; simpl.
  - exists [], w. rewrite app_nil_r. repeat split; constructor.
  - unfold bind. destruct (type_line_spec h line w) as (l1 & w1 & -> & Ht1 & Hty1 & Hf1 & Hh1).
    destruct (negb (line =? final)%string); run_io no_failure.
    + match goal with
      | |- context [type_lines E h final lines ?x] =>
          destruct (IH x) as (l & w' & -> & Ht & Hty & Hf & Hh)
      end.
      exists (l1 ++ Press h "Enter" :: l), w'. split; [reflexivity|].
      simpl in *. rewrite Ht, Ht1, <- !app_assoc. simpl.
      split; [reflexivity|]. split.
      { rewrite typed_app, Hty1. change (typed (Press h "Enter" :: l)) with (typed l).
        rewrite Hty. reflexivity. }
      split; [|congruence].
      apply Forall_app. split; [exact Hf1|]. constructor; [reflexivity | exact Hf].
    + destruct (IH w1) as (l & w' & -> & Ht & Hty & Hf & Hh).
      exists (l1 ++ l), w'. split; [reflexivity|].
      rewrite Ht, Ht1, <- !app_assoc.
      split; [reflexivity|]. split; [rewrite typed_app, Hty1, Hty; reflexivity|].
      split; [|congruence].
      apply Forall_app. split; assumption.
Qed.

(** X9. When the element is found and no primitive throws, [typeText]
    focuses the element and then types every character of the text other
    than the line breaks, in order and once each, with a delay of 1 or 2 ms;
    whatever it does, it does to the element it resolved, and it reports no
    error. *)
Theorem typeText_types_every_character (d : descriptor) (text : string)
    (frame : option page_ref) (w : world) (h : handle) :
  (getElement E (defaulting "selector" d) (Some (default (page E) frame)) w).1
  = Ret (ElementHandle h) ->
  exists l w',
    typeText E d (Some text) frame w = (Ret tt, w')
    /\ trace w' = trace w ++ Focus h :: l
    /\ typed l = filter (fun c => c <> newline) (chars_of text)
    /\ Forall (typing_on h) l
    /\ handled w'
       = handled (getElement E (defaulting "selector" d) (Some (default (page E) frame)) w).2.
Proof.
  intros Hg.
  pose proof (getElement_keeps E (defaulting "selector" d) (Some (default (page E) frame)) w)
    as [Ht0 _].
  unfold typeText. unfold bind at 1. unfold try_catch at 1. unfold bind at 1. unfold getPage.
  destruct (getElement E (defaulting "selector" d) (Some (default (page E) frame)) w)
    as [o w0]. simpl in Hg, Ht0. subst o. simpl.
  run_io no_failure.
  match goal with
  | |- context [type_lines E h ?f ?ls ?x] =>
      destruct (type_lines_spec h f ls x) as (l & w' & Hl & Ht & Hty & Hf & Hh)
  end.
  rewrite Hl. exists l, w'. split; [reflexivity|].
  simpl in Ht. rewrite Ht, Ht0, <- app_assoc. simpl.
  split; [reflexivity|]. split; [|split; [exact Hf | exact Hh]].
  rewrite Hty. apply split_chars.
Qed.

(** X10. When the element is found and no primitive throws, [typeText]
    presses Enter once for each line whose text differs from the text of
    the last line.  This is never more than the number of line breaks, and
    it is the number of line breaks exactly when no earlier line has the
    text of the last one. *)
Theorem typeText_commit_count (d : descriptor) (text : string)
    (frame : option page_ref) (w : world) (h : handle) :
  (getElement E (defaulting "selector" d) (Some (default (page E) frame)) w).1
  = Ret (ElementHandle h) ->
  let lines := split newline text in
  let final := default EmptyString (last lines) in
  let presses := length (filter (fun line => line <> final) lines) in
  let breaks := length (filter (fun c => c = newline) (chars_of text)) in
  commits (trace (typeText E d (Some text) frame w).2) = (commits (trace w) + presses)%nat
  /\ (presses <= breaks)%nat
  /\ (presses = breaks <-> Forall (fun line => line <> final) (removelast lines)).
Proof.
  intros Hg lines final presses breaks.
  assert (Hlast : exists init, lines = init ++ [final]).
  { destruct (last lines) as [x|] eqn:Hx.
    - apply last_snoc_inv in Hx. exact Hx.
    - apply last_None in Hx. exfalso. exact (split_nonempty newline text Hx). }
  destruct Hlast as (init & Hinit).
  assert (Hp : presses = length (filter (fun line => line <> final) init)).
  { subst presses. rewrite Hinit, filter_app, length_app, filter_cons.
    rewrite decide_False by (intros H; apply H; reflexivity). simpl. lia. }
  assert (Hb : breaks = length init).
  { pose proof (split_length newline text) as Hs. fold lines in Hs.
    rewrite Hinit, length_app in Hs. simpl in Hs. subst breaks. lia. }
  split; [|split].
  - pose proof (getElement_keeps E (defaulting "selector" d) (Some (default (page E) frame)) w)
      as [Ht0 _].
    unfold typeText. unfold bind at 1. unfold try_catch at 1. unfold bind at 1. unfold getPage.
    destruct (getElement E (defaulting "selector" d) (Some (default (page E) frame)) w)
      as [o w0]. simpl in Hg, Ht0. subst o. simpl.
    run_io no_failure.
    match goal with
    | |- context [type_lines E h ?f ?ls ?x] =>
        destruct (type_lines_commits E h f ls no_failure x) as (w' & Hl & Hc)
    end.
    rewrite Hl. simpl. rewrite Hc. simpl. rewrite commits_snoc, Ht0. simpl.
    subst presses lines final. lia.
  - rewrite Hp, Hb. apply length_filter.
  - rewrite Hp, Hb, Hinit, removelast_last. apply filter_all_length.
Qed.

End Typing.

Lemma typeText_types_every_character_witness :
  unit_draws demo /\ (forall k, fails demo k = None)
  /\ exists l w',
       typeText demo (Descriptor "#box" None) (Some "ab") None fresh = (Ret tt, w')
       /\ trace w' = trace fresh ++ Focus 7%nat :: l
       /\ typed l = ["a"; "b"]%char.
Proof.
  assert (H : unit_draws demo) by (intros k; split; vm_compute; [discriminate | reflexivity]).
  assert (Hf : forall k, fails demo k = None) by reflexivity.
  assert (Hg : (getElement demo (defaulting "selector" (Descriptor "#box" None))
                  (Some (default (page demo) None)) fresh).1 = Ret (ElementHandle 7%nat))
    by (vm_compute; reflexivity).
  split; [exact H|]. split; [exact Hf|].
  destruct (typeText_types_every_character demo H Hf (Descriptor "#box" None) "ab" None fresh
              7%nat Hg) as (l & w' & Hr & Ht & Hty & _).
  exists l, w'. split; [exact Hr|]. split; [exact Ht | exact Hty].
Defined.

Lemma typeText_commit_count_witness :
  (forall k, fails demo k = None)
  /\ commits (trace (typeText demo (Descriptor "#box" None)
                       (Some (String "a" (String newline "b"))) None fresh).2)
     = (commits (trace fresh) + 1)%nat.
Proof.
  assert (Hf : forall k, fails demo k = None) by reflexivity.
  assert (Hg : (getElement demo (defaulting "selector" (Descriptor "#box" None))
                  (Some (default (page demo) None)) fresh).1 = Ret (ElementHandle 7%nat))
    by (vm_compute; reflexivity).
  split; [exact Hf|].
  exact (proj1 (typeText_commit_count demo Hf (Descriptor "#box" None)
                  (String "a" (String newline "b")) None fresh 7%nat Hg)).
Defined.

(** ** The action layer: resolving the element *)

Section Resolution.

Variable E : env.

Lemma getElement_frame (d : descriptor) (frame : option page_ref) :
  getElement E d (Some (default (page E) frame)) = getElement E d frame.
Proof. reflexivity. Qed.

Lemma session_call_trace (s : session) (w : world) :
  trace (session_call E s w).2 = trace w ++ api (exec s (navigation E)).
Proof. unfold session_call. destruct (pc (exec s (navigation E))); reflexivity. Qed.

Lemma caught_trace (body : M unit) tag context (w : world) :
  trace (try_catch body (fun error => handleError error tag context) w).2 = trace (body w).2.
Proof. unfold try_catch. destruct (body w) as [[a|e|] w']; reflexivity. Qed.

Lemma caught_returns (body : M unit) tag context (w : world) (e : error) :
  (try_catch body (fun error => handleError error tag context) w).1 <> Throw e.
Proof. unfold try_catch. destruct (body w) as [[a|e'|] w']; discriminate. Qed.

(** X11. When what [getElement] returns is not an element handle, [typeText],
    [keyPress] and [clearInput] do nothing to the page: they forward one
    error to [handleError] (the not-found error for [null] or [undefined],
    a type error for the collection of a bulk kind) and return. *)
Theorem unusable_element_is_reported (sel kind : string) (frame : option page_ref)
    (text : option string) (keyButton : string) (v : element) (w : world) :
  let d := Descriptor sel (Some kind) in
  let found := (getElement E d frame w).2 in
  let outcome (name : string) tag context (w1 : world) :=
    (Ret tt, note_handled (Report (unusable E d name v) tag context)
               (note_raised (unusable E d name v) w1)) in
  (getElement E d frame w).1 = Ret v ->
  is_handle v = false ->
  trace found = trace w
  /\ typeText E d text frame w
     = outcome "focus"%string None
         (Some (diagnostics d ++ [("text"%string, text)])) found
  /\ clearInput E d frame w
     = outcome "click"%string None (Some (diagnostics d))
         (if truthy v then next_draw found else found)
  /\ (frame = None ->
      keyPress E d keyButton w = outcome "focus"%string (Some "keyPress"%string) None found).
Proof.
  intros d found outcome Hg Hv.
  split; [apply getElement_keeps|].
  split; [|split; [|intros ->]].
  - unfold typeText. change (defaulting "selector" d) with d.
    unfold getPage. rewrite getElement_frame.
    unfold bind at 1. unfold try_catch at 1. unfold bind at 1.
    subst found outcome. destruct (getElement E d frame w) as [o w1]. simpl in Hg. subst o.
    unfold unusable. destruct v; try discriminate Hv; reflexivity.
  - unfold clearInput. change (defaulting (types_selector E) d) with d.
    unfold try_catch, bind.
    subst found outcome. destruct (getElement E d frame w) as [o w1]. simpl in Hg. subst o.
    unfold unusable. destruct v; try discriminate Hv; reflexivity.
  - unfold keyPress. change (defaulting "selector" d) with d.
    unfold try_catch, bind.
    subst found outcome. destruct (getElement E d None w) as [o w1]. simpl in Hg. subst o.
    unfold unusable. destruct v; try discriminate Hv; reflexivity.
Qed.

(** X12. [clickElement] clicks only for the providers [hotmail] and [gmail]:
    for any other value of [utilities.isp] it resolves the element and
    returns without a click, a listener or a report of its own, whether or
    not the element exists only deciding if the not-found error is
    forwarded. *)
Theorem clickElement_other_provider (d : descriptor) (frame : option page_ref)
    (SETTLE_TIMEOUT : option Z) (w : world) :
  isp E <> "hotmail"%string -> isp E <> "gmail"%string ->
  let d' := defaulting "selector" d in
  let found := getElement E d' frame w in
  trace (clickElement E d frame SETTLE_TIMEOUT w).2 = trace w
  /\ forall v, found.1 = Ret v ->
       clickElement E d frame SETTLE_TIMEOUT w
       = if truthy v then (Ret tt, found.2)
         else (Ret tt,
               note_handled (Report (not_found E (kind_of d') (selector d')) None
                                    (Some (diagnostics d')))
                 (note_raised (not_found E (kind_of d') (selector d')) found.2)).
Proof.
  intros Hh Hg d' found.
  apply String.eqb_neq in Hh, Hg.
  pose proof (getElement_keeps E d' frame w) as [Ht _].
  pose proof (total_getElement E d' frame) as Htot.
  unfold clickElement. fold d'. unfold getPage. rewrite getElement_frame.
  unfold try_catch, bind. rewrite Hh, Hg. subst found.
  destruct (getElement E d' frame w) as [o w1] eqn:Hget. simpl in Ht.
  split.
  - destruct o as [v| |]; [destruct (truthy v)| |]; simpl; assumption.
  - intros v Hv. simpl in Hv. subst o. destruct (truthy v); reflexivity.
Qed.

(** X13. For the providers [hotmail] and [gmail] and an element that is
    found, what [clickElement] does to the page starts with attaching the
    navigation listener, then the click on the resolved element; neither is
    repeated, whatever callbacks the event loop runs, and [clickElement]
    does not throw. *)
Theorem clickElement_listens_then_clicks (d : descriptor) (frame : option page_ref)
    (SETTLE_TIMEOUT : option Z) (w : world) (h : handle) :
  isp E = "hotmail"%string \/ isp E = "gmail"%string ->
  (getElement E (defaulting "selector" d) frame w).1 = Ret (ElementHandle h) ->
  exists rest,
    trace (clickElement E d frame SETTLE_TIMEOUT w).2
    = trace w ++ PageOn :: Click h None :: rest
    /\ forallb (fun a => negb (arming a)) rest = true
    /\ (forall e, (clickElement E d frame SETTLE_TIMEOUT w).1 <> Throw e).
Proof.
  intros Hisp Hg.
  pose proof (getElement_keeps E (defaulting "selector" d) frame w) as [Ht _].
  unfold clickElement. unfold getPage. rewrite getElement_frame.
  unfold try_catch, bind.
  destruct (getElement E (defaulting "selector" d) frame w) as [o w1]. simpl in Hg, Ht.
  subst o. cbn [truthy negb].
  assert (Hs : forall m settle t0 (w0 : world),
             trace w0 = trace w ->
             exists rest,
               trace (try_catch (session_call E (start m settle t0 (ElementHandle h)))
                        (fun error =>
                           handleError error None
                             (Some (diagnostics (defaulting "selector" d)))) w0).2
               = trace w ++ PageOn :: Click h None :: rest
               /\ forallb (fun a => negb (arming a)) rest = true
               /\ forall e,
                    (try_catch (session_call E (start m settle t0 (ElementHandle h)))
                       (fun error =>
                          handleError error None
                            (Some (diagnostics (defaulting "selector" d)))) w0).1
                    <> Throw e).
  { intros m settle t0 w0 Hw0.
    destruct (exec_armed h _ (navigation E) (start_armed m settle t0 h))
      as [(rest & Ha & Hr) _].
    exists rest. rewrite caught_trace, session_call_trace, Ha, Hw0.
    split; [reflexivity|]. split; [exact Hr | apply caught_returns]. }
  destruct Hisp as [Hisp|Hisp]; rewrite Hisp; simpl String.eqb; cbv iota.
  - unfold handleHotmailNavigation, bind, Date_now.
    destruct (Hs Hotmail (default 10000 (Some (default 10000 SETTLE_TIMEOUT)))
                (now E (reads w1)) (next_read w1) Ht) as (rest & H1 & H2 & H3).
    exists rest. unfold try_catch in *. split; [exact H1|]. split; [exact H2 | exact H3].
  - unfold handleGmailNavigation.
    destruct (Hs Gmail 0 (now E (reads w1)) w1 Ht) as (rest & H1 & H2 & H3).
    exists rest. unfold try_catch in *. split; [exact H1|]. split; [exact H2 | exact H3].
Qed.

End Resolution.

Lemma unusable_element_is_reported_witness :
  (getElement demo (Descriptor "#none" (Some "selector"%string)) None fresh).1 = Ret Null
  /\ is_handle Null = false
  /\ trace (typeText demo (Descriptor "#none" (Some "selector"%string)) (Some "a"%string)
              None fresh).2 = []
  /\ trace (keyPress demo (Descriptor "#none" (Some "selector"%string)) "Enter" fresh).2 = [].
Proof.
  assert (Hg : (getElement demo (Descriptor "#none" (Some "selector"%string)) None fresh).1
               = Ret Null) by (vm_compute; reflexivity).
  assert (Hv : is_handle Null = false) by reflexivity.
  pose proof (unusable_element_is_reported demo "#none" "selector" None (Some "a"%string)
                "Enter" Null fresh Hg Hv) as (_ & H1 & _ & H2).
  split; [exact Hg|]. split; [exact Hv|].
  split; [rewrite H1 | rewrite (H2 eq_refl)]; reflexivity.
Defined.

Lemma clickElement_other_provider_witness :
  isp (demo_for "yahoo") <> "hotmail"%string /\ isp (demo_for "yahoo") <> "gmail"%string
  /\ trace (clickElement (demo_for "yahoo") (Descriptor "#box" None) None None fresh).2
     = trace fresh.
Proof.
  assert (H1 : isp (demo_for "yahoo") <> "hotmail"%string) by discriminate.
  assert (H2 : isp (demo_for "yahoo") <> "gmail"%string) by discriminate.
  split; [exact H1|]. split; [exact H2|].
  exact (proj1 (clickElement_other_provider (demo_for "yahoo") (Descriptor "#box" None)
                  None None fresh H1 H2)).
Defined.

Lemma clickElement_listens_then_clicks_witness :
  (isp demo = "hotmail"%string \/ isp demo = "gmail"%string)
  /\ (getElement demo (defaulting "selector" (Descriptor "#box" None)) None fresh).1
     = Ret (ElementHandle 7%nat)
  /\ exists rest,
       trace (clickElement demo (Descriptor "#box" None) None None fresh).2
       = trace fresh ++ PageOn :: Click 7%nat None :: rest
       /\ forallb (fun a => negb (arming a)) rest = true
       /\ (forall e, (clickElement demo (Descriptor "#box" None) None None fresh).1 <> Throw e).
Proof.
  assert (H1 : isp demo = "hotmail"%string \/ isp demo = "gmail"%string)
    by (left; reflexivity).
  assert (H2 : (getElement demo (defaulting "selector" (Descriptor "#box" None)) None fresh).1
               = Ret (ElementHandle 7%nat)) by (vm_compute; reflexivity).
  split; [exact H1|]. split; [exact H2|].
  exact (clickElement_listens_then_clicks demo (Descriptor "#box" None) None None fresh
           7%nat H1 H2).
Defined.

(** ** The action layer: wrappers, key presses and dropdowns *)

Section Wrappers.

Variable E : env.

Lemma pass_through {A} (body : M A) (handler : error -> M A) (w : world) :
  (forall e, (body w).1 <> Throw e) -> try_catch body handler w = body w.
Proof.
  intros H. unfold try_catch. destruct (body w) as [[a|e|] w']; try reflexivity.
  exfalso. exact (H e eq_refl).
Qed.

Lemma caught_returns_value {A} (body : M A) tag context (a : A) (w : world) (e : error) :
  (try_catch body (fun error => handleError error tag context;; ret a) w).1 <> Throw e.
Proof. unfold try_catch. destruct (body w) as [[x|e'|] w']; discriminate. Qed.

Lemma typeText_returns d text frame (w : world) (e : error) :
  (typeText E d text frame w).1 <> Throw e.
Proof.
  unfold typeText. unfold bind at 1.
  match goal with
  | |- context [try_catch ?b ?h w] =>
      pose proof (fun e' => caught_returns_value b None
                    (Some (diagnostics (defaulting "selector" d) ++ [("text"%string, text)]))
                    None w e') as Hc;
      destruct (try_catch b h w) as [[[el|]|e'|] w']
  end; try discriminate.
  - apply caught_returns.
  - exfalso. exact (Hc e' eq_refl).
Qed.

(** X14. The [ByXpath] and [BySelector] wrappers add nothing to the
    operation they wrap: the wrapped operation never throws, so the
    [catch] block of a wrapper never runs, and the wrapper behaves on every
    state exactly as the operation called with the selector and the type.
    This includes [clearInputByXpath], whose [catch] block names an unbound
    variable. *)
Theorem wrappers_are_transparent (expression : string) (text : option string) (w : world) :
  let by_xpath := Descriptor expression (Some (types_xpath E)) in
  let by_selector := Descriptor expression (Some (types_selector E)) in
  typeTextByXpath E expression text w = typeText E by_xpath text None w
  /\ typeTextBySelector E expression text w = typeText E by_selector text None w
  /\ clickElementByXpath E expression w = clickElement E by_xpath None None w
  /\ clickElementBySelector E expression w = clickElement E by_selector None None w
  /\ clearInputByXpath E expression w = clearInput E by_xpath None w
  /\ clearInputBySelector E expression w = clearInput E by_selector None w
  /\ checkElementByXpath E expression w = checkElement E by_xpath w
  /\ checkElementBySelector E expression w = checkElement E by_selector w.
Proof.
  intros by_xpath by_selector.
  repeat split; apply pass_through; intros e;
    first [ apply typeText_returns | apply caught_returns | apply caught_returns_value ].
Qed.

(** X15. With the type names at their usual values, [checkElement] and
    [getElement] agree on the kinds [selector] and [xpath]: both ask the
    page once, [checkElement] returns [true] exactly when [getElement]
    returns an element, [undefined] exactly when [getElement] does, and both
    leave the same state behind, with the same report when the page
    throws. *)
Theorem checkElement_agrees_with_getElement (d : descriptor) (w : world) :
  types_selector E = "selector"%string -> types_xpath E = "xpath"%string ->
  kind_of d = "selector"%string \/ kind_of d = "xpath"%string ->
  exists v u,
    checkElement E d w = (Ret v, (getElement E d None w).2)
    /\ (getElement E d None w).1 = Ret u
    /\ value_truthy v = truthy u
    /\ (v = VUndefined <-> u = Undefined)
    /\ (v = VUndefined <-> handled (getElement E d None w).2 <> handled w).
Proof.
  intros Hs Hx Hk.
  assert (Hgrow : forall (l : list report) r, l ++ [r] <> l).
  { intros l r H. apply (f_equal length) in H. rewrite length_app in H. simpl in H. lia. }
  unfold checkElement, getElement, try_catch, bind, ask, ret, handleError, getPage.
  rewrite Hs, Hx.
  destruct Hk as [Hk|Hk]; rewrite Hk; simpl;
    destruct (fails E (calls w)) as [e|]; simpl.
  1, 3: exists VUndefined, Undefined; repeat split; try reflexivity; intros; try apply Hgrow;
        congruence.
  - destruct (css_first E (page E) (selector d)) as [h|]; simpl.
    + exists (VBool true), (ElementHandle h).
      rewrite ?bool_decide_eq_true_2 by discriminate.
      repeat split; try reflexivity; intros; try discriminate; congruence.
    + exists (VBool false), Null.
      rewrite ?bool_decide_eq_false_2 by (intros H; apply H; reflexivity).
      repeat split; try reflexivity; intros; try discriminate; congruence.
  - destruct (xpath_first E (page E) (selector d)) as [h|]; simpl.
    + exists (VBool true), (ElementHandle h).
      rewrite ?bool_decide_eq_true_2 by discriminate.
      repeat split; try reflexivity; intros; try discriminate; congruence.
    + exists (VBool false), Null.
      rewrite ?bool_decide_eq_false_2 by (intros H; apply H; reflexivity).
      repeat split; try reflexivity; intros; try discriminate; congruence.
Qed.

(** X16. When its element is found, [keyPress] focuses the element and
    then presses the key on the keyboard of the page, in this order; the
    key is pressed only after a focus that succeeded, and both are done
    exactly when [keyPress] reports nothing. *)
Theorem keyPress_focuses_first (d : descriptor) (keyButton : string) (w : world) (h : handle) :
  let found := getElement E (defaulting "selector" d) None w in
  found.1 = Ret (ElementHandle h) ->
  exists l w',
    keyPress E d keyButton w = (Ret tt, w')
    /\ trace w' = trace w ++ l
    /\ (l = [] \/ l = [Focus h] \/ l = [Focus h; KeyboardPress keyButton])
    /\ (l = [Focus h; KeyboardPress keyButton] <-> handled w' = handled found.2).
Proof.
  intros found Hg.
  assert (Hgrow : forall (l : list report) r, l ++ [r] <> l).
  { intros l r H. apply (f_equal length) in H. rewrite length_app in H. simpl in H. lia. }
  pose proof (getElement_keeps E (defaulting "selector" d) None w) as [Ht _].
  unfold keyPress, try_catch, bind. subst found.
  destruct (getElement E (defaulting "selector" d) None w) as [o w1]. simpl in Hg, Ht.
  subst o. simpl. unfold act, handleError, ret.
  destruct (fails E (calls w1)) as [e|]; simpl.
  - exists [], (note_handled (Report e (Some "keyPress"%string) None)
                  (note_raised e (next_call w1))).
    split; [reflexivity|]. simpl. rewrite app_nil_r. split; [exact Ht|].
    split; [left; reflexivity|]. split; [discriminate | intros H; destruct (Hgrow _ _ H)].
  - destruct (fails E (S (calls w1))) as [e|]; simpl.
    + eexists [Focus h], _. split; [reflexivity|]. simpl. rewrite Ht.
      split; [reflexivity|]. split; [right; left; reflexivity|].
      split; [discriminate | intros H; destruct (Hgrow _ _ H)].
    + eexists [Focus h; KeyboardPress keyButton], _. split; [reflexivity|]. simpl.
      rewrite Ht, <- app_assoc. split; [reflexivity|].
      split; [right; right; reflexivity|]. split; reflexivity.
Qed.

(** X17. [selectOption] never throws.  It selects at most once, and it
    logs the success message exactly when it reports no error, right after
    the selection; for a type other than [selector] and [xpath] it reports
    an error without touching the page. *)
Theorem selectOption_logs_after_select (d : descriptor) (optionValue : string) (w : world) :
  let message :=
    ("Successfully selected option with value '" ++ optionValue ++ "' from dropdown.")%string in
  exists l w',
    selectOption E d optionValue w = (Ret tt, w')
    /\ trace w' = trace w ++ l
    /\ (handled w' = handled w <->
        exists s, l = [Select s optionValue; LogMessage message])
    /\ (handled w' <> handled w ->
        l = [] \/ exists s, l = [Select s optionValue])
    /\ (kind_of d <> "selector"%string -> kind_of d <> "xpath"%string ->
        l = [] /\ calls w' = calls w /\ handled w' <> handled w).
Proof.
  intros message.
  assert (Hgrow : forall (l : list report) r, l ++ [r] <> l).
  { intros l r H. apply (f_equal length) in H. rewrite length_app in H. simpl in H. lia. }
  unfold selectOption, try_catch, bind, logMessage, act, ask, throw, handleError, ret, getPage.
  change (kind_of (defaulting "selector" d)) with (kind_of d).
  destruct (String.eqb_spec (kind_of d) "selector") as [Hs|Hs];
    [|destruct (String.eqb_spec (kind_of d) "xpath") as [Hx|Hx]].
  all: repeat (match goal with
               | |- context [fails E ?k] => destruct (fails E k) eqn:?
               | |- context [xpath_first E ?p ?x] => destruct (xpath_first E p x) eqn:?
               end; simpl).
  all: match goal with
       | |- exists l w', (Ret tt, ?x) = (Ret tt, w') /\ _ =>
           let t := eval cbn in (trace x) in
           match t with
           | (_ ++ [?a]) ++ [?b] => exists [a; b]
           | _ ++ [?a] => exists [a]
           | _ => exists []
           end; exists x
       end.
  all: split; [reflexivity|]; simpl; rewrite <- ?app_assoc, ?app_nil_r;
    (split; [reflexivity|]).
  all: repeat split; intros;
    try match goal with H : _ ++ [_] = _ |- _ => destruct (Hgrow _ _ H) end;
    try match goal with H : ?x <> ?x |- _ => destruct (H eq_refl) end;
    try match goal with H : exists _, _ = _ |- _ => destruct H as [? H]; discriminate H end;
    try congruence; try apply Hgrow;
    try (eexists; reflexivity); try (left; reflexivity); try (right; eexists; reflexivity).
Qed.

End Wrappers.

Lemma checkElement_agrees_with_getElement_witness :
  types_selector demo = "selector"%string /\ types_xpath demo = "xpath"%string
  /\ (kind_of (Descriptor "#box" None) = "selector"%string
      \/ kind_of (Descriptor "#box" None) = "xpath"%string)
  /\ exists v u,
       checkElement demo (Descriptor "#box" None) fresh
       = (Ret v, (getElement demo (Descriptor "#box" None) None fresh).2)
       /\ (getElement demo (Descriptor "#box" None) None fresh).1 = Ret u
       /\ value_truthy v = truthy u.
Proof.
  assert (H1 : types_selector demo = "selector"%string) by reflexivity.
  assert (H2 : types_xpath demo = "xpath"%string) by reflexivity.
  assert (H3 : kind_of (Descriptor "#box" None) = "selector"%string
               \/ kind_of (Descriptor "#box" None) = "xpath"%string) by (left; reflexivity).
  split; [exact H1|]. split; [exact H2|]. split; [exact H3|].
  destruct (checkElement_agrees_with_getElement demo (Descriptor "#box" None) fresh H1 H2 H3)
    as (v & u & Hc & Hg & Ht & _).
  exists v, u. split; [exact Hc|]. split; [exact Hg | exact Ht].
Defined.

Lemma keyPress_focuses_first_witness :
  (getElement (demo_failing 2) (defaulting "selector" (Descriptor "#box" None)) None fresh).1
  = Ret (ElementHandle 7%nat)
  /\ exists l w',
       keyPress (demo_failing 2) (Descriptor "#box" None) "Enter" fresh = (Ret tt, w')
       /\ trace w' = trace fresh ++ l
       /\ (l = [] \/ l = [Focus 7%nat] \/ l = [Focus 7%nat; KeyboardPress "Enter"]).
Proof.
  assert (Hg : (getElement (demo_failing 2) (defaulting "selector" (Descriptor "#box" None))
                  None fresh).1 = Ret (ElementHandle 7%nat)) by (vm_compute; reflexivity).
  split; [exact Hg|].
  destruct (keyPress_focuses_first (demo_failing 2) (Descriptor "#box" None) "Enter" fresh
              7%nat Hg) as (l & w' & Hr & Ht & Hl & _).
  exists l, w'. split; [exact Hr|]. split; [exact Ht | exact Hl].
Defined.

(** ** The action layer: scrolling *)

Section Appending.

Variable E : env.
Variable P : action -> Prop.

Lemma appends_ret {A} (a : A) : appends P (ret a).
Proof. intros w. exists []. rewrite app_nil_r. split; [reflexivity | constructor]. Qed.

Lemma appends_pending {A} : appends P (@pending A).
Proof. intros w. exists []. rewrite app_nil_r. split; [reflexivity | constructor]. Qed.

Lemma appends_throw {A} (e : error) : appends P (@throw A e).
Proof. intros w. exists []. rewrite app_nil_r. split; [reflexivity | constructor]. Qed.

Lemma appends_act (a : action) : P a -> appends P (act E a).
Proof.
  intros Ha w. unfold act. destruct (fails E (calls w)).
  - exists []. rewrite app_nil_r. split; [reflexivity | constructor].
  - exists [a]. split; [reflexivity | repeat constructor; assumption].
Qed.

Lemma appends_ask {A} (f : nat -> A) : appends P (ask E f).
Proof.
  intros w. unfold ask. exists []. rewrite app_nil_r.
  destruct (fails E (calls w)); split; try reflexivity; constructor.
Qed.

Lemma appends_Math_random : appends P (Math_random E).
Proof. intros w. exists []. rewrite app_nil_r. split; [reflexivity | constructor]. Qed.

Lemma appends_Date_now : appends P (Date_now E).
Proof. intros w. exists []. rewrite app_nil_r. split; [reflexivity | constructor]. Qed.

Lemma appends_get_scrollY : appends P get_scrollY.
Proof. intros w. exists []. rewrite app_nil_r. split; [reflexivity | constructor]. Qed.

Lemma appends_handleError e tag context : appends P (handleError e tag context).
Proof. intros w. exists []. rewrite app_nil_r. split; [reflexivity | constructor]. Qed.

Lemma appends_bind_with {A B} (Q : A -> Prop) (m : M A) (k : A -> M B) :
  appends P m -> yields Q m -> (forall a, Q a -> appends P (k a)) -> appends P (bind m k).
Proof.
  intros Hm Hq Hk w. unfold bind. destruct (Hm w) as (l1 & Ht1 & Hf1).
  destruct (m w) as [[a|e|] w1] eqn:Hmw; simpl in Ht1.
  - destruct (Hk a (Hq w a w1 Hmw) w1) as (l2 & Ht2 & Hf2).
    exists (l1 ++ l2). rewrite Ht2, Ht1, app_assoc. split; [reflexivity|].
    apply Forall_app. split; assumption.
  - exists l1. split; assumption.
  - exists l1. split; assumption.
Qed.

Lemma appends_bind {A B} (m : M A) (k : A -> M B) :
  appends P m -> (forall a, appends P (k a)) -> appends P (bind m k).
Proof.
  intros Hm Hk. apply (appends_bind_with (fun _ => True)); auto.
  intros w a w' _. exact I.
Qed.

Lemma appends_catch {A} (body : M A) (handler : error -> M A) :
  appends P body -> (forall e, appends P (handler e)) -> appends P (try_catch body handler).
Proof.
  intros Hb Hh w. unfold try_catch. destruct (Hb w) as (l1 & Ht1 & Hf1).
  destruct (body w) as [[a|e|] w1]; simpl in Ht1.
  - exists l1. split; assumption.
  - destruct (Hh e w1) as (l2 & Ht2 & Hf2).
    exists (l1 ++ l2). rewrite Ht2, Ht1, app_assoc. split; [reflexivity|].
    apply Forall_app. split; assumption.
  - exists l1. split; assumption.
Qed.

Lemma appends_scrollTo (x y : Q) : P (ScrollTo x y) -> appends P (scrollTo E x y).
Proof.
  intros Hp. unfold scrollTo. apply appends_bind; [apply appends_act; assumption|].
  intros _ w. exists []. rewrite app_nil_r. split; [reflexivity | constructor].
Qed.

Lemma appends_scrollBy (dy : Z) : P (ScrollBy dy) -> appends P (scrollBy E dy).
Proof.
  intros Hp. unfold scrollBy. apply appends_bind; [apply appends_act; assumption|].
  intros _ w. exists []. rewrite app_nil_r. split; [reflexivity | constructor].
Qed.

Lemma appends_page_evaluate {A} (m : M A) : appends P m -> appends P (page_evaluate E m).
Proof. intros Hm. unfold page_evaluate. apply appends_bind; [apply appends_ask | auto]. Qed.

End Appending.

Lemma yields_Math_random (E : env) :
  unit_draws E -> yields (fun r => (0 <= r)%Q /\ (r < 1)%Q) (Math_random E).
Proof. intros Hu w a w' H. injection H as <- _. apply Hu. Qed.

(** A pause drawn between two speeds lies between them. *)
Lemma delay_between (r : Q) (lo hi : Z) :
  (0 <= r)%Q -> (r < 1)%Q -> lo <= hi ->
  (inject_Z lo <= r * inject_Z (hi - lo) + inject_Z lo)%Q
  /\ (r * inject_Z (hi - lo) + inject_Z lo <= inject_Z hi)%Q.
Proof.
  intros H0 H1 Hle.
  assert (Hd : (0 <= inject_Z (hi - lo))%Q).
  { change 0%Q with (inject_Z 0). rewrite <- Zle_Qle. lia. }
  assert (Hhi : (inject_Z hi == inject_Z (hi - lo) + inject_Z lo)%Q).
  { rewrite <- inject_Z_plus. replace (hi - lo + lo) with hi by lia. reflexivity. }
  rewrite Hhi. split; nra.
Qed.

Section Scrolling.

Variable E : env.
Hypothesis draws_in_unit : unit_draws E.

Lemma randomScroll_loop_steps (n : nat) (lo hi : Z) (endTime : Q) :
  lo <= hi -> appends (scroll_step lo hi) (randomScroll_loop E n hi lo endTime).
Proof.
  intros Hle. induction n as [|n IH]; simpl; [apply appends_pending|].
  apply appends_bind; [apply appends_Date_now|]. intros t.
  destruct (Qltb (inject_Z t) endTime); [|apply appends_ret].
  apply appends_bind; [apply appends_Math_random|]. intros r1.
  apply appends_bind; [apply appends_Math_random|]. intros r2.
  apply appends_bind; [apply appends_get_scrollY|]. intros y.
  apply appends_bind.
  { apply appends_scrollTo. split; [reflexivity | apply Q.le_max_l]. }
  intros _.
  apply (appends_bind_with _ (fun r => (0 <= r)%Q /\ (r < 1)%Q));
    [apply appends_Math_random | apply yields_Math_random, draws_in_unit|].
  intros r [H0 H1].
  apply appends_bind; [|intros _; exact IH].
  apply appends_act. apply delay_between; assumption.
Qed.

Lemma randomScroll_appends
    (maxScrollingTime minScrollingTime maxScrollingSpeed minScrollingSpeed : option Z) :
  appends
    (scroll_step (Z.min (default 500 minScrollingSpeed) (default 3000 maxScrollingSpeed))
                 (Z.max (default 500 minScrollingSpeed) (default 3000 maxScrollingSpeed)))
    (randomScroll E maxScrollingTime minScrollingTime maxScrollingSpeed minScrollingSpeed).
Proof.
  unfold randomScroll.
  apply appends_catch; [|intros e; apply appends_handleError].
  rewrite !normalize_min_max.
  apply appends_bind; [apply appends_Date_now|]. intros t.
  apply appends_bind; [apply appends_Math_random|]. intros r.
  apply appends_bind; [|intros _; apply appends_act; exact I].
  apply appends_page_evaluate. apply randomScroll_loop_steps. lia.
Qed.

(** X18. Whatever the page does, [randomScroll] only jumps to positions
    that are not negative and pauses for a time between the smaller and the
    larger of its two speed bounds (500 and 3000 ms when they are left
    out), before its final randomized wait. *)
Theorem randomScroll_steps
    (maxScrollingTime minScrollingTime maxScrollingSpeed minScrollingSpeed : option Z) :
  let lo := Z.min (default 500 minScrollingSpeed) (default 3000 maxScrollingSpeed) in
  let hi := Z.max (default 500 minScrollingSpeed) (default 3000 maxScrollingSpeed) in
  appends (scroll_step lo hi)
    (randomScroll E maxScrollingTime minScrollingTime maxScrollingSpeed minScrollingSpeed).
Proof. intros lo hi. apply randomScroll_appends. Qed.


End Scrolling.

Lemma randomScroll_steps_witness :
  unit_draws demo /\ appends (scroll_step 500 3000) (randomScroll demo None None None None).
Proof.
  assert (H : unit_draws demo) by (intros k; split; vm_compute; [discriminate | reflexivity]).
  split; [exact H | exact (randomScroll_steps demo H None None None None)].
Defined.

Section Bottom.

Variable E : env.

Lemma scrollToBottomPage_loop_steps (n : nat) :
  appends bottom_step (scrollToBottomPage_loop E n).
Proof.
  induction n as [|n IH]; simpl; [apply appends_pending|].
  apply appends_bind; [apply appends_get_scrollY|]. intros scrollTop.
  destruct (Qltb _ _); [|apply appends_ret].
  apply appends_bind; [apply appends_scrollBy; left; reflexivity|]. intros _.
  apply appends_bind; [apply appends_act; right; reflexivity|]. intros _. exact IH.
Qed.

Lemma scrollToBottomPage_loop_exit (n : nat) :
  forall w w',
    scrollToBottomPage_loop E n w = (Ret tt, w') ->
    Qltb (scrollY w' + inject_Z (innerHeight E)) (inject_Z (scrollHeight E)) = false.
Proof.
  induction n as [|n IH]; intros w w' H; simpl in H; [discriminate|].
  unfold bind, get_scrollY in H. cbn beta iota in H.
  destruct (Qltb (scrollY w + inject_Z (innerHeight E)) (inject_Z (scrollHeight E))) eqn:Hc.
  - unfold scrollBy, bind, act in H. cbn beta iota in H.
    destruct (fails E (calls w)); [discriminate|]. cbn beta iota in H.
    match type of H with
    | context [fails E ?k] => destruct (fails E k); [discriminate|]
    end.
    apply IH in H. exact H.
  - injection H as <-. exact Hc.
Qed.

Lemma scrollToBottomPage_loop_handled (n : nat) :
  forall w, handled (scrollToBottomPage_loop E n w).2 = handled w.
Proof.
  induction n as [|n IH]; intros w; simpl; [reflexivity|].
  unfold bind, get_scrollY. cbn beta iota.
  destruct (Qltb (scrollY w + inject_Z (innerHeight E)) (inject_Z (scrollHeight E)));
    [|reflexivity].
  unfold scrollBy, bind, act. cbn beta iota.
  destruct (fails E (calls w)); [reflexivity|]. cbn beta iota.
  match goal with
  | |- context [fails E ?k] => destruct (fails E k); [reflexivity|]
  end.
  rewrite IH. reflexivity.
Qed.

(** X19. [scrollToBottomPage] never throws and only scrolls down by 100
    and pauses for 100 ms; when it returns without having reported an
    error, the bottom of the window is at or below the end of the
    document. *)
Theorem scrollToBottomPage_reaches_bottom (w : world) :
  appends bottom_step (scrollToBottomPage E)
  /\ (forall e, (scrollToBottomPage E w).1 <> Throw e)
  /\ ((scrollToBottomPage E w).1 = Ret tt ->
      handled (scrollToBottomPage E w).2 = handled w ->
      (inject_Z (scrollHeight E)
       <= scrollY (scrollToBottomPage E w).2 + inject_Z (innerHeight E))%Q).
Proof.
  split; [|split].
  - unfold scrollToBottomPage.
    apply appends_catch; [|intros e; apply appends_handleError].
    apply appends_page_evaluate, scrollToBottomPage_loop_steps.
  - intros e. apply caught_returns.
  - unfold scrollToBottomPage, try_catch, page_evaluate, bind, ask, handleError.
    destruct (fails E (calls w)) as [e|]; simpl.
    + intros _ H. apply (f_equal length) in H. rewrite length_app in H. simpl in H. lia.
    + destruct (scrollToBottomPage_loop E (fuel E) (next_call w)) as [[[]|e|] w'] eqn:Hl;
        simpl; intros Ho Hh; try discriminate.
      * apply scrollToBottomPage_loop_exit in Hl.
        unfold Qltb in Hl. apply negb_false_iff, Qle_bool_iff in Hl. exact Hl.
      * exfalso. pose proof (scrollToBottomPage_loop_handled (fuel E) (next_call w)) as Hk.
        rewrite Hl in Hk. simpl in Hk. rewrite Hk in Hh.
        apply (f_equal length) in Hh. rewrite length_app in Hh. simpl in Hh. lia.
Qed.

End Bottom.

Lemma scrollToBottomPage_reaches_bottom_witness :
  (scrollToBottomPage demo fresh).1 = Ret tt
  /\ handled (scrollToBottomPage demo fresh).2 = handled fresh
  /\ (inject_Z (scrollHeight demo)
      <= scrollY (scrollToBottomPage demo fresh).2 + inject_Z (innerHeight demo))%Q.
Proof.
  assert (H1 : (scrollToBottomPage demo fresh).1 = Ret tt) by (vm_compute; reflexivity).
  assert (H2 : handled (scrollToBottomPage demo fresh).2 = handled fresh)
    by (vm_compute; reflexivity).
  split; [exact H1|]. split; [exact H2|].
  exact (proj2 (proj2 (scrollToBottomPage_reaches_bottom demo fresh)) H1 H2).
Defined.


(** A pause computed from two speeds lies between them, whichever is the
    larger. *)
Lemma delay_within (r : Q) (a b : Z) :
  (0 <= r)%Q -> (r < 1)%Q ->
  (inject_Z (Z.min a b) <= r * inject_Z (b - a) + inject_Z a)%Q
  /\ (r * inject_Z (b - a) + inject_Z a <= inject_Z (Z.max a b))%Q.
Proof.
  intros H0 H1.
  assert (Hd : (inject_Z (b - a) == inject_Z b - inject_Z a)%Q).
  { unfold Z.sub. rewrite inject_Z_plus, inject_Z_opp. reflexivity. }
  rewrite Hd.
  destruct (Z.le_ge_cases a b) as [Hle|Hle].
  - rewrite Z.min_l, Z.max_r by lia. rewrite Zle_Qle in Hle. split; nra.
  - rewrite Z.min_r, Z.max_l by lia. rewrite Zle_Qle in Hle. split; nra.
Qed.

Section Dwelling.

Variable E : env.
Hypothesis draws_in_unit : unit_draws E.

Lemma dwell_steps (n : nat) (base : Q) (cmax cmin : Z) (endTime : Q) :
  appends (dwell_step base (Z.min cmin cmax) (Z.max cmin cmax))
    (dwell E n base cmax cmin endTime).
Proof.
  induction n as [|n IH]; cbn [dwell]; [apply appends_pending|].
  apply appends_bind; [apply appends_Date_now|]. intros t.
  destruct (Qltb (inject_Z t) endTime); [|apply appends_ret].
  apply (appends_bind_with _ (fun r => (0 <= r)%Q /\ (r < 1)%Q));
    [apply appends_Math_random | apply yields_Math_random, draws_in_unit|].
  intros r1 [H0 H1].
  apply appends_bind.
  { apply appends_scrollTo. split; [reflexivity|].
    pose proof (scaled_range r1 151 H0 H1 ltac:(lia)) as Hs. unfold scaled in Hs.
    change (550 - 400 + 1) with 151.
    assert (Ha : (400 <= inject_Z (Qfloor (r1 * inject_Z 151) + 400))%Q).
    { change 400%Q with (inject_Z 400). rewrite <- Zle_Qle. lia. }
    assert (Hb : (inject_Z (Qfloor (r1 * inject_Z 151) + 400) <= 550)%Q).
    { change 550%Q with (inject_Z 550). rewrite <- Zle_Qle. lia. }
    split; lra. }
  intros _.
  apply (appends_bind_with _ (fun r => (0 <= r)%Q /\ (r < 1)%Q));
    [apply appends_Math_random | apply yields_Math_random, draws_in_unit|].
  intros r [H0' H1'].
  apply appends_bind; [|intros _; exact IH].
  apply appends_act. apply delay_within; assumption.
Qed.

Hypothesis no_failure : forall k, fails E k = None.

Lemma dwell_outcome (n : nat) (base : Q) (cmax cmin : Z) (endTime : Q) :
  forall w,
    (dwell E n base cmax cmin endTime w).1 = Ret tt
    \/ (dwell E n base cmax cmin endTime w).1 = Pending.
Proof.
  induction n as [|n IH]; intros w; simpl; [right; reflexivity|].
  unfold scrollTo. run_io no_failure.
  destruct (Qltb (inject_Z (now E (reads w))) endTime); [|left; reflexivity].
  run_io no_failure. apply IH.
Qed.

(** X20. When the element is found by its selector and no primitive
    throws, [scrollToElement] jumps to the top of the element minus the
    smaller speed bound, pauses 1.5 s, and then hovers: each jump of the
    loop goes to between 400 and 550 below that first position, each pause
    lasts between the larger speed bound and the offset, and the element
    is scrolled into view when the loop has ended.  The offset argument
    takes no part in any position. *)
Theorem scrollToElement_hovers (element : descriptor)
    (maxScrollingTime minScrollingTime maxScrollingSpeed minScrollingSpeed offset : option Z)
    (w : world) (h : handle) :
  kind_of element = types_selector E ->
  type element <> Some "xpath"%string ->
  css_first E (page E) (selector element) = Some h ->
  let lo := Z.min (default 500 minScrollingSpeed) (default 900 maxScrollingSpeed) in
  let hi := Z.max (default 500 minScrollingSpeed) (default 900 maxScrollingSpeed) in
  let offset' := default 500 offset in
  let base := (rect_top E h - inject_Z lo)%Q in
  let r := scrollToElement E element maxScrollingTime minScrollingTime maxScrollingSpeed
             minScrollingSpeed offset w in
  exists l tail,
    trace r.2 = trace w ++ ScrollTo 0 base :: Delay 1500 :: l ++ tail
    /\ Forall (dwell_step base (Z.min hi offset') (Z.max hi offset')) l
    /\ ((r.1 = Ret tt /\ tail = [ScrollIntoView h]) \/ (r.1 = Pending /\ tail = [])).
Proof.
  intros Hk Hty Hcss lo hi offset' base r. subst r.
  destruct (scrollToElement E element maxScrollingTime minScrollingTime maxScrollingSpeed
              minScrollingSpeed offset w) as [o' w''] eqn:Hr.
  revert Hr.
  unfold scrollToElement. rewrite !normalize_min_max. fold lo hi offset'.
  unfold try_catch at 1. unfold bind at 1. unfold Date_now at 1.
  unfold bind at 1. unfold Math_random at 1. unfold bind at 1.
  unfold checkElement, try_catch, bind at 1, ask, ret, getPage.
  rewrite Hk, String.eqb_refl. cbn beta iota. rewrite no_failure. cbn beta iota.
  rewrite Hcss. cbn beta iota.
  change (value_truthy (VBool (bool_decide (Some h <> None)))) with true. cbn beta iota.
  unfold page_evaluate, scrollToElement_callback, bind at 1, ask, getPage.
  cbn beta iota. rewrite no_failure. cbn beta iota.
  unfold bind at 1. rewrite no_failure. cbn beta iota.
  rewrite bool_decide_eq_false_2 by assumption. rewrite Hcss.
  fold base. unfold scrollTo. unfold bind at 1. unfold bind at 1. unfold act at 1.
  cbn beta iota. rewrite no_failure. cbn beta iota.
  unfold bind at 1. unfold act at 1. cbn beta iota. rewrite no_failure. cbn beta iota.
  unfold bind at 1.
  match goal with
  | |- context [dwell E ?n ?b ?cmax ?cmin ?t ?x] =>
      destruct (dwell_steps n b cmax cmin t x) as (l & Ht & Hl);
      destruct (dwell_outcome n b cmax cmin t x) as [Ho|Ho];
      destruct (dwell E n b cmax cmin t x) as [o w'] eqn:Hd
  end; simpl in Ht, Ho; subst o.
  - unfold act. rewrite no_failure. cbn beta iota. intros [= <- <-].
    exists l, [ScrollIntoView h]. cbn [fst snd emit trace next_call]. rewrite Ht, <- !app_assoc.
    split; [reflexivity|]. split; [exact Hl|]. left. split; reflexivity.
  - cbn beta iota. intros [= <- <-].
    exists l, []. cbn [fst snd]. rewrite Ht, <- !app_assoc, app_nil_r.
    split; [reflexivity|]. split; [exact Hl|]. right. split; reflexivity.
Qed.

End Dwelling.

Lemma scrollToElement_hovers_witness :
  unit_draws demo /\ (forall k, fails demo k = None)
  /\ kind_of (Descriptor "#box" None) = types_selector demo
  /\ css_first demo (page demo) (selector (Descriptor "#box" None)) = Some 7%nat
  /\ exists l tail,
       trace (scrollToElement demo (Descriptor "#box" None) None None (Some 900) (Some 400)
                (Some 2000) fresh).2
       = trace fresh ++ ScrollTo 0 (rect_top demo 7%nat - inject_Z 400) :: Delay 1500 :: l ++ tail
       /\ Forall (dwell_step (rect_top demo 7%nat - inject_Z 400) 900 2000) l.
Proof.
  assert (H : unit_draws demo) by (intros k; split; vm_compute; [discriminate | reflexivity]).
  assert (Hf : forall k, fails demo k = None) by reflexivity.
  assert (Hk : kind_of (Descriptor "#box" None) = types_selector demo) by reflexivity.
  assert (Hty : type (Descriptor "#box" None) <> Some "xpath"%string) by discriminate.
  assert (Hc : css_first demo (page demo) (selector (Descriptor "#box" None)) = Some 7%nat)
    by reflexivity.
  split; [exact H|]. split; [exact Hf|]. split; [exact Hk|]. split; [exact Hc|].
  destruct (scrollToElement_hovers demo H Hf (Descriptor "#box" None) None None (Some 900)
              (Some 400) (Some 2000) fresh 7%nat Hk Hty Hc) as (l & tail & Ht & Hl & _).
  exists l, tail. split; [exact Ht | exact Hl].
Defined.

(** ** Navigation settlement: what a session leaves behind *)

Lemma count_snoc (f : action -> bool) (t : list action) (a : action) :
  count f (t ++ [a]) = (count f t + (if f a then 1 else 0))%nat.
Proof.
  unfold count. rewrite filter_app, length_app. f_equal.
  rewrite filter_cons. destruct (f a); case_decide; simpl; congruence.
Qed.

Lemma step_attached s now ev s' : step s now ev = Some s' -> attached s -> attached s'.
Proof.
  unfold attached. destruct s as [m st lst flag logged lis p inv d a c].
  intros Hs Hl. simpl in Hl.
  destruct m, flag, ev; unfold step in Hs; unfold_session; split_step Hs;
    injection Hs as <-; simpl; intros X; try (exfalso; apply X; reflexivity).
  all: rewrite ?count_snoc; simpl; rewrite ?Nat.add_0_r; apply Hl;
    first [assumption | discriminate].
Qed.

Lemma start_attached m settle t0 el : attached (start m settle t0 el).
Proof. intros _. destruct el; split; reflexivity. Qed.

Lemma exec_attached s evs : attached s -> attached (exec s evs).
Proof.
  induction evs as [|te evs IH] using rev_ind; intros G; [exact G|].
  rewrite exec_snoc. unfold exec1.
  destruct (step (exec s evs) te.1 te.2) eqn:Hs; simpl; [|auto].
  eapply step_attached; eauto.
Qed.

Lemma step_rejected s now ev s' e :
  step s now ev = Some s' -> pc s = Rejected e -> pc s' = Rejected e.
Proof.
  destruct s as [m st lst flag logged lis p inv d a c].
  intros Hs Hp. simpl in Hp. subst p.
  destruct m, flag, ev; unfold step in Hs; unfold_session; split_step Hs;
    injection Hs as <-; reflexivity.
Qed.

Lemma exec_rejected s evs e : pc s = Rejected e -> pc (exec s evs) = Rejected e.
Proof.
  induction evs as [|te evs IH] using rev_ind; intros G; [exact G|].
  rewrite exec_snoc. unfold exec1.
  destruct (step (exec s evs) te.1 te.2) eqn:Hs; simpl; [|auto].
  eapply step_rejected; eauto.
Qed.

(** X21. A session whose main flow has rejected (the click failed, the
    element has no [click] method, or the final log failed) stays rejected
    whatever callbacks follow, and it never detaches its listener:
    [page.off] is not called, and every later navigation event still runs
    the handler. *)
Theorem rejected_session_keeps_listener (m : mode) (settle t0 : Z) (el : element)
    (schedule more : list (Z * event)) (e : error) :
  let s := exec (start m settle t0 el) schedule in
  pc s = Rejected e ->
  let s' := exec s more in
  pc s' = Rejected e
  /\ listening s' = true
  /\ count detaches (api s') = 0%nat
  /\ forall now frame_id,
       step s' now (FrameNavigated frame_id)
       = Some (navigationHandler (set_clock now s') now frame_id).
Proof.
  intros s Hp s'.
  assert (Hr : pc s' = Rejected e) by (apply exec_rejected; exact Hp).
  assert (Ha : attached s') by (apply exec_attached, exec_attached, start_attached).
  destruct Ha as [Hl Hc]; [rewrite Hr; discriminate|].
  split; [exact Hr|]. split; [exact Hl|]. split; [exact Hc|].
  intros now frame_id. unfold step. simpl. rewrite Hl. reflexivity.
Qed.

Lemma rejected_session_keeps_listener_witness :
  let s := exec (start Hotmail 10000 0 (ElementHandle 7%nat)) [(5, ClickRejected (PageError 1))] in
  let s' := exec s [(10, FrameNavigated "A"); (20, HandlerLogResolved 0)] in
  pc s = Rejected (PageError 1)
  /\ pc s' = Rejected (PageError 1) /\ listening s' = true /\ count detaches (api s') = 0%nat.
Proof.
  intros s s'.
  assert (Hp : pc s = Rejected (PageError 1)) by (vm_compute; reflexivity).
  split; [exact Hp|].
  pose proof (rejected_session_keeps_listener Hotmail 10000 0 (ElementHandle 7%nat)
                [(5, ClickRejected (PageError 1))]
                [(10, FrameNavigated "A"); (20, HandlerLogResolved 0)] (PageError 1) Hp)
    as (H1 & H2 & H3 & _).
  split; [exact H1|]. split; [exact H2 | exact H3].
Defined.

Lemma step_interval_kept s now ev s' :
  step s now ev = Some s' -> interval_kept s -> interval_kept s'.
Proof.
  unfold interval_kept. destruct s as [m st lst flag logged lis p inv d a c].
  intros Hs [Hm Hi]. simpl in Hm, Hi. subst m.
  destruct flag, ev; unfold step in Hs; unfold_session; split_step Hs;
    injection Hs as <-; simpl; (split; [reflexivity|]).
  all: rewrite ?count_snoc; simpl; rewrite ?Nat.add_0_r; try assumption; try lia.
  all: destruct p; simpl in *; rewrite ?count_snoc; simpl; rewrite ?Nat.add_0_r;
    try assumption; try lia.
Qed.

Lemma start_interval_kept settle t0 el : interval_kept (start Gmail settle t0 el).
Proof. destruct el; (split; [reflexivity|]); vm_compute; split; first [reflexivity | lia]. Qed.

Lemma exec_interval_kept s evs : interval_kept s -> interval_kept (exec s evs).
Proof.
  induction evs as [|te evs IH] using rev_ind; intros G; [exact G|].
  rewrite exec_snoc. unfold exec1.
  destruct (step (exec s evs) te.1 te.2) eqn:Hs; simpl; [|auto].
  eapply step_interval_kept; eauto.
Qed.

(** X22. A Gmail session sets its recheck interval at most once and clears
    it when the settlement promise resolves: after any schedule the number
    of [setInterval] calls is the number of [clearInterval] calls, plus one
    exactly while the main flow waits in the settlement loop; a completed
    session has set one interval and cleared it. *)
Theorem gmail_interval_is_cleared (settle t0 : Z) (el : element)
    (schedule : list (Z * event)) :
  let s := exec (start Gmail settle t0 el) schedule in
  count sets_interval (api s)
  = (count clears_interval (api s) + (if in_settle_loop s then 1 else 0))%nat
  /\ (count sets_interval (api s) <= 1)%nat
  /\ (pc s = Completed \/ pc s = AwaitLog ->
      count sets_interval (api s) = 1%nat /\ count clears_interval (api s) = 1%nat).
Proof.
  intros s.
  destruct (exec_interval_kept _ schedule (start_interval_kept settle t0 el)) as [_ Hi].
  fold s in Hi.
  unfold in_settle_loop.
  destruct (pc s); destruct Hi as [H1 H2]; (split; [|split]);
    try lia; intros [X|X]; try discriminate; split; assumption.
Qed.

(** ** domUtils: what [undefined] means *)

Lemma report_grows (l : list report) (r : report) : l ++ [r] <> l.
Proof.
  intros H. apply (f_equal length) in H. rewrite length_app in H. simpl in H. lia.
Qed.

Lemma reports_grow (l : list report) (r r' : report) : (l ++ [r]) ++ [r'] <> l.
Proof.
  intros H. apply (f_equal length) in H. rewrite !length_app in H. simpl in H. lia.
Qed.

Ltac settle_reports :=
  simpl; split; intros;
  try discriminate; try reflexivity; try congruence;
  try apply report_grows; try apply reports_grow;
  try match goal with H : ?x <> ?x |- _ => destruct (H eq_refl) end.

(** X23. In [domUtils], [undefined] is the mark of an error and of nothing
    else: [fetchDOM], [checkElement], [getElement] and [getAttribute] return
    [undefined] exactly when they have passed an error to [handleError];
    what the page leaves undefined, does not match or holds as a falsy
    value comes back as [null] or [false]. *)
Theorem undefined_only_on_error (E : env) (d : descriptor) (frame : option page_ref)
    (attribute : string) (w : world) :
  ((fetchDOM E w).1 = Ret VUndefined <-> handled (fetchDOM E w).2 <> handled w)
  /\ ((checkElement E d w).1 = Ret VUndefined <-> handled (checkElement E d w).2 <> handled w)
  /\ ((getElement E d frame w).1 = Ret Undefined
      <-> handled (getElement E d frame w).2 <> handled w)
  /\ ((getAttribute E d attribute w).1 = Ret VUndefined
      <-> handled (getAttribute E d attribute w).2 <> handled w).
Proof.
  split; [|split; [|split]].
  - unfold fetchDOM, try_catch, bind, ask, ret, handleError.
    destruct (fails E (calls w)); [settle_reports|].
    destruct (evaluated E (calls w)); settle_reports.
  - unfold checkElement, try_catch, bind, ask, ret, throw, handleError.
    repeat (match goal with
            | |- context [fails E ?k] => destruct (fails E k) eqn:?
            | |- context [String.eqb ?a ?b] => destruct (String.eqb a b) eqn:?
            end; simpl); settle_reports.
  - unfold getElement, try_catch, bind, ask, ret, throw, handleError, or_null, of_option.
    repeat (match goal with
            | |- context [fails E ?k] => destruct (fails E k) eqn:?
            | |- context [String.eqb ?a ?b] => destruct (String.eqb a b) eqn:?
            | |- context [css_first E ?p ?x] => destruct (css_first E p x) eqn:?
            | |- context [xpath_first E ?p ?x] => destruct (xpath_first E p x) eqn:?
            end; simpl); settle_reports.
  - unfold getAttribute, getElement, try_catch, bind, ask, ret, throw, handleError, or_null,
      of_option.
    repeat (match goal with
            | |- context [fails E ?k] => destruct (fails E k) eqn:?
            | |- context [String.eqb ?a ?b] => destruct (String.eqb a b) eqn:?
            | |- context [css_first E ?p ?x] => destruct (css_first E p x) eqn:?
            | |- context [xpath_first E ?p ?x] => destruct (xpath_first E p x) eqn:?
            | |- context [evaluated E ?k] => destruct (evaluated E k) eqn:?
            | |- context [if ?b then _ else _] => destruct b eqn:?
            end; simpl); settle_reports.
Qed.
